(** * Vector storage extension: synchronisation and retrieval

    A shallow embedding of the "vectors" extension of the chat front end
    (the module that declares [synchronizeChat], [rearrangeChat],
    [injectDataBankChunks] and the remote vector client), followed by the
    properties of its hash-diff synchronisation and retrieval injection.

    Conventions of the embedding:
    - JavaScript numbers that hold integers are [Z]; strings are [string],
      the text held in UTF-8; arrays are lists.
    - Objects compared by identity (chat messages) carry a reference
      [msg_ref]; [includes] and [indexOf] on messages compare references.
    - An [async] function is a state transformer on [World]; a thrown
      exception is the [Throw] completion; the requests sent to the server
      are recorded in the world in the order they are issued.
    - Request headers, console output and the progress widgets are left
      out of the world. *)

From Stdlib Require Import List ZArith Lia Bool String Ascii.
From Stdlib Require Import Permutation Sorted QArith_base.
From Stdlib Require Import DecimalString DecimalZ.
Import ListNotations.
Local Open Scope string_scope.
Local Open Scope list_scope.
Local Open Scope Z_scope.

Set Implicit Arguments.

(** ** JavaScript primitives used by the module *)

Module JS.

Section Arrays.
Variable A : Type.
Variable eqb : A -> A -> bool.

(** [arr.includes(x)] *)
Definition includes (arr : list A) (x : A) : bool :=
  existsb (eqb x) arr.

(** [arr.indexOf(x)]: the first index holding [x], or [-1]. *)
Fixpoint indexOf (arr : list A) (x : A) : Z :=
  match arr with
  | [] => -1
  | y :: rest =>
      if eqb y x then 0
      else let i := indexOf rest x in
           if i <? 0 then -1 else i + 1
  end.

(** Relative indices of [slice] and [splice]: a negative index counts
    from the end, and the result is clamped to [0, length]. *)
Definition clamp (len : Z) (i : Z) : nat :=
  Z.to_nat (if i <? 0 then Z.max (len + i) 0 else Z.min i len).

(** [arr.slice(start)] *)
Definition slice_from (start : Z) (arr : list A) : list A :=
  skipn (clamp (Z.of_nat (List.length arr)) start) arr.

(** [arr.slice(start, stop)] *)
Definition slice (start stop : Z) (arr : list A) : list A :=
  let len := Z.of_nat (List.length arr) in
  let k := clamp len start in
  let f := clamp len stop in
  firstn (f - k)%nat (skipn k arr).

(** [arr.splice(start, 1)]: the array once the element at [start] is
    taken out. *)
Definition splice1 (start : Z) (arr : list A) : list A :=
  let k := clamp (Z.of_nat (List.length arr)) start in
  firstn k arr ++ skipn (S k) arr.

(** [arr.sort(cmp)] for a comparator whose sign orders its arguments.
    The sort is stable: each element goes after the ones that do not
    compare greater than it. *)
Section Sort.
Variable cmp : A -> A -> Z.

Fixpoint sort_insert (x : A) (sorted : list A) : list A :=
  match sorted with
  | [] => [x]
  | y :: rest =>
      if cmp y x <=? 0 then y :: sort_insert x rest
      else x :: y :: rest
  end.

Definition sort (arr : list A) : list A :=
  fold_left (fun acc x => sort_insert x acc) arr [].
End Sort.
End Arrays.

(** [strs.join(sep)] *)
Fixpoint join (sep : string) (strs : list string) : string :=
  match strs with
  | [] => EmptyString
  | [s] => s
  | s :: rest => (s ++ sep ++ join sep rest)%string
  end.

(** The line feed character, as a string. *)
Definition LF : string := String (ascii_of_nat 10) EmptyString.

(** The quotation mark (U+0022), as a string. *)
Definition QUOTE : string := String (ascii_of_nat 34) EmptyString.

(** Truthiness of a string: every string but the empty one. *)
Definition truthy (s : string) : bool :=
  negb (String.eqb s EmptyString).

(** White space of the ASCII range. *)
Definition is_space (c : ascii) : bool :=
  let n := nat_of_ascii c in
  (Nat.eqb n 32 || (Nat.leb 9 n && Nat.leb n 13))%bool.

(** The string made of the bytes [codes]. *)
Definition bytes (codes : list nat) : string :=
  string_of_list_ascii (map ascii_of_nat codes).

(** What [trim] removes: the white space and the line terminators of
    ECMAScript, that is the code points U+0009 to U+000D, U+0020, U+00A0,
    U+1680, U+2000 to U+200A, U+2028, U+2029, U+202F, U+205F, U+3000 and
    U+FEFF, each by the bytes that hold it in UTF-8. *)
Definition white_space : list string :=
  map bytes
    [[9]; [10]; [11]; [12]; [13]; [32]; [194; 160]; [225; 154; 128];
     [226; 128; 128]; [226; 128; 129]; [226; 128; 130]; [226; 128; 131];
     [226; 128; 132]; [226; 128; 133]; [226; 128; 134]; [226; 128; 135];
     [226; 128; 136]; [226; 128; 137]; [226; 128; 138]; [226; 128; 168];
     [226; 128; 169]; [226; 128; 175]; [226; 129; 159]; [227; 128; 128];
     [239; 187; 191]]%nat.

(** [s] without its prefix [p], when it starts with [p]. *)
Fixpoint without_prefix (p s : string) : option string :=
  match p, s with
  | EmptyString, _ => Some s
  | String a p', String b s' =>
      if Ascii.eqb a b then without_prefix p' s' else None
  | String _ _, EmptyString => None
  end.

(** [s] without the first of [spaces] that it starts with. *)
Fixpoint without_space (spaces : list string) (s : string) : option string :=
  match spaces with
  | [] => None
  | p :: others =>
      match without_prefix p s with
      | Some s' => Some s'
      | None => without_space others s
      end
  end.

(** [s] without the [spaces] it starts with, at most [n] of them. *)
Fixpoint without_spaces (n : nat) (spaces : list string) (s : string)
  : string :=
  match n with
  | O => s
  | S n' =>
      match without_space spaces s with
      | Some s' => without_spaces n' spaces s'
      | None => s
      end
  end.

Definition reverse (s : string) : string :=
  string_of_list_ascii (rev (list_ascii_of_string s)).

(** [s.trimStart()] *)
Definition trimStart (s : string) : string :=
  without_spaces (String.length s) white_space s.

(** [s.trimEnd()]: the white space is taken off the end of [s], read
    backwards. *)
Definition trimEnd (s : string) : string :=
  reverse (without_spaces (String.length s) (map reverse white_space)
             (reverse s)).

(** [s.trim()] *)
Definition trim (s : string) : string := trimEnd (trimStart s).

(** Lower-case form of an ASCII letter, for the [i] flag of a pattern. *)
Definition lower (c : ascii) : ascii :=
  let n := nat_of_ascii c in
  if (Nat.leb 65 n && Nat.leb n 90)%bool then ascii_of_nat (n + 32) else c.

(** Does [s] start with [pat], letters compared without case? *)
Fixpoint starts_with_ci (pat s : string) : bool :=
  match pat, s with
  | EmptyString, _ => true
  | String p pat', String c s' =>
      (Ascii.eqb (lower p) (lower c) && starts_with_ci pat' s')%bool
  | String _ _, EmptyString => false
  end.

Fixpoint drop (n : nat) (s : string) : string :=
  match n, s with
  | O, _ => s
  | S n', String _ s' => drop n' s'
  | S _, EmptyString => EmptyString
  end.

Fixpoint take (n : nat) (s : string) : string :=
  match n, s with
  | O, _ => EmptyString
  | S n', String c s' => String c (take n' s')
  | S _, EmptyString => EmptyString
  end.

(** The first match of [pat] in [s]: what precedes it, the matched text
    and what follows it. *)
Fixpoint first_match (pat s : string) : option (string * string * string) :=
  if starts_with_ci pat s
  then Some (EmptyString, take (String.length pat) s, drop (String.length pat) s)
  else match s with
       | EmptyString => None
       | String c s' =>
           match first_match pat s' with
           | Some (before, matched, after) =>
               Some (String c before, matched, after)
           | None => None
           end
       end.

(** The replacement text of [replace], with its [$] patterns: [$$], [$&],
    the text before the match and the text after it.  The pattern has no
    capture group, so [$1] and the like stand for themselves. *)
Fixpoint substitution (before matched after replacement : string) : string :=
  match replacement with
  | EmptyString => EmptyString
  | String "$" (String "$" rest) =>
      String "$" (substitution before matched after rest)
  | String "$" (String "&" rest) =>
      (matched ++ substitution before matched after rest)%string
  | String "$" (String "`" rest) =>
      (before ++ substitution before matched after rest)%string
  | String "$" (String "'" rest) =>
      (after ++ substitution before matched after rest)%string
  | String c rest => String c (substitution before matched after rest)
  end.

(** [s.replace(/pat/i, replacement)] for a pattern [pat] of plain
    characters: only the first match is replaced. *)
Definition replace_ci (pat s replacement : string) : string :=
  match first_match pat s with
  | None => s
  | Some (before, matched, after) =>
      (before ++ substitution before matched after replacement ++ after)%string
  end.

End JS.

(** ** Data model *)

(** A unit of content sent to the vector store: [{ text, hash, index }]. *)
Record Item := mkItem { text : string; hash : Z; index : Z }.

(** A chat message.  [msg_ref] is the identity of the object. *)
Record message := mkMessage {
  msg_ref : nat;
  name : string;
  mes : string;
  is_system : bool;
}.

Definition same_message (a b : message) : bool :=
  Nat.eqb (msg_ref a) (msg_ref b).

(** The [settings] object of the module (the fields read here). *)
Module settings.
Record t := mk {
  source : string;
  include_wi : bool;
  ollama_model : string;
  summarize : bool;
  summarize_sent : bool;
  summary_source : string;
  summary_prompt : string;
  enabled_chats : bool;
  template : string;
  depth : Z;
  position : Z;
  protect : Z;
  insert : Z;
  query : Z;
  message_chunk_size : Z;
  score_threshold : Q;
  enabled_files : bool;
  chunk_count_db : Z;
  file_template_db : string;
  file_position_db : Z;
  file_depth_db : Z;
  file_depth_role_db : Z;
  enabled_world_info : bool;
}.
End settings.

(** Keys of [secret_state] and of [server_urls] read by
    [throwIfSourceInvalid]. *)
Inductive SECRET_KEYS :=
  OPENAI | MAKERSUITE | MISTRALAI | TOGETHERAI | NOMICAI | COHERE.

Inductive textgen_types := OLLAMA | LLAMACPP.

(** The [cause] attached to an [Error] by [throwIfSourceInvalid]. *)
Inductive Cause :=
  api_key_missing | api_url_missing | api_model_missing | extras_module_missing.

(** Result of a query: [{ hashes, metadata }]; [metadata] may be absent. *)
Record QueryResult := mkQueryResult {
  hashes : list Z;
  metadata : option (list Item);
}.

(** Requests sent by the module, with the fields of their JSON body. *)
Inductive Request :=
| ReqList (collectionId source : string)
| ReqInsert (collectionId : string) (items : list Item) (source : string)
| ReqDelete (collectionId : string) (hashes : list Z) (source : string)
| ReqQuery (collectionId searchText : string) (topK : Z) (source : string)
           (threshold : Q)
| ReqQueryMulti (collectionIds : list string) (searchText : string) (topK : Z)
                (source : string) (threshold : Q)
| ReqPurge (collectionId : string)
| ReqSummarize (text : string).

(** What [response.json()] yields.  An object is the list of its entries
    in enumeration order; [BodyNone] is a body that [json()] cannot
    read. *)
Inductive Body :=
| BodyNone
| BodyHashes (hs : list Z)
| BodyQuery (result : QueryResult)
| BodyMulti (results : list (string * QueryResult))
| BodySummary (summary : string).

Record Response := mkResponse { ok : bool; body : Body }.

(** A call of [setExtensionPrompt]. *)
Record Prompt := mkPrompt {
  prompt_tag : string;
  prompt_text : string;
  prompt_position : Z;
  prompt_depth : Z;
  prompt_scan : bool;
  prompt_role : option Z;
}.

(** State of the page: the module's variables, the application state it
    reads, and what it has sent out so far (newest last). *)
Record World := mkWorld {
  cfg : settings.t;
  syncBlocked : bool;
  is_send_press : bool;
  currentChatId : option string;
  chat : list message;
  secret_state : SECRET_KEYS -> bool;
  server_urls : textgen_types -> string;
  modules : list string;
  requests : list Request;
  prompts : list Prompt;
  toasts : list (string * string);
}.

(** Completion of a statement list: a value, or a thrown [Error] with its
    optional [cause]. *)
Inductive Completion (A : Type) :=
| Normal (a : A)
| Throw (cause : option Cause).
Arguments Throw {A} cause.

Definition M (A : Type) : Type := World -> Completion A * World.

Definition ret {A} (a : A) : M A := fun w => (Normal a, w).

Definition throw {A} (cause : option Cause) : M A := fun w => (Throw cause, w).

Definition bind {A B} (m : M A) (k : A -> M B) : M B :=
  fun w =>
    match m w with
    | (Normal a, w') => k a w'
    | (Throw cause, w') => (Throw cause, w')
    end.

Notation "x <- m ;; k" := (bind m (fun x => k))
  (at level 61, m at next level, right associativity).
Notation "m ;;; k" := (bind m (fun _ => k))
  (at level 61, right associativity).

Definition get : M World := fun w => (Normal w, w).

Definition modify (f : World -> World) : M unit := fun w => (Normal tt, f w).

Definition set_syncBlocked (b : bool) (w : World) : World :=
  mkWorld (cfg w) b (is_send_press w) (currentChatId w) (chat w)
          (secret_state w) (server_urls w) (modules w) (requests w)
          (prompts w) (toasts w).

Definition log_request (r : Request) (w : World) : World :=
  mkWorld (cfg w) (syncBlocked w) (is_send_press w) (currentChatId w) (chat w)
          (secret_state w) (server_urls w) (modules w) (requests w ++ [r])
          (prompts w) (toasts w).

Definition log_prompt (p : Prompt) (w : World) : World :=
  mkWorld (cfg w) (syncBlocked w) (is_send_press w) (currentChatId w) (chat w)
          (secret_state w) (server_urls w) (modules w) (requests w)
          (prompts w ++ [p]) (toasts w).

Definition log_toast (title message : string) (w : World) : World :=
  mkWorld (cfg w) (syncBlocked w) (is_send_press w) (currentChatId w) (chat w)
          (secret_state w) (server_urls w) (modules w) (requests w)
          (prompts w) (toasts w ++ [(title, message)]).

(** The collaborators of the module: functions it imports, and the server
    behind [fetch], which answers a request knowing the requests served
    before it, or does not answer ([None], a network error).
    [processFiles] and [activateWorldInfo], the two steps of
    [rearrangeChat] that come before chat retrieval, are taken as given:
    each receives the [chat] array (and [processFiles] may rewrite the
    text of its messages).  [apiUrl] is [new URL(getApiUrl())], the
    address of the Extras API: [None] when the constructor throws. *)
Record Collab := mkCollab {
  substituteParams : string -> string;
  calculateHash : string -> Z;
  collapseNewlines : string -> string;
  splitRecursive : string -> Z -> list string;
  generateRaw : string -> string -> Completion string;
  server : list Request -> Request -> option Response;
  processFiles : list message -> World -> list message * World;
  activateWorldInfo : list message -> World -> Completion unit * World;
  apiUrl : option string;
}.

(** ** The module *)

Section Vectors.
Variable E : Collab.

Definition EXTENSION_PROMPT_TAG : string := "3_vectors".
Definition EXTENSION_PROMPT_TAG_DB : string := "4_vectors_data_bank".

(** [await fetch(url, { body })]: the request is sent, then the answer
    comes or the promise rejects. *)
Definition fetch (r : Request) : M Response :=
  fun w =>
    match server E (requests w) r with
    | Some response => (Normal response, log_request r w)
    | None => (Throw None, log_request r w)
    end.

(** [setExtensionPrompt(tag, text, position, depth, scan, role)] *)
Definition setExtensionPrompt (tag value : string) (position depth : Z)
    (scan : bool) (role : option Z) : M unit :=
  modify (log_prompt (mkPrompt tag value position depth scan role)).

(** [getStringHash(str)].  The cache [hashCache] only ever holds values of
    [calculateHash], so a hit returns what a miss computes; see
    [getStringHash_cached] for the function with its cache. *)
Definition getStringHash (str : string) : Z := calculateHash E str.

(** [getStringHash] with [hashCache] as an association list. *)
Fixpoint cache_get (cache : list (string * Z)) (str : string) : option Z :=
  match cache with
  | [] => None
  | (k, v) :: rest => if String.eqb k str then Some v else cache_get rest str
  end.

Definition getStringHash_cached (cache : list (string * Z)) (str : string)
  : Z * list (string * Z) :=
  match cache_get cache str with
  | Some h => (h, cache)
  | None => let h := calculateHash E str in (h, (str, h) :: cache)
  end.

(** *** Remote vector client *)

Definition source_is (w : World) (s : string) : bool :=
  String.eqb (settings.source (cfg w)) s.

(** [throwIfSourceInvalid()] *)
Definition throwIfSourceInvalid : M unit :=
  fun w =>
    if (source_is w "openai" && negb (secret_state w OPENAI))
       || (source_is w "palm" && negb (secret_state w MAKERSUITE))
       || (source_is w "mistral" && negb (secret_state w MISTRALAI))
       || (source_is w "togetherai" && negb (secret_state w TOGETHERAI))
       || (source_is w "nomicai" && negb (secret_state w NOMICAI))
       || (source_is w "cohere" && negb (secret_state w COHERE))
    then (Throw (Some api_key_missing), w)
    else if (source_is w "ollama" && negb (JS.truthy (server_urls w OLLAMA)))
            || (source_is w "llamacpp"
                && negb (JS.truthy (server_urls w LLAMACPP)))
    then (Throw (Some api_url_missing), w)
    else if source_is w "ollama"
            && negb (JS.truthy (settings.ollama_model (cfg w)))
    then (Throw (Some api_model_missing), w)
    else if source_is w "extras"
            && negb (JS.includes String.eqb (modules w) "embeddings")
    then (Throw (Some extras_module_missing), w)
    else (Normal tt, w).

(** [getSavedHashes(collectionId)] *)
Definition getSavedHashes (collectionId : string) : M (list Z) :=
  w <- get ;;
  response <- fetch (ReqList collectionId (settings.source (cfg w))) ;;
  if negb (ok response) then throw None
  else match body response with
       | BodyHashes hs => ret hs
       | _ => throw None
       end.

(** [insertVectorItems(collectionId, items)] *)
Definition insertVectorItems (collectionId : string) (items : list Item)
  : M unit :=
  throwIfSourceInvalid ;;;
  w <- get ;;
  response <- fetch (ReqInsert collectionId items (settings.source (cfg w))) ;;
  if negb (ok response) then throw None else ret tt.

(** [deleteVectorItems(collectionId, hashes)] *)
Definition deleteVectorItems (collectionId : string) (hs : list Z) : M unit :=
  w <- get ;;
  response <- fetch (ReqDelete collectionId hs (settings.source (cfg w))) ;;
  if negb (ok response) then throw None else ret tt.

(** [queryCollection(collectionId, searchText, topK)] *)
Definition queryCollection (collectionId searchText : string) (topK : Z)
  : M QueryResult :=
  w <- get ;;
  response <- fetch (ReqQuery collectionId searchText topK
                       (settings.source (cfg w))
                       (settings.score_threshold (cfg w))) ;;
  if negb (ok response) then throw None
  else match body response with
       | BodyQuery r => ret r
       | _ => throw None
       end.

(** [queryMultipleCollections(collectionIds, searchText, topK, threshold)] *)
Definition queryMultipleCollections (collectionIds : list string)
    (searchText : string) (topK : Z) (threshold : Q)
  : M (list (string * QueryResult)) :=
  w <- get ;;
  response <- fetch (ReqQueryMulti collectionIds searchText topK
                       (settings.source (cfg w)) threshold) ;;
  if negb (ok response) then throw None
  else match body response with
       | BodyMulti rs => ret rs
       | _ => throw None
       end.

(** [purgeVectorIndex(collectionId)]: [true] when the index is gone or
    chat vectors are off, [false] when the request failed. *)
Definition purgeVectorIndex (collectionId : string) : World -> bool * World :=
  fun w =>
    if negb (settings.enabled_chats (cfg w)) then (true, w)
    else match fetch (ReqPurge collectionId) w with
         | (Normal response, w') => (ok response, w')
         | (Throw _, w') => (false, w')
         end.

(** *** Synchroniser *)

Definition set_text (item : Item) (t : string) : Item :=
  mkItem t (hash item) (index item).

(** [splitByChunks(items)] *)
Definition splitByChunks (s : settings.t) (items : list Item) : list Item :=
  if settings.message_chunk_size s <=? 0 then items
  else
    flat_map
      (fun item =>
         map (fun chunk => set_text item chunk)
             (splitRecursive E (text item) (settings.message_chunk_size s)))
      items.

(** [summarizeExtra(hashedMessages)].  Each turn of the loop runs under
    its own [try]: when [new URL] throws nothing is sent, and then, as
    when the request fails, is refused or has an answer that cannot be
    read, the element keeps its text.  An accepted answer is taken to be
    a summary or unreadable: the bodies of the other endpoints are not
    answers to this request. *)
Fixpoint summarizeExtra (hashedMessages : list Item) : M (list Item) :=
  match hashedMessages with
  | [] => ret []
  | element :: rest =>
      fun w =>
        let (element', w1) :=
          match apiUrl E with
          | None => (element, w)
          | Some _ =>
              let (apiResult, w1) := fetch (ReqSummarize (text element)) w in
              (match apiResult with
               | Normal response =>
                   match ok response, body response with
                   | true, BodySummary summary => set_text element summary
                   | _, _ => element
                   end
               | Throw _ => element
               end, w1)
          end in
        (rest' <- summarizeExtra rest ;; ret (element' :: rest')) w1
  end.

(** [summarizeMain(hashedMessages)] *)
Fixpoint summarizeMain (hashedMessages : list Item) : M (list Item) :=
  match hashedMessages with
  | [] => ret []
  | element :: rest =>
      w <- get ;;
      summary <- (fun w' => (generateRaw E (text element)
                               (settings.summary_prompt (cfg w)), w')) ;;
      rest' <- summarizeMain rest ;;
      ret (set_text element summary :: rest')
  end.

(** [summarize(hashedMessages, endpoint)]; [None] is the [undefined] of
    an unsupported endpoint. *)
Definition summarize (hashedMessages : list Item) (endpoint : string)
  : M (option (list Item)) :=
  if String.eqb endpoint "main"
  then r <- summarizeMain hashedMessages ;; ret (Some r)
  else if String.eqb endpoint "extras"
  then r <- summarizeExtra hashedMessages ;; ret (Some r)
  else ret None.

(** A call of an array method on the result of [summarize]: a
    [TypeError] when it is [undefined]. *)
Definition array_of (r : option (list Item)) : M (list Item) :=
  match r with
  | Some l => ret l
  | None => throw None
  end.

(** Is the chat identifier truthy? *)
Definition chat_selected (chatId : option string) : option string :=
  match chatId with
  | Some id => if JS.truthy id then Some id else None
  | None => None
  end.

(** The [hashedMessages] of [synchronizeChat] (line 247). *)
Definition hashedMessagesOf (chat : list message) : list Item :=
  map (fun x => mkItem (substituteParams E (mes x))
                       (getStringHash (substituteParams E (mes x)))
                       (JS.indexOf same_message chat x))
      (filter (fun x => negb (is_system x)) chat).

(** [hashedMessages.filter(x => !hashesInCollection.includes(x.hash))] *)
Definition newVectorItems (hashedMessages : list Item)
    (hashesInCollection : list Z) : list Item :=
  filter (fun x => negb (JS.includes Z.eqb hashesInCollection (hash x)))
         hashedMessages.

(** [hashesInCollection.filter(x => !hashedMessages.some(y => y.hash === x))] *)
Definition deletedHashes (hashedMessages : list Item)
    (hashesInCollection : list Z) : list Z :=
  filter (fun x => negb (existsb (fun y => Z.eqb (hash y) x) hashedMessages))
         hashesInCollection.

(** Lines 258 to 270 of [synchronizeChat]: the delta is applied and the
    number of items left over is returned. *)
Definition applyDelta (batchSize : Z) (chatId : string)
    (newItems : list Item) (deleted : list Z) : M Z :=
  w <- get ;;
  (if Z.of_nat (List.length newItems) >? 0
   then insertVectorItems chatId
          (splitByChunks (cfg w) (JS.slice 0 batchSize newItems))
   else ret tt) ;;;
  (if Z.of_nat (List.length deleted) >? 0
   then deleteVectorItems chatId deleted
   else ret tt) ;;;
  ret (Z.of_nat (List.length newItems) - batchSize).

(** Lines 247 to 255 of [synchronizeChat]: the delta between the chat and
    the collection, [(newVectorItems, deletedHashes)]. *)
Definition computeDelta (chatId : string) : M (list Item * list Z) :=
  context <- get ;;
  let hashedMessages := hashedMessagesOf (chat context) in
  hashesInCollection <- getSavedHashes chatId ;;
  hashedMessages <-
    (if settings.summarize (cfg context)
     then r <- summarize hashedMessages
                 (settings.summary_source (cfg context)) ;;
          array_of r
     else ret hashedMessages) ;;
  ret (newVectorItems hashedMessages hashesInCollection,
       deletedHashes hashedMessages hashesInCollection).

(** The second [try] block of [synchronizeChat] (lines 238 to 270). *)
Definition synchronizeChat_try (batchSize : Z) : M Z :=
  modify (set_syncBlocked true) ;;;
  context <- get ;;
  match chat_selected (currentChatId context) with
  | None => ret (-1)
  | Some chatId =>
      delta <- computeDelta chatId ;;
      applyDelta batchSize chatId (fst delta) (snd delta)
  end.

(** [getErrorMessage(cause)]; [JS.QUOTE] stands where a message has a
    quotation mark. *)
Definition getErrorMessage (cause : option Cause) : string :=
  match cause with
  | Some api_key_missing =>
      ("API key missing. Save it in the " ++ JS.QUOTE ++ "API Connections"
       ++ JS.QUOTE ++ " panel.")%string
  | Some api_url_missing =>
      ("API URL missing. Save it in the " ++ JS.QUOTE ++ "API Connections"
       ++ JS.QUOTE ++ " panel.")%string
  | Some api_model_missing =>
      "Vectorization Source Model is required, but not set."
  | Some extras_module_missing =>
      ("Extras API must provide an " ++ JS.QUOTE ++ "embeddings" ++ JS.QUOTE
       ++ " module.")%string
  | None => "Check server console for more details"
  end.

(** Modelled from the spec: [waitUntilCondition], declared in utils.js,
    is not among the sources.  By section 4.5, step 1, of the
    specification the call is given up when the guard is already held or
    generation is in progress: the wait succeeds when its condition holds
    of the flags as they stand, and is rejected otherwise.  Other tasks of
    the page do not run in this model. *)
Definition waitUntilCondition (condition : World -> bool) : M unit :=
  fun w => if condition w then (Normal tt, w) else (Throw None, w).

(** [synchronizeChat(batchSize)] *)
Definition synchronizeChat (batchSize : Z) (w : World) : Z * World :=
  if negb (settings.enabled_chats (cfg w)) then (-1, w)
  else
    match waitUntilCondition
            (fun w => negb (syncBlocked w) && negb (is_send_press w)) w with
    | (Throw _, w1) => (-1, w1)
    | (Normal _, w1) =>
        let (completion, w2) := synchronizeChat_try batchSize w1 in
        let (result, w3) :=
          match completion with
          | Normal remaining => (remaining, w2)
          | Throw cause =>
              (-1, log_toast "Vectorization failed" (getErrorMessage cause) w2)
          end in
        (result, set_syncBlocked false w3)
    end.

(** How the loop of [onVectorizeAllClick] ends; [StillRunning] when the
    iterations allowed to the model are used up. *)
Inductive LoopExit :=
| Finished
| GenerationInProgress
| ChatChanged
| StillRunning.

Definition same_chat (a : string) (b : option string) : bool :=
  match b with
  | Some id => String.eqb a id
  | None => false
  end.

(** The [while (!finished)] loop of [onVectorizeAllClick] (lines 116 to
    142), with [batchSize = 5]. *)
Fixpoint vectorizeAll_loop (fuel : nat) (chatId : string) (w : World)
  : LoopExit * World :=
  match fuel with
  | O => (StillRunning, w)
  | S fuel' =>
      if is_send_press w
      then (GenerationInProgress,
            log_toast "Vectorization aborted"
                      "Message generation is in progress." w)
      else
        let (remaining, w1) := synchronizeChat 5 w in
        let finished := remaining <=? 0 in
        if negb (same_chat chatId (currentChatId w1)) then (ChatChanged, w1)
        else if finished then (Finished, w1)
        else vectorizeAll_loop fuel' chatId w1
  end.

(** [onVectorizeAllClick()], allowed [fuel] iterations of its loop. *)
Definition onVectorizeAllClick (fuel : nat) (w : World) : World :=
  if negb (settings.enabled_chats (cfg w)) then w
  else
    match chat_selected (currentChatId w) with
    | None => log_toast "Vectorization aborted" "No chat selected" w
    | Some chatId => snd (vectorizeAll_loop fuel chatId w)
    end.

(** *** Retrieval injector *)

(** Modelled from the spec: [onlyUnique], declared in utils.js, is not
    among the sources.  [arr.filter(onlyUnique)] deduplicates [arr]: an
    element is kept where it occurs first. *)
Fixpoint onlyUnique_from (A : Type) (eqb : A -> A -> bool) (arr : list A)
    (i : Z) (rest : list A) : list A :=
  match rest with
  | [] => []
  | value :: rest' =>
      if JS.indexOf eqb arr value =? i
      then value :: onlyUnique_from eqb arr (i + 1) rest'
      else onlyUnique_from eqb arr (i + 1) rest'
  end.

Definition filter_onlyUnique (A : Type) (eqb : A -> A -> bool) (arr : list A)
  : list A :=
  onlyUnique_from eqb arr 0 arr.

(** The [for] loop of [getQueryText] (lines 610 to 619), over the
    messages from the newest to the oldest. *)
Fixpoint queryLoop (query : Z) (messages : list Item) (queryText : string)
    (i : Z) : string :=
  match messages with
  | [] => queryText
  | message :: rest =>
      let (queryText, i) :=
        if JS.truthy (text message)
        then ((queryText ++ text message ++ JS.LF)%string, i + 1)
        else (queryText, i) in
      if i =? query then queryText
      else queryLoop query rest queryText i
  end.

(** [getQueryText(chat)].  The objects of [hashedMessages] hold a [text]
    only; their other two fields are not read. *)
Definition getQueryText (chat : list message) : M string :=
  w <- get ;;
  let hashedMessages :=
    map (fun x => mkItem (substituteParams E (mes x)) 0 0) chat in
  hashedMessages <-
    (if settings.summarize (cfg w) && settings.summarize_sent (cfg w)
     then r <- summarize hashedMessages (settings.summary_source (cfg w)) ;;
          array_of r
     else ret hashedMessages) ;;
  ret (JS.trim (collapseNewlines E
         (queryLoop (settings.query (cfg w)) (rev hashedMessages) "" 0))).

(** The texts of one collection in [injectDataBankChunks] (line 432). *)
Definition collectionTexts (result : QueryResult) : list string :=
  match metadata result with
  | Some entries =>
      filter_onlyUnique String.eqb
        (map text
           (JS.sort (fun a b => index a - index b)
              (filter (fun x => JS.truthy (text x)) entries)))
  | None => []
  end.

(** The [textResult] of [injectDataBankChunks] (lines 428 to 434). *)
Definition dataBankText (queryResults : list (string * QueryResult)) : string :=
  fold_left
    (fun textResult entry =>
       (textResult ++ JS.join JS.LF (collectionTexts (snd entry))
          ++ JS.LF ++ JS.LF)%string)
    queryResults "".

(** [injectDataBankChunks(queryText, collectionIds)] *)
Definition injectDataBankChunks (queryText : string)
    (collectionIds : list string) (w : World) : World :=
  snd ((queryResults <- queryMultipleCollections collectionIds queryText
                          (settings.chunk_count_db (cfg w))
                          (settings.score_threshold (cfg w)) ;;
        let textResult := dataBankText queryResults in
        if negb (JS.truthy textResult) then ret tt
        else
          setExtensionPrompt EXTENSION_PROMPT_TAG_DB
            (substituteParams E
               (JS.replace_ci "{{text}}" (settings.file_template_db (cfg w))
                  textResult))
            (settings.file_position_db (cfg w)) (settings.file_depth_db (cfg w))
            (settings.include_wi (cfg w))
            (Some (settings.file_depth_role_db (cfg w)))) w).

(** The first loop of [rearrangeChat] (lines 545 to 554). *)
Fixpoint collectQueried (queryHashes : list Z) (retainMessages : list message)
    (messages : list message) (queriedMessages : list message)
    (insertedHashes : list Z) : list message :=
  match messages with
  | [] => queriedMessages
  | message :: rest =>
      if JS.includes same_message retainMessages message
         || negb (JS.truthy (mes message))
      then collectQueried queryHashes retainMessages rest
             queriedMessages insertedHashes
      else
        let h := getStringHash (substituteParams E (mes message)) in
        if JS.includes Z.eqb queryHashes h
           && negb (JS.includes Z.eqb insertedHashes h)
        then collectQueried queryHashes retainMessages rest
               (queriedMessages ++ [message]) (h :: insertedHashes)
        else collectQueried queryHashes retainMessages rest
               queriedMessages insertedHashes
  end.

(** The comparator of line 558. *)
Definition byQueryOrder (queryHashes : list Z) (a b : message) : Z :=
  JS.indexOf Z.eqb queryHashes (getStringHash (substituteParams E (mes b)))
  - JS.indexOf Z.eqb queryHashes (getStringHash (substituteParams E (mes a))).

(** The second loop of [rearrangeChat] (lines 561 to 565): the iterator of
    [chat] is at index [i], and [chat] changes under it.  At most
    [length chat] steps are taken. *)
Fixpoint removeQueried (steps : nat) (queriedMessages : list message)
    (i : nat) (chat : list message) : list message :=
  match steps with
  | O => chat
  | S steps' =>
      match nth_error chat i with
      | None => chat
      | Some message =>
          removeQueried steps' queriedMessages (S i)
            (if JS.includes same_message queriedMessages message
             then JS.splice1 (JS.indexOf same_message chat message) chat
             else chat)
      end
  end.

(** [getPromptText(queriedMessages)] *)
Definition getPromptText (s : settings.t) (queriedMessages : list message)
  : string :=
  let queriedText :=
    JS.join (JS.LF ++ JS.LF)%string
      (map (fun x => JS.trim (collapseNewlines E (name x ++ ": " ++ mes x)%string))
           queriedMessages) in
  substituteParams E (JS.replace_ci "{{text}}" (settings.template s) queriedText).

(** Lines 515 to 574 of [rearrangeChat]: retrieval of chat messages.  The
    value is the content of the array [chat] at the end. *)
Definition rearrangeChat_chats (chat : list message) : M (list message) :=
  w <- get ;;
  if negb (settings.enabled_chats (cfg w)) then ret chat
  else
    match chat_selected (currentChatId w) with
    | None => ret chat
    | Some chatId =>
        if Z.of_nat (List.length chat) <? settings.protect (cfg w)
        then ret chat
        else
          queryText <- getQueryText chat ;;
          if (String.length queryText =? 0)%nat then ret chat
          else
            queryResults <- queryCollection chatId queryText
                              (settings.insert (cfg w)) ;;
            let queryHashes := filter_onlyUnique Z.eqb (hashes queryResults) in
            let retainMessages :=
              JS.slice_from (- settings.protect (cfg w)) chat in
            let queriedMessages :=
              JS.sort (byQueryOrder queryHashes)
                (collectQueried queryHashes retainMessages chat [] []) in
            let chat' :=
              removeQueried (List.length chat) queriedMessages 0 chat in
            if (List.length queriedMessages =? 0)%nat then ret chat'
            else
              setExtensionPrompt EXTENSION_PROMPT_TAG
                (getPromptText (cfg w) queriedMessages)
                (settings.position (cfg w)) (settings.depth (cfg w))
                (settings.include_wi (cfg w)) None ;;;
              ret chat'
    end.

(** Lines 503 to 509 of [rearrangeChat]: both prompts are cleared, then
    the files are processed when enabled.  The value is the array [chat]
    as this leaves it. *)
Definition rearrangeChat_files (chat : list message) (w : World)
  : list message * World :=
  let w1 :=
    log_prompt (mkPrompt EXTENSION_PROMPT_TAG "" (settings.position (cfg w))
                  (settings.depth (cfg w)) (settings.include_wi (cfg w)) None)
      w in
  let w2 :=
    log_prompt (mkPrompt EXTENSION_PROMPT_TAG_DB ""
                  (settings.file_position_db (cfg w))
                  (settings.file_depth_db (cfg w)) (settings.include_wi (cfg w))
                  (Some (settings.file_depth_role_db (cfg w))))
      w1 in
  if settings.enabled_files (cfg w2) then processFiles E chat w2
  else (chat, w2).

Definition interceptor_aborted (w : World) : World :=
  log_toast "Vector Storage"
    "Generation interceptor aborted. Check browser console for more details."
    w.

(** Lines 511 to 513 of [rearrangeChat]: world info, when enabled. *)
Definition rearrangeChat_worldInfo (chat : list message) : M unit :=
  fun w =>
    if settings.enabled_world_info (cfg w) then activateWorldInfo E chat w
    else (Normal tt, w).

(** Lines 515 to 578 of [rearrangeChat]: chat retrieval under the [catch]
    of the function.  An exception is reported, and the array stays as it
    was when the exception was thrown. *)
Definition rearrangeChat_retrieve (chat : list message) (w : World)
  : list message * World :=
  match rearrangeChat_chats chat w with
  | (Normal chat', w') => (chat', w')
  | (Throw _, w') => (chat, interceptor_aborted w')
  end.

(** [rearrangeChat(chat)]: the array [chat] as the call leaves it, and the
    world. *)
Definition rearrangeChat (chat : list message) (w : World)
  : list message * World :=
  let (chat1, w1) := rearrangeChat_files chat w in
  match rearrangeChat_worldInfo chat1 w1 with
  | (Throw _, w2) => (chat1, interceptor_aborted w2)
  | (Normal _, w2) => rearrangeChat_retrieve chat1 w2
  end.

End Vectors.

(** ** Chunker *)

(** Modelled from the spec: [splitRecursive], declared in utils.js, is
    not among the sources.  By section 4.2 of the specification,
    [chunk(text, maxSize)] splits [text] into ordered pieces of at most
    [maxSize] characters, at a natural boundary rather than inside a word
    when it can, so that the pieces put together give [text] back; with
    [maxSize <= 0] it returns [[text]].  The next piece is the whole rest
    when that fits; otherwise it ends after the last white space among the
    first [maxSize] characters, or after [maxSize] characters when there is
    none. *)
Fixpoint boundary (window : string) : nat :=
  match window with
  | EmptyString => O
  | String c rest =>
      match boundary rest with
      | O => if JS.is_space c then 1%nat else O
      | S k => S (S k)
      end
  end.

(** Modelled from the spec: the length of the next piece of [rest], when
    [rest] is longer than [maxSize]. *)
Definition cut (maxSize : nat) (rest : string) : nat :=
  match boundary (JS.take maxSize rest) with
  | O => maxSize
  | k => k
  end.

(** Modelled from the spec: the pieces of [rest], in order.  Each step
    takes at least one character, so [length rest] steps are enough. *)
Fixpoint chunk_pieces (steps : nat) (maxSize : nat) (rest : string)
  : list string :=
  if (String.length rest <=? maxSize)%nat then [rest]
  else
    match steps with
    | O => [rest]
    | S steps' =>
        JS.take (cut maxSize rest) rest
          :: chunk_pieces steps' maxSize (JS.drop (cut maxSize rest) rest)
    end.

(** Modelled from the spec: [chunk(text, maxSize)], which stands for
    [splitRecursive(text, maxSize)]. *)
Definition chunk (input : string) (maxSize : Z) : list string :=
  if maxSize <=? 0 then [input]
  else chunk_pieces (String.length input) (Z.to_nat maxSize) input.

(** ** Sample inputs *)

Module Sample.

(** Collaborators that leave texts as they are and hash a text to its
    length, in front of a server [srv]. *)
Definition collab (srv : list Request -> Request -> option Response) : Collab :=
  mkCollab (fun s => s) (fun s => Z.of_nat (String.length s)) (fun s => s)
           chunk (fun prompt _ => Normal prompt) srv
           (fun chat w => (chat, w)) (fun _ w => (Normal tt, w))
           (Some "http://localhost:5100/").

Definition config (source : string) : settings.t :=
  settings.mk source false "mxbai-embed-large" false false "main" ""
              true "Past events: {{text}}" 2 0 2 3 2 400 (1 # 4)
              false 5 "Related information: {{text}}" 0 4 0 false.

Definition world (source : string) (blocked : bool) (keys : bool)
    (chat : list message) : World :=
  mkWorld (config source) blocked false (Some "chat-1") chat
          (fun _ => keys) (fun _ => "") [] [] [] [].

Definition msg (ref : nat) (who body : string) : message :=
  mkMessage ref who body false.

(** Four messages of lengths 1 to 4. *)
Definition four_messages : list message :=
  [msg 0 "A" "a"; msg 1 "B" "bb"; msg 2 "A" "ccc"; msg 3 "B" "dddd"].

(** A server that holds nothing and accepts everything. *)
Definition empty_server (_ : list Request) (r : Request) : option Response :=
  match r with
  | ReqList _ _ => Some (mkResponse true (BodyHashes []))
  | _ => Some (mkResponse true BodyNone)
  end.

(** A server that already holds the hashes 1 and 2 of the chat. *)
Definition half_server (_ : list Request) (r : Request) : option Response :=
  match r with
  | ReqList _ _ => Some (mkResponse true (BodyHashes [1; 2]))
  | _ => Some (mkResponse true BodyNone)
  end.

(** A server whose query finds the hash 1 first and the hash 2 second. *)
Definition memory_server (_ : list Request) (r : Request) : option Response :=
  match r with
  | ReqQuery _ _ _ _ _ =>
      Some (mkResponse true (BodyQuery (mkQueryResult [1; 2] None)))
  | _ => Some (mkResponse true BodyNone)
  end.

(** Two data bank files that both hold the text [A]. *)
Definition two_files : list (string * QueryResult) :=
  [("file_1", mkQueryResult [1] (Some [mkItem "A" 1 0]));
   ("file_2", mkQueryResult [1] (Some [mkItem "A" 1 0; mkItem "B" 2 1]))].

Definition two_files_server (_ : list Request) (r : Request)
  : option Response :=
  match r with
  | ReqQueryMulti _ _ _ _ _ => Some (mkResponse true (BodyMulti two_files))
  | _ => Some (mkResponse true BodyNone)
  end.

End Sample.

(** ** Vocabulary of the properties *)

(** *** What a source needs *)

(** The requirement of the configured source that is not met, if any, in
    the words of the specification: the API key of a hosted source, the
    URL of a local server, the model of Ollama, the embeddings module of
    Extras. *)
Definition key_of_source (source : string) : option SECRET_KEYS :=
  if String.eqb source "openai" then Some OPENAI
  else if String.eqb source "palm" then Some MAKERSUITE
  else if String.eqb source "mistral" then Some MISTRALAI
  else if String.eqb source "togetherai" then Some TOGETHERAI
  else if String.eqb source "nomicai" then Some NOMICAI
  else if String.eqb source "cohere" then Some COHERE
  else None.

Definition url_of_source (source : string) : option textgen_types :=
  if String.eqb source "ollama" then Some OLLAMA
  else if String.eqb source "llamacpp" then Some LLAMACPP
  else None.

Definition missing_requirement (w : World) : option Cause :=
  let source := settings.source (cfg w) in
  match key_of_source source, url_of_source source with
  | Some key, _ =>
      if secret_state w key then None else Some api_key_missing
  | None, Some server =>
      if negb (JS.truthy (server_urls w server)) then Some api_url_missing
      else if String.eqb source "ollama"
              && negb (JS.truthy (settings.ollama_model (cfg w)))
      then Some api_model_missing
      else None
  | None, None =>
      if String.eqb source "extras"
         && negb (JS.includes String.eqb (modules w) "embeddings")
      then Some extras_module_missing
      else None
  end.

(** *** Retrieval *)

(** The part of [textResult] that one collection contributes. *)
Definition collectionBlock (result : QueryResult) : string :=
  (JS.join JS.LF (collectionTexts result) ++ JS.LF ++ JS.LF)%string.

(** The last [n] elements of a list. *)
Definition lastn (A : Type) (n : nat) (l : list A) : list A :=
  skipn (List.length l - n) l.

(** The hash by which [rearrangeChat] matches a message. *)
Definition messageHash (E : Collab) (m : message) : Z :=
  getStringHash E (substituteParams E (mes m)).

(** The rank of a message in the query result: the index of its hash,
    0 for the most relevant. *)
Definition rank (E : Collab) (queryHashes : list Z) (m : message) : Z :=
  JS.indexOf Z.eqb queryHashes (messageHash E m).

(** A message that retrieval may take: outside the retained messages,
    with a text, and with its hash in the query result. *)
Definition eligible (E : Collab) (queryHashes : list Z)
    (retainMessages : list message) (m : message) : bool :=
  negb (JS.includes same_message retainMessages m)
  && JS.truthy (mes m)
  && JS.includes Z.eqb queryHashes (messageHash E m).

(** *** Lists and caches *)

(** [Subseq s l]: [s] is [l] with some elements left out, the others in
    their order. *)
Inductive Subseq (A : Type) : list A -> list A -> Prop :=
| Subseq_nil : Subseq [] []
| Subseq_skip : forall x s l, Subseq s l -> Subseq s (x :: l)
| Subseq_keep : forall x s l, Subseq s l -> Subseq (x :: s) (x :: l).

(** The number of chunks [splitByChunks] makes of an item. *)
Definition chunk_count (E : Collab) (s : settings.t) (item : Item) : nat :=
  if settings.message_chunk_size s <=? 0 then 1%nat
  else List.length
         (splitRecursive E (text item) (settings.message_chunk_size s)).

(** A cache of hashes is sound when it holds values of [calculateHash]
    only. *)
Definition cache_sound (E : Collab) (cache : list (string * Z)) : Prop :=
  forall str h, cache_get cache str = Some h -> h = calculateHash E str.

(** *** Further vocabulary *)

(** The texts [ts], each followed by a line feed. *)
Definition lines_of (ts : list string) : string :=
  String.concat "" (map (fun t => (t ++ JS.LF)%string) ts).

(** The texts that [getQueryText] goes through: the messages from the
    newest to the oldest, macros substituted, empty texts left out. *)
Definition recent_texts (E : Collab) (chat : list message) : list string :=
  filter JS.truthy (map (fun x => substituteParams E (mes x)) (rev chat)).

(** What the removal loop of [rearrangeChat] leaves of an array of
    distinct messages: a message found is taken out, and the message that
    follows it is stepped over, found or not. *)
Fixpoint removeSkipping (queriedMessages : list message)
    (chat : list message) : list message :=
  match chat with
  | [] => []
  | x :: rest =>
      if JS.includes same_message queriedMessages x
      then match rest with
           | [] => []
           | y :: rest' => y :: removeSkipping queriedMessages rest'
           end
      else x :: removeSkipping queriedMessages rest
  end.

(** No message found is directly followed by a message found. *)
Fixpoint no_adjacent (queriedMessages : list message) (chat : list message)
  : Prop :=
  match chat with
  | [] => True
  | x :: rest =>
      match rest with
      | [] => True
      | y :: _ =>
          ~ (JS.includes same_message queriedMessages x = true /\
             JS.includes same_message queriedMessages y = true)
      end /\ no_adjacent queriedMessages rest
  end.

(** How [synchronizeChat] ends once its second [try] block has run
    (lines 271 to 299): the [catch] and the [finally] clauses. *)
Definition finish_sync (outcome : Completion Z * World) : Z * World :=
  match outcome with
  | (Normal remaining, w) => (remaining, set_syncBlocked false w)
  | (Throw cause, w) =>
      (-1, set_syncBlocked false
             (log_toast "Vectorization failed" (getErrorMessage cause) w))
  end.

(** A server that answers every request with a success status. *)
Definition healthy (E : Collab) : Prop :=
  forall history r, exists response,
    server E history r = Some response /\ ok response = true.

Module Cases.

(** A server that answers every request with a success status, and a
    list request with the hashes 1 and 9. *)
Definition stale_server (_ : list Request) (r : Request) : option Response :=
  match r with
  | ReqList _ _ => Some (mkResponse true (BodyHashes [1; 9]))
  | _ => Some (mkResponse true BodyNone)
  end.

(** A server that holds the four messages of [Sample.four_messages]. *)
Definition synced_server (_ : list Request) (r : Request) : option Response :=
  match r with
  | ReqList _ _ => Some (mkResponse true (BodyHashes [4; 3; 2; 1]))
  | _ => Some (mkResponse true BodyNone)
  end.

(** The settings of [Sample.config] with summaries turned on, made by
    [summary_source]. *)
Definition summarizing (summary_source : string) : settings.t :=
  settings.mk "transformers" false "mxbai-embed-large" true true
              summary_source "" true "Past events: {{text}}" 2 0 2 3 2 400
              (1 # 4) false 5 "Related information: {{text}}" 0 4 0 false.

Definition world_with (s : settings.t) (chat : list message) : World :=
  mkWorld s false false (Some "chat-1") chat (fun _ => false) (fun _ => "")
          [] [] [] [].

End Cases.

(** The hash and the index of an item: what identifies it in the store. *)
Definition item_key (x : Item) : Z * Z := (hash x, index x).

(** The server answers a request for a summary, when it accepts it, with
    a summary or with a body that cannot be read. *)
Definition summaries_answered (E : Collab) : Prop :=
  forall history t response,
    server E history (ReqSummarize t) = Some response ->
    ok response = true ->
    body response = BodyNone \/
    exists summary, body response = BodySummary summary.

(** The text that [summarizeExtra] gives to [element] when its request
    comes after [history]: the summary of the server, or the text of the
    element when the server does not answer, refuses, or answers with a
    body that cannot be read. *)
Definition summary_text (E : Collab) (history : list Request) (element : Item)
  : string :=
  match server E history (ReqSummarize (text element)) with
  | Some response =>
      match ok response, body response with
      | true, BodySummary summary => summary
      | _, _ => text element
      end
  | None => text element
  end.

(** The collaborators [E] with an Extras address that does not parse. *)
Definition without_url (E : Collab) : Collab :=
  mkCollab (substituteParams E) (calculateHash E) (collapseNewlines E)
           (splitRecursive E) (generateRaw E) (server E) (processFiles E)
           (activateWorldInfo E) None.

(** A server of summaries: it shortens [bb] to [b], refuses [ccc], does
    not answer for [dddd], and gives the summary [SUMMARY] of any other
    text. *)
Definition summary_server (_ : list Request) (r : Request) : option Response :=
  match r with
  | ReqSummarize t =>
      if String.eqb t "bb" then Some (mkResponse true (BodySummary "b"))
      else if String.eqb t "ccc" then Some (mkResponse false (BodySummary "c"))
      else if String.eqb t "dddd" then None
      else Some (mkResponse true (BodySummary "SUMMARY"))
  | _ => Some (mkResponse true BodyNone)
  end.

(** ** Files and the data bank *)

(** A file attachment: [{ url, name, size }]. *)
Record FileAttachment := mkFile {
  file_url : string;
  file_name : string;
  file_size : Z;
}.

(** The fields of [settings] that the file functions read. *)
Module file_settings.
Record t := mk {
  translate_files : bool;
  size_threshold : Z;
  chunk_size : Z;
  chunk_count : Z;
  size_threshold_db : Z;
  chunk_size_db : Z;
}.
End file_settings.

(** What the file functions use besides [Collab]: their settings, the
    [translate] function of the window when there is one, the download of
    an attachment, and the attachments of the data bank that are not
    disabled, all of them or those of one source. *)
Record Files := mkFiles {
  fcfg : file_settings.t;
  translate : option (string -> Completion string);
  getFileAttachment : string -> Completion string;
  getDataBankAttachments : list FileAttachment;
  getDataBankAttachmentsForSource : string -> list FileAttachment;
}.

(** The text of an integer in a template literal. *)
Definition number_to_string (n : Z) : string :=
  NilEmpty.string_of_int (Z.to_int n).

Section FileFunctions.
Variable E : Collab.
Variable F : Files.

(** [getFileCollectionId(fileUrl)] *)
Definition getFileCollectionId (fileUrl : string) : string :=
  ("file_" ++ number_to_string (getStringHash E fileUrl))%string.

(** [chunks.map((chunk, index) => ({ hash, text, index }))] of
    [vectorizeFile] (line 484), from the index [index] on. *)
Fixpoint items_of_chunks (chunks : list string) (index : Z) : list Item :=
  match chunks with
  | [] => []
  | chunk :: rest =>
      mkItem chunk (getStringHash E chunk) index
        :: items_of_chunks rest (index + 1)
  end.

(** [vectorizeFile(fileText, fileName, collectionId, chunkSize)]; its
    notifications are not recorded. *)
Definition vectorizeFile (fileText fileName collectionId : string)
    (chunkSize : Z) (w : World) : bool * World :=
  match
    (fileText <-
       (match file_settings.translate_files (fcfg F), translate F with
        | true, Some translator => fun w' => (translator fileText, w')
        | _, _ => ret fileText
        end) ;;
     insertVectorItems E collectionId
       (items_of_chunks (splitRecursive E fileText chunkSize) 0)) w
  with
  | (Normal _, w') => (true, w')
  | (Throw _, w') => (false, w')
  end.

(** [retrieveFileChunks(queryText, collectionId)] *)
Definition retrieveFileChunks (queryText collectionId : string) : M string :=
  queryResults <- queryCollection E collectionId queryText
                    (file_settings.chunk_count (fcfg F)) ;;
  match metadata queryResults with
  | None => throw None
  | Some entries =>
      ret (JS.join JS.LF
             (filter_onlyUnique String.eqb
                (map text
                   (JS.sort (fun a b => index a - index b)
                      (filter (fun x => JS.truthy (text x)) entries)))))
  end.

(** The loop of [ingestDataBankAttachments] (lines 395 to 413). *)
Fixpoint ingestLoop (dataBank : list FileAttachment)
    (dataBankCollectionIds : list string) : M (list string) :=
  match dataBank with
  | [] => ret dataBankCollectionIds
  | file :: rest =>
      let collectionId := getFileCollectionId (file_url file) in
      hashesInCollection <- getSavedHashes E collectionId ;;
      let dataBankCollectionIds := dataBankCollectionIds ++ [collectionId] in
      if negb (List.length hashesInCollection =? 0)%nat
      then ingestLoop rest dataBankCollectionIds
      else
        fileText <- (fun w => (getFileAttachment F (file_url file), w)) ;;
        let thresholdLength :=
          file_settings.size_threshold_db (fcfg F) * 1024 in
        let chunkSize :=
          if file_size file >? thresholdLength
          then file_settings.chunk_size_db (fcfg F) else -1 in
        (fun w => (Normal tt,
                   snd (vectorizeFile fileText (file_name file) collectionId
                          chunkSize w))) ;;;
        ingestLoop rest dataBankCollectionIds
  end.

(** [ingestDataBankAttachments(source)] *)
Definition ingestDataBankAttachments (source : string) : M (list string) :=
  ingestLoop
    (if JS.truthy source then getDataBankAttachmentsForSource F source
     else getDataBankAttachments F)
    [].

(** [purgeFileVectorIndex(fileUrl)] *)
Definition purgeFileVectorIndex (fileUrl : string) (w : World) : World :=
  if negb (settings.enabled_files (cfg w)) then w
  else snd (fetch E (ReqPurge (getFileCollectionId fileUrl)) w).

(** The loop and the notification of [onPurgeFilesClick] (lines 1050 to
    1054), for the files [allFiles]. *)
Definition purgeFiles (allFiles : list FileAttachment) (w : World) : World :=
  log_toast "Purge successful" "All files purged"
    (fold_left (fun w' file => purgeFileVectorIndex (file_url file) w')
               allFiles w).

(** [onPurgeClick()] *)
Definition onPurgeClick (w : World) : World :=
  match chat_selected (currentChatId w) with
  | None => log_toast "Purge aborted" "No chat selected" w
  | Some chatId =>
      let (purged, w') := purgeVectorIndex E chatId w in
      if purged then log_toast "Purge successful" "Vector index purged" w'
      else log_toast "Purge failed" "Failed to purge vector index" w'
  end.

End FileFunctions.

Module FileCases.

(** No translation, a threshold of 5 KB and chunks of 6 characters for
    the data bank, and the attachments [dataBank]. *)
Definition files (dataBank : list FileAttachment) : Files :=
  mkFiles (file_settings.mk false 10 5000 2 5 6) None
          (fun url => Normal ("text of " ++ url)%string) dataBank
          (fun _ => []).

(** A server whose collections all hold the hash 7 already. *)
Definition full_server (_ : list Request) (r : Request) : option Response :=
  match r with
  | ReqList _ _ => Some (mkResponse true (BodyHashes [7]))
  | _ => Some (mkResponse true BodyNone)
  end.

(** A server that answers a query with the chunks [c] and [a] of a file
    stored as [a], [b], [c], the later chunk first. *)
Definition chunk_server (_ : list Request) (r : Request) : option Response :=
  match r with
  | ReqQuery _ _ _ _ _ =>
      Some (mkResponse true
              (BodyQuery (mkQueryResult [1; 1]
                            (Some [mkItem "cc" 2 2; mkItem "a" 1 0]))))
  | _ => Some (mkResponse true BodyNone)
  end.

End FileCases.

(** A server whose collections all hold something already. *)
Definition stocked (E : Collab) : Prop :=
  forall history collectionId source, exists h hs,
    server E history (ReqList collectionId source)
    = Some (mkResponse true (BodyHashes (h :: hs))).

(** ** Model lists of the text generation APIs *)

(** A model of a list sent by the server; a field may be missing. *)
Record Model := mkModel {
  model_id : option string;
  model_name : option string;
  model_display_type : option string;
}.

(** An [option] element as it is created: value, text and selection. *)
Record OptionElement := mkOption {
  option_value : string;
  option_text : string;
  option_selected : bool;
}.

(** The tokenizers named by [getCurrentDreamGenModelTokenizer] and
    [getCurrentOpenRouterModelTokenizer]. *)
Inductive tokenizers := LLAMA | LLAMA3 | YI | MISTRAL | OPENAI_TOKENIZER.

(** The settings, the lists and the select elements that the functions
    below read and write. *)
Module textgen.
Record t := mk {
  ollama_model : string;
  dreamgen_model : string;
  dreamGenModels : list Model;
  ollama_options : list OptionElement;
  dreamgen_options : list OptionElement;
}.
End textgen.

(** The string that a DOM property takes from a value that may be
    [undefined]. *)
Definition dom_string (v : option string) : string :=
  match v with
  | Some s => s
  | None => "undefined"
  end.

(** [v === s] for a value [v] that may be [undefined]. *)
Definition is_string (v : option string) (s : string) : bool :=
  match v with
  | Some s' => String.eqb s' s
  | None => false
  end.

(** [data[0]?.id || ''] *)
Definition first_id (data : list Model) : string :=
  match data with
  | m :: _ =>
      match model_id m with
      | Some id => if JS.truthy id then id else ""
      | None => ""
      end
  | [] => ""
  end.

(** The setting after the line
    [if (!data.find(x => x.id === setting)) setting = data[0]?.id || '']. *)
Definition keep_or_first (data : list Model) (setting : string) : string :=
  match find (fun x => is_string (model_id x) setting) data with
  | Some _ => setting
  | None => first_id data
  end.

(** [loadOllamaModels(data)]; [None] is a value that is not an array. *)
Definition loadOllamaModels (data : option (list Model)) (s : textgen.t)
  : textgen.t :=
  match data with
  | None => s
  | Some data =>
      let selected := keep_or_first data (textgen.ollama_model s) in
      textgen.mk selected (textgen.dreamgen_model s) (textgen.dreamGenModels s)
        (map (fun model =>
                mkOption (dom_string (model_id model))
                         (dom_string (model_name model))
                         (is_string (model_id model) selected))
             data)
        (textgen.dreamgen_options s)
  end.

(** [loadDreamGenModels(data)] *)
Definition loadDreamGenModels (data : option (list Model)) (s : textgen.t)
  : textgen.t :=
  match data with
  | None => s
  | Some data =>
      let selected := keep_or_first data (textgen.dreamgen_model s) in
      textgen.mk (textgen.ollama_model s) selected data
        (textgen.ollama_options s)
        (map (fun model =>
                mkOption (dom_string (model_id model))
                         (dom_string (model_id model))
                         (is_string (model_id model) selected))
             (filter (fun model =>
                        negb (is_string (model_display_type model) "image"))
                     data))
  end.

(** [getCurrentDreamGenModelTokenizer()]; reading [id] of a model that was
    not found, or calling [startsWith] on a missing [id], throws. *)
Definition getCurrentDreamGenModelTokenizer (s : textgen.t)
  : Completion tokenizers :=
  match find (fun x => is_string (model_id x) (textgen.dreamgen_model s))
             (textgen.dreamGenModels s) with
  | None => Throw None
  | Some model =>
      match model_id model with
      | None => Throw None
      | Some id =>
          if String.prefix "opus-v1-sm" id then Normal MISTRAL
          else if String.prefix "opus-v1-lg" id then Normal YI
          else if String.prefix "opus-v1-xl" id then Normal LLAMA
          else Normal MISTRAL
      end
  end.

(** ** World info *)

(** An entry of [getSortedEntries]: the fields read here. *)
Record WIEntry := mkEntry {
  entry_world : string;
  entry_disable : bool;
  entry_content : string;
  entry_vectorized : bool;
  entry_uid : Z;
}.

(** What [activateWorldInfo] uses besides [Collab]: the answer of
    [getSortedEntries] ([None] when it is not an array) and two fields of
    [settings]. *)
Record WorldInfo := mkWorldInfo {
  getSortedEntries : Completion (option (list WIEntry));
  enabled_for_all : bool;
  max_entries : Z;
}.

(** The object [groupedEntries]: its own properties in the order of
    their creation, and the array that became its prototype when an entry
    named its world [__proto__] (an assignment to that name sets the
    prototype and creates no property). *)
Record Grouped := mkGrouped {
  own : list (string * list WIEntry);
  proto : option (list WIEntry);
}.

(** The value of a key that is an array index: a canonical decimal
    numeral below [2^32 - 1]. *)
Definition array_index (key : string) : option Z :=
  match NilZero.uint_of_string key with
  | Some d =>
      let n := Z.of_uint d in
      if String.eqb (number_to_string n) key && (n <=? 4294967294)
      then Some n else None
  | None => None
  end.

Definition index_value (key : string) : Z :=
  match array_index key with
  | Some n => n
  | None => 0
  end.

Definition is_index (key : string) : bool :=
  match array_index key with
  | Some _ => true
  | None => false
  end.

(** The own keys of an object in the order of [for ... in] and
    [Object.keys]: the array indexes in ascending order, then the other
    names in the order of their creation. *)
Definition own_keys (A : Type) (properties : list (string * A)) : list string :=
  JS.sort (fun a b => index_value a - index_value b)
          (filter is_index (map fst properties))
  ++ filter (fun key => negb (is_index key)) (map fst properties).

Fixpoint get_own (A : Type) (properties : list (string * A)) (key : string)
  : option A :=
  match properties with
  | [] => None
  | (k, v) :: rest => if String.eqb k key then Some v else get_own rest key
  end.

Fixpoint push_own (properties : list (string * list WIEntry)) (key : string)
    (entry : WIEntry) : list (string * list WIEntry) :=
  match properties with
  | [] => [(key, [entry])]
  | (k, v) :: rest =>
      if String.eqb k key then (k, v ++ [entry]) :: rest
      else (k, v) :: push_own rest key entry
  end.

Section WorldInfoFunctions.
Variable E : Collab.
Variable W : WorldInfo.

(** Is the entry kept by the four tests of lines 1079 to 1100? *)
Definition kept (entry : WIEntry) : bool :=
  JS.truthy (entry_world entry)
  && negb (entry_disable entry)
  && JS.truthy (entry_content entry)
  && (entry_vectorized entry || enabled_for_all W).

(** One turn of the grouping loop (lines 1077 to 1107). *)
Definition group_entry (grouped : Grouped) (entry : WIEntry) : Grouped :=
  if negb (kept entry) then grouped
  else if String.eqb (entry_world entry) "__proto__"
  then mkGrouped (own grouped) (Some [entry])
  else mkGrouped (push_own (own grouped) (entry_world entry) entry)
                 (proto grouped).

Definition groupEntries (entries : list WIEntry) : Grouped :=
  fold_left group_entry entries (mkGrouped [] None).

(** The names that [for (const world in groupedEntries)] goes through:
    the own keys, then the index [0] of a prototype array that no own key
    hides. *)
Definition enumerated (grouped : Grouped) : list string :=
  own_keys (own grouped)
  ++ match proto grouped, get_own (own grouped) "0" with
     | Some (_ :: _), None => ["0"]
     | _, _ => []
     end.

Definition entry_item (entry : WIEntry) : Item :=
  mkItem (entry_content entry) (getStringHash E (entry_content entry))
         (entry_uid entry).

(** The synchronisation loop (lines 1117 to 1134).  For a name taken from
    the prototype, [groupedEntries[world]] is an entry, not an array, and
    the call of [filter] on it throws. *)
Fixpoint syncWorlds (grouped : Grouped) (worlds : list string)
    (collectionIds : list string) : M (list string) :=
  match worlds with
  | [] => ret collectionIds
  | world :: rest =>
      let collectionId :=
        ("world_" ++ number_to_string (getStringHash E world))%string in
      hashesInCollection <- getSavedHashes E collectionId ;;
      match get_own (own grouped) world with
      | None => throw None
      | Some entries =>
          let newEntries :=
            filter (fun x => negb (JS.includes Z.eqb hashesInCollection
                                     (getStringHash E (entry_content x))))
                   entries in
          let deleted :=
            filter (fun x => negb (existsb
                                     (fun y => Z.eqb (getStringHash E
                                                        (entry_content y)) x)
                                     entries))
                   hashesInCollection in
          (if Z.of_nat (List.length newEntries) >? 0
           then insertVectorItems E collectionId (map entry_item newEntries)
           else ret tt) ;;;
          (if Z.of_nat (List.length deleted) >? 0
           then deleteVectorItems E collectionId deleted
           else ret tt) ;;;
          syncWorlds grouped rest (collectionIds ++ [collectionId])
      end
  end.

(** [activateWorldInfo(chat)].  The value is the list of entries emitted
    with [WORLDINFO_FORCE_ACTIVATE], empty when nothing is emitted. *)
Definition activateWorldInfo_run (chat : list message) : M (list WIEntry) :=
  w <- get ;;
  if negb (settings.enabled_world_info (cfg w)) then ret []
  else
    sorted <- (fun w' => (getSortedEntries W, w')) ;;
    match sorted with
    | None => ret []
    | Some [] => ret []
    | Some entries =>
        let grouped := groupEntries entries in
        if (List.length (own_keys (own grouped)) =? 0)%nat then ret []
        else
          collectionIds <- syncWorlds grouped (enumerated grouped) [] ;;
          queryText <- getQueryText E chat ;;
          if (String.length queryText =? 0)%nat then ret []
          else
            queryResults <- queryMultipleCollections E collectionIds queryText
                              (max_entries W)
                              (settings.score_threshold (cfg w)) ;;
            let activatedHashes :=
              filter_onlyUnique Z.eqb
                (flat_map (fun x => hashes (snd x)) queryResults) in
            ret (filter (fun entry =>
                           JS.includes Z.eqb activatedHashes
                             (getStringHash E (entry_content entry)))
                        entries)
    end.

End WorldInfoFunctions.

(** *** Requests of a step *)

(** Every request that the step [m] sends satisfies [P]: the step only
    adds requests to the log, and the ones it adds satisfy [P]. *)
Definition sends (A : Type) (P : Request -> Prop) (m : M A) : Prop :=
  forall w c w', m w = (c, w') ->
    exists new, requests w' = requests w ++ new /\ Forall P new.

(** A request that reads the store or asks for a summary. *)
Definition reads_only (r : Request) : Prop :=
  match r with
  | ReqQuery _ _ _ _ _ | ReqQueryMulti _ _ _ _ _ | ReqSummarize _ => True
  | _ => False
  end.

(** The collection of a world. *)
Definition world_collection (E : Collab) (world : string) : string :=
  ("world_" ++ number_to_string (getStringHash E world))%string.

(** A request that [activateWorldInfo] may send for the entries [all]: an
    insertion holds items of entries that are kept, in the collection of
    their world; nothing is purged and no single collection is queried. *)
Definition world_info_request (E : Collab) (W : WorldInfo) (all : list WIEntry)
    (r : Request) : Prop :=
  match r with
  | ReqInsert collectionId items _ =>
      forall item, In item items ->
        exists entry,
          In entry all /\ kept W entry = true /\
          item = entry_item E entry /\
          collectionId = world_collection E (entry_world entry)
  | ReqPurge _ | ReqQuery _ _ _ _ _ => False
  | _ => True
  end.

(** The groups hold entries of [all] that are kept, each under the name
    of its world. *)
Definition groups_of (W : WorldInfo) (all : list WIEntry) (g : Grouped) : Prop :=
  forall key entries, In (key, entries) (own g) ->
    forall entry, In entry entries ->
      In entry all /\ kept W entry = true /\ entry_world entry = key.

Module WorldCases.

(** Two enabled entries of the world [lore], and a disabled entry with
    the text of the first. *)
Definition entries : list WIEntry :=
  [mkEntry "lore" false "dragon" true 1;
   mkEntry "lore" false "sea" true 2;
   mkEntry "old" true "dragon" true 3].

Definition world_info : WorldInfo :=
  mkWorldInfo (Normal (Some entries)) false 5.

(** A server whose world collections are empty and whose query finds the
    hash 6. *)
Definition lore_server (_ : list Request) (r : Request) : option Response :=
  match r with
  | ReqList _ _ => Some (mkResponse true (BodyHashes []))
  | ReqQueryMulti _ _ _ _ _ =>
      Some (mkResponse true
              (BodyMulti [("world_4", mkQueryResult [6] None)]))
  | _ => Some (mkResponse true BodyNone)
  end.

Definition settings_on : settings.t :=
  settings.mk "transformers" false "" false false "main" "" true
              "Past events: {{text}}" 2 0 2 3 2 400 (1 # 4) false 5
              "Related information: {{text}}" 0 4 0 true.

Definition world (chat : list message) : World :=
  mkWorld settings_on false false (Some "chat-1") chat
          (fun _ => true) (fun _ => "") [] [] [] [].

(** An enabled entry of the world [__proto__] beside one of [lore]. *)
Definition proto_entries : list WIEntry :=
  [mkEntry "lore" false "dragon" true 1;
   mkEntry "__proto__" false "sea" true 2].

(** Entries that are all disabled or without a text. *)
Definition idle_entries : list WIEntry :=
  [mkEntry "lore" true "dragon" true 1;
   mkEntry "lore" false "" true 2].

End WorldCases.

(** Every value that the step [m] returns satisfies [Q]. *)
Definition returns (A : Type) (Q : A -> Prop) (m : M A) : Prop :=
  forall w a w', m w = (Normal a, w') -> Q a.

(** A request that [synchronizeChat] may send for the chat [chatId]: a
    listing, an insertion or a deletion in the collection of that chat, or
    a request for a summary. *)
Definition sync_request (chatId : string) (r : Request) : Prop :=
  match r with
  | ReqList collectionId _ | ReqInsert collectionId _ _
  | ReqDelete collectionId _ _ => collectionId = chatId
  | ReqSummarize _ => True
  | _ => False
  end.

(** * Properties *)

(** ** Lists *)

Lemma filter_Subseq (A : Type) (p : A -> bool) (l : list A) :
  Subseq (filter p l) l.
Proof.
  induction l as [|x l IH]; simpl.
  - constructor.
  - destruct (p x); now constructor.
Qed.

Lemma includes_In (l : list Z) (x : Z) :
  JS.includes Z.eqb l x = true <-> In x l.
Proof.
  unfold JS.includes. rewrite existsb_exists. split.
  - intros [y [Hy He]]. apply Z.eqb_eq in He. now subst.
  - intros H. exists x. split; [assumption | apply Z.eqb_refl].
Qed.

Lemma some_hash_In (items : list Item) (h : Z) :
  existsb (fun y => Z.eqb (hash y) h) items = true <->
  exists y, In y items /\ hash y = h.
Proof.
  rewrite existsb_exists. split; intros [y [Hy He]]; exists y; split; auto.
  - now apply Z.eqb_eq.
  - now apply Z.eqb_eq.
Qed.

(** ** Collection differ *)

(** The two filters of lines 254 and 255: [toInsert] is exactly the local
    items whose hash is not among the remote hashes, in local order;
    [toDelete] is exactly the remote hashes that no local item carries, in
    remote order; a local item whose hash is already remote is in neither.
    Each element is decided on its own: around any local item (any remote
    hash) the delta is the delta of what precedes it, the element if it
    qualifies, and the delta of what follows it. *)
Lemma delta_filters (localItems : list Item) (remoteHashes : list Z) :
  let toInsert := newVectorItems localItems remoteHashes in
  let toDelete := deletedHashes localItems remoteHashes in
  (forall x, In x toInsert <-> In x localItems /\ ~ In (hash x) remoteHashes) /\
  Subseq toInsert localItems /\
  (forall before x after, localItems = before ++ x :: after ->
     toInsert
     = newVectorItems before remoteHashes
       ++ (if JS.includes Z.eqb remoteHashes (hash x) then [] else [x])
       ++ newVectorItems after remoteHashes) /\
  (forall h, In h toDelete <->
             In h remoteHashes /\ ~ exists y, In y localItems /\ hash y = h) /\
  Subseq toDelete remoteHashes /\
  (forall before h after, remoteHashes = before ++ h :: after ->
     toDelete
     = deletedHashes localItems before
       ++ (if existsb (fun y => Z.eqb (hash y) h) localItems then [] else [h])
       ++ deletedHashes localItems after) /\
  (forall x, In x localItems -> In (hash x) remoteHashes ->
             ~ In x toInsert /\ ~ In (hash x) toDelete).
Proof.
  intros toInsert toDelete.
  assert (Hins : forall x, In x toInsert <->
                           In x localItems /\ ~ In (hash x) remoteHashes).
  { intro x. unfold toInsert, newVectorItems. rewrite filter_In.
    rewrite negb_true_iff, <- not_true_iff_false, includes_In. tauto. }
  assert (Hdel : forall h, In h toDelete <->
             In h remoteHashes /\ ~ exists y, In y localItems /\ hash y = h).
  { intro h. unfold toDelete, deletedHashes. rewrite filter_In.
    rewrite negb_true_iff, <- not_true_iff_false, some_hash_In. tauto. }
  split; [exact Hins|]. split; [apply filter_Subseq|].
  split.
  { intros before x after ->. unfold toInsert, newVectorItems.
    rewrite filter_app. cbn [filter].
    now destruct (JS.includes Z.eqb remoteHashes (hash x)). }
  split; [exact Hdel|]. split; [apply filter_Subseq|].
  split.
  { intros before h after ->. unfold toDelete, deletedHashes.
    rewrite filter_app. cbn [filter].
    now destruct (existsb (fun y => Z.eqb (hash y) h) localItems). }
  intros x Hx Hr. split.
  - intros H. apply Hins in H. tauto.
  - intros H. apply Hdel in H. destruct H as [_ Hn]. apply Hn.
    exists x. auto.
Qed.

(** The worked example of the specification: local hashes 1 and 2 against
    remote hashes 2 and 3. *)
Example delta_example :
  newVectorItems [mkItem "a" 1 0; mkItem "b" 2 1] [2; 3] = [mkItem "a" 1 0] /\
  deletedHashes [mkItem "a" 1 0; mkItem "b" 2 1] [2; 3] = [3].
Proof. split; reflexivity. Qed.

(** The cache of [getStringHash] does not change what it returns. *)
Lemma getStringHash_cached_sound (E : Collab) (cache : list (string * Z))
    (str : string) :
  cache_sound E cache ->
  fst (getStringHash_cached E cache str) = getStringHash E str /\
  cache_sound E (snd (getStringHash_cached E cache str)).
Proof.
  intros Hsound. unfold getStringHash_cached, getStringHash.
  destruct (cache_get cache str) as [h|] eqn:Hget; cbn [fst snd].
  - split; [now apply Hsound|exact Hsound].
  - split; [reflexivity|]. intros k v. cbn [cache_get].
    destruct (String.eqb_spec str k) as [->|_]; [now intros [= <-]|].
    apply Hsound.
Qed.

(** ** Synchroniser *)

(** C1.  The delta that [synchronizeChat] computes (lines 247 to 255) and
    applies.  A call that takes the guard with a chat selected works with
    the delta of [computeDelta]: it applies it and ends as that ends.
    Without summaries, for every chat and every answer [remoteHashes] of
    the list request, [computeDelta] returns the delta of the hashed chat
    against [remoteHashes].  And whenever [computeDelta] returns a delta
    [(toInsert, toDelete)], there are local items (the hashed chat, or
    what [summarize] made of it) and remote hashes (the answer of the
    list request) of which [toInsert] is exactly the local items whose
    hash is not remote, in local order, and [toDelete] exactly the remote
    hashes that no local item carries, in remote order, each element
    being decided on its own; a local item whose hash is remote is in
    neither. *)
Theorem synchronizeChat_delta (E : Collab) (batchSize : Z) (chatId : string)
    (w : World) :
  (forall toInsert toDelete w1,
     settings.enabled_chats (cfg w) = true ->
     syncBlocked w = false ->
     is_send_press w = false ->
     chat_selected (currentChatId w) = Some chatId ->
     computeDelta E chatId (set_syncBlocked true w)
     = (Normal (toInsert, toDelete), w1) ->
     synchronizeChat E batchSize w
     = finish_sync (applyDelta E batchSize chatId toInsert toDelete w1)) /\
  (forall remoteHashes w0,
     settings.summarize (cfg w) = false ->
     getSavedHashes E chatId w = (Normal remoteHashes, w0) ->
     computeDelta E chatId w
     = (Normal (newVectorItems (hashedMessagesOf E (chat w)) remoteHashes,
                deletedHashes (hashedMessagesOf E (chat w)) remoteHashes),
        w0)) /\
  (forall toInsert toDelete w1,
     computeDelta E chatId w = (Normal (toInsert, toDelete), w1) ->
     exists localItems remoteHashes w0,
       getSavedHashes E chatId w = (Normal remoteHashes, w0) /\
       (if settings.summarize (cfg w)
        then summarize E (hashedMessagesOf E (chat w))
               (settings.summary_source (cfg w)) w0
             = (Normal (Some localItems), w1)
        else localItems = hashedMessagesOf E (chat w) /\ w1 = w0) /\
       (forall x, In x toInsert <->
                  In x localItems /\ ~ In (hash x) remoteHashes) /\
       Subseq toInsert localItems /\
       (forall before x after, localItems = before ++ x :: after ->
          toInsert
          = newVectorItems before remoteHashes
            ++ (if JS.includes Z.eqb remoteHashes (hash x) then [] else [x])
            ++ newVectorItems after remoteHashes) /\
       (forall h, In h toDelete <->
                  In h remoteHashes /\
                  ~ exists y, In y localItems /\ hash y = h) /\
       Subseq toDelete remoteHashes /\
       (forall before h after, remoteHashes = before ++ h :: after ->
          toDelete
          = deletedHashes localItems before
            ++ (if existsb (fun y => Z.eqb (hash y) h) localItems
                then [] else [h])
            ++ deletedHashes localItems after) /\
       (forall x, In x localItems -> In (hash x) remoteHashes ->
                  ~ In x toInsert /\ ~ In (hash x) toDelete)).
Proof.
  split; [|split].
  - intros toInsert toDelete w1 He Hb Hs Hc Hd.
    unfold synchronizeChat, waitUntilCondition. rewrite He, Hb, Hs. simpl.
    unfold synchronizeChat_try, bind, modify, get. simpl.
    rewrite Hc. unfold bind. rewrite Hd. simpl.
    now destruct (applyDelta E batchSize chatId toInsert toDelete w1)
      as [[r|cause] w2].
  - intros remoteHashes w0 Hsum Hlist.
    unfold computeDelta, bind, get, ret. now rewrite Hlist, Hsum.
  - intros toInsert toDelete w1. unfold computeDelta, bind, get, ret.
    destruct (getSavedHashes E chatId w) as [[hs|cause] w0]; [|discriminate].
    destruct (settings.summarize (cfg w)).
    + destruct (summarize E (hashedMessagesOf E (chat w))
                  (settings.summary_source (cfg w)) w0)
        as [[r|cause] w0'] eqn:Hsum; [|discriminate].
      unfold array_of, ret, throw. destruct r as [hm|]; [|discriminate].
      intros [= <- <- <-]. exists hm, hs, w0.
      split; [reflexivity|]. split; [exact Hsum|]. apply delta_filters.
    + intros [= <- <- <-]. exists (hashedMessagesOf E (chat w)), hs, w0.
      split; [reflexivity|]. split; [now split|]. apply delta_filters.
Qed.

(** The four messages against a store that holds the hashes 1 and 9: the
    messages of hashes 2, 3 and 4 are to insert, the hash 9 to delete. *)
Lemma synchronizeChat_delta_witness :
  let E := Sample.collab Cases.stale_server in
  let w := Sample.world "transformers" false false Sample.four_messages in
  computeDelta E "chat-1" w
  = (Normal ([mkItem "bb" 2 1; mkItem "ccc" 3 2; mkItem "dddd" 4 3], [9]),
     log_request (ReqList "chat-1" "transformers") w).
Proof.
  intros E w.
  exact (proj1 (proj2 (synchronizeChat_delta E 5 "chat-1" w)) [1; 9]
           (log_request (ReqList "chat-1" "transformers") w)
           eq_refl eq_refl).
Defined.

Lemma applyDelta_result (E : Collab) (batchSize : Z) (chatId : string)
    (newItems : list Item) (deleted : list Z) (w w' : World) (r : Z) :
  applyDelta E batchSize chatId newItems deleted w = (Normal r, w') ->
  r = Z.of_nat (List.length newItems) - batchSize.
Proof.
  unfold applyDelta, bind, get, ret.
  destruct (Z.of_nat (List.length newItems) >? 0).
  - destruct (insertVectorItems E chatId _ w) as [[[]|c] w1]; [|discriminate].
    destruct (Z.of_nat (List.length deleted) >? 0).
    + destruct (deleteVectorItems E chatId deleted w1) as [[[]|c] w2];
        [|discriminate].
      now intros [= <- _].
    + now intros [= <- _].
  - destruct (Z.of_nat (List.length deleted) >? 0).
    + destruct (deleteVectorItems E chatId deleted w) as [[[]|c] w2];
        [|discriminate].
      now intros [= <- _].
    + now intros [= <- _].
Qed.

(** C2.  A call of [synchronizeChat] that gets through (chat vectors
    enabled, guard free, a chat selected, no step throwing) returns the
    number of new items minus the batch size, which may be negative; and
    the loop of [onVectorizeAllClick] stops after a call that returned a
    value at most 0, and goes on after one that returned more. *)
Theorem synchronizeChat_remaining (E : Collab) :
  (forall (batchSize : Z) (w : World) (chatId : string)
          (toInsert : list Item) (toDelete : list Z) (w1 w2 : World) (r : Z),
     settings.enabled_chats (cfg w) = true ->
     syncBlocked w = false ->
     is_send_press w = false ->
     chat_selected (currentChatId w) = Some chatId ->
     computeDelta E chatId (set_syncBlocked true w)
       = (Normal (toInsert, toDelete), w1) ->
     applyDelta E batchSize chatId toInsert toDelete w1 = (Normal r, w2) ->
     synchronizeChat E batchSize w
       = (Z.of_nat (List.length toInsert) - batchSize,
          set_syncBlocked false w2)) /\
  (forall (fuel : nat) (chatId : string) (w : World),
     is_send_press w = false ->
     fst (synchronizeChat E 5 w) <= 0 ->
     vectorizeAll_loop E (S fuel) chatId w
       = (if same_chat chatId (currentChatId (snd (synchronizeChat E 5 w)))
          then Finished else ChatChanged,
          snd (synchronizeChat E 5 w))) /\
  (forall (fuel : nat) (chatId : string) (w : World),
     is_send_press w = false ->
     0 < fst (synchronizeChat E 5 w) ->
     same_chat chatId (currentChatId (snd (synchronizeChat E 5 w))) = true ->
     vectorizeAll_loop E (S fuel) chatId w
       = vectorizeAll_loop E fuel chatId (snd (synchronizeChat E 5 w))).
Proof.
  split; [|split].
  - intros batchSize w chatId toInsert toDelete w1 w2 r He Hb Hs Hc Hd Ha.
    unfold synchronizeChat, waitUntilCondition. rewrite He, Hb, Hs. simpl.
    unfold synchronizeChat_try, bind, modify, get. simpl.
    rewrite Hc. unfold bind. rewrite Hd. simpl. rewrite Ha.
    now rewrite (applyDelta_result _ _ _ _ _ _ Ha).
  - intros fuel chatId w Hs Hr. simpl. rewrite Hs.
    destruct (synchronizeChat E 5 w) as [remaining w1]. simpl in *.
    destruct (same_chat chatId (currentChatId w1)); simpl; [|reflexivity].
    apply Z.leb_le in Hr. now rewrite Hr.
  - intros fuel chatId w Hs Hr Hc. simpl. rewrite Hs.
    destruct (synchronizeChat E 5 w) as [remaining w1]. simpl in *.
    rewrite Hc. simpl.
    apply Z.leb_gt in Hr. now rewrite Hr.
Qed.

(** Four new messages and a batch of five: the call returns [-1] after
    one list request and one insert request. *)
Lemma synchronizeChat_remaining_witness :
  let E := Sample.collab Sample.empty_server in
  let w := Sample.world "transformers" false false Sample.four_messages in
  fst (synchronizeChat E 5 w) = 4 - 5 /\
  requests (snd (synchronizeChat E 5 w))
  = [ReqList "chat-1" "transformers";
     ReqInsert "chat-1" (hashedMessagesOf E Sample.four_messages)
               "transformers"].
Proof.
  intros E w.
  erewrite (proj1 (synchronizeChat_remaining E) 5 w "chat-1").
  2-7: (cbv; reflexivity).
  split; reflexivity.
Defined.

(** ** Remote vector client *)

Lemma throwIfSourceInvalid_missing (w : World) :
  throwIfSourceInvalid w
  = (match missing_requirement w with
     | Some cause => Throw (Some cause)
     | None => Normal tt
     end, w).
Proof.
  unfold throwIfSourceInvalid, missing_requirement, key_of_source,
    url_of_source, source_is.
  destruct (String.eqb_spec (settings.source (cfg w)) "openai") as [->|_];
    [simpl; now destruct (secret_state w OPENAI)|].
  destruct (String.eqb_spec (settings.source (cfg w)) "palm") as [->|_];
    [simpl; now destruct (secret_state w MAKERSUITE)|].
  destruct (String.eqb_spec (settings.source (cfg w)) "mistral") as [->|_];
    [simpl; now destruct (secret_state w MISTRALAI)|].
  destruct (String.eqb_spec (settings.source (cfg w)) "togetherai") as [->|_];
    [simpl; now destruct (secret_state w TOGETHERAI)|].
  destruct (String.eqb_spec (settings.source (cfg w)) "nomicai") as [->|_];
    [simpl; now destruct (secret_state w NOMICAI)|].
  destruct (String.eqb_spec (settings.source (cfg w)) "cohere") as [->|_];
    [simpl; now destruct (secret_state w COHERE)|].
  destruct (String.eqb_spec (settings.source (cfg w)) "ollama") as [->|_];
    [simpl; destruct (JS.truthy (server_urls w OLLAMA)); simpl;
     [now destruct (JS.truthy (settings.ollama_model (cfg w)))|reflexivity]|].
  destruct (String.eqb_spec (settings.source (cfg w)) "llamacpp") as [->|_];
    [simpl; now destruct (JS.truthy (server_urls w LLAMACPP))|].
  simpl.
  destruct (String.eqb (settings.source (cfg w)) "extras"); simpl;
    [now destruct (JS.includes String.eqb (modules w) "embeddings")|reflexivity].
Qed.

(** C3, as the code has it.  Of the operations of the client,
    [insertVectorItems] is the one that checks the source: when the source
    lacks its key, URL, model or module, the insertion fails with the
    matching cause and nothing is sent.  The list, delete and purge
    operations send their request without that check. *)
Theorem insert_fails_fast (E : Collab) (collectionId : string) (w : World) :
  (forall (items : list Item) (cause : Cause),
     missing_requirement w = Some cause ->
     insertVectorItems E collectionId items w = (Throw (Some cause), w)) /\
  (forall items : list Item,
     missing_requirement w = None ->
     requests (snd (insertVectorItems E collectionId items w))
     = requests w
       ++ [ReqInsert collectionId items (settings.source (cfg w))]) /\
  requests (snd (getSavedHashes E collectionId w))
  = requests w ++ [ReqList collectionId (settings.source (cfg w))] /\
  (forall hs : list Z,
     requests (snd (deleteVectorItems E collectionId hs w))
     = requests w ++ [ReqDelete collectionId hs (settings.source (cfg w))]) /\
  (settings.enabled_chats (cfg w) = true ->
   requests (snd (purgeVectorIndex E collectionId w))
   = requests w ++ [ReqPurge collectionId]).
Proof.
  split; [|split; [|split; [|split]]].
  - intros items cause H. unfold insertVectorItems, bind.
    now rewrite throwIfSourceInvalid_missing, H.
  - intros items H. unfold insertVectorItems, bind, get, fetch.
    rewrite throwIfSourceInvalid_missing, H.
    destruct (server E (requests w) _) as [response|]; [|reflexivity].
    now destruct (ok response).
  - unfold getSavedHashes, bind, get, fetch.
    destruct (server E (requests w) _) as [response|]; [|reflexivity].
    destruct (ok response); [|reflexivity]. now destruct (body response).
  - intros hs. unfold deleteVectorItems, bind, get, fetch.
    destruct (server E (requests w) _) as [response|]; [|reflexivity].
    now destruct (ok response).
  - intros He. unfold purgeVectorIndex, fetch. rewrite He. simpl.
    now destruct (server E (requests w) _).
Qed.

(** With [openai] as source and no key stored, an insertion fails with
    [api_key_missing] and sends nothing. *)
Lemma insert_fails_fast_witness :
  insertVectorItems (Sample.collab Sample.empty_server) "chat-1"
    [mkItem "a" 1 0] (Sample.world "openai" false false [])
  = (Throw (Some api_key_missing), Sample.world "openai" false false []).
Proof.
  apply (proj1 (insert_fails_fast (Sample.collab Sample.empty_server)
                  "chat-1" (Sample.world "openai" false false []))).
  reflexivity.
Defined.

(** C3, as stated, fails on the list operation: with [openai] as source
    and no key stored, [getSavedHashes] sends its request and returns the
    hashes the server answers. *)
Lemma list_sends_without_key :
  missing_requirement (Sample.world "openai" false false [])
  = Some api_key_missing /\
  getSavedHashes (Sample.collab Sample.half_server) "chat-1"
    (Sample.world "openai" false false [])
  = (Normal [1; 2],
     log_request (ReqList "chat-1" "openai")
       (Sample.world "openai" false false [])).
Proof. split; reflexivity. Qed.

(** The query operation does not check the source either. *)
Lemma query_sends_without_key :
  requests (snd (queryCollection (Sample.collab Sample.empty_server) "chat-1"
                   "hello" 3 (Sample.world "openai" false false [])))
  = [ReqQuery "chat-1" "hello" 3 "openai" (1 # 4)].
Proof. reflexivity. Qed.

(** ** Re-entrancy guard *)

Lemma turned_away (E : Collab) (batchSize : Z) (w : World) :
  syncBlocked w = true \/ is_send_press w = true ->
  synchronizeChat E batchSize w = (-1, w).
Proof.
  intros H. unfold synchronizeChat, waitUntilCondition.
  destruct (settings.enabled_chats (cfg w)); [simpl|reflexivity].
  destruct H as [-> | ->]; [reflexivity|].
  now rewrite andb_false_r.
Qed.

(** C4, as the code has it.  A call made while the guard is held or
    generation is in progress returns [-1] and leaves the world as it
    was: no list, insert or delete request is sent.  The value [-1] is
    not kept for that case.  The other early exits return it too: chat
    vectors disabled (line 227), no chat selected (line 244), an
    exception in the [try] block (line 296).  So does a call that goes
    through and finds one new item less than the batch size.  And the
    loop of [onVectorizeAllClick] takes [-1] as it takes any value that
    is at most 0: it stops. *)
Theorem synchronizeChat_blocked (E : Collab) (batchSize : Z) (w : World) :
  (syncBlocked w = true \/ is_send_press w = true ->
   synchronizeChat E batchSize w = (-1, w) /\
   requests (snd (synchronizeChat E batchSize w)) = requests w) /\
  (settings.enabled_chats (cfg w) = false ->
   synchronizeChat E batchSize w = (-1, w)) /\
  (settings.enabled_chats (cfg w) = true ->
   syncBlocked w = false ->
   is_send_press w = false ->
   chat_selected (currentChatId w) = None ->
   fst (synchronizeChat E batchSize w) = -1 /\
   requests (snd (synchronizeChat E batchSize w)) = requests w) /\
  (forall cause w2,
     settings.enabled_chats (cfg w) = true ->
     syncBlocked w = false ->
     is_send_press w = false ->
     synchronizeChat_try E batchSize w = (Throw cause, w2) ->
     fst (synchronizeChat E batchSize w) = -1) /\
  (forall chatId toInsert toDelete w1 r w2,
     settings.enabled_chats (cfg w) = true ->
     syncBlocked w = false ->
     is_send_press w = false ->
     chat_selected (currentChatId w) = Some chatId ->
     computeDelta E chatId (set_syncBlocked true w)
     = (Normal (toInsert, toDelete), w1) ->
     applyDelta E batchSize chatId toInsert toDelete w1 = (Normal r, w2) ->
     Z.of_nat (List.length toInsert) = batchSize - 1 ->
     fst (synchronizeChat E batchSize w) = -1) /\
  (forall fuel chatId,
     is_send_press w = false ->
     fst (synchronizeChat E 5 w) = -1 ->
     vectorizeAll_loop E (S fuel) chatId w
     = (if same_chat chatId (currentChatId (snd (synchronizeChat E 5 w)))
        then Finished else ChatChanged,
        snd (synchronizeChat E 5 w))).
Proof.
  split; [|split; [|split; [|split; [|split]]]].
  - intros H. now rewrite turned_away.
  - intros He. unfold synchronizeChat. now rewrite He.
  - intros He Hb Hs Hc. unfold synchronizeChat, waitUntilCondition.
    rewrite He, Hb, Hs. simpl.
    unfold synchronizeChat_try, bind, modify, get. simpl.
    rewrite Hc. split; reflexivity.
  - intros cause w2 He Hb Hs Htry. unfold synchronizeChat, waitUntilCondition.
    rewrite He, Hb, Hs. simpl. now rewrite Htry.
  - intros chatId toInsert toDelete w1 r w2 He Hb Hs Hc Hd Ha Hlen.
    unfold synchronizeChat, waitUntilCondition. rewrite He, Hb, Hs. simpl.
    unfold synchronizeChat_try, bind, modify, get. simpl.
    rewrite Hc. unfold bind. rewrite Hd. simpl. rewrite Ha. simpl.
    rewrite (applyDelta_result _ _ _ _ _ _ Ha). lia.
  - intros fuel chatId Hs Hr. simpl. rewrite Hs.
    destruct (synchronizeChat E 5 w) as [remaining w1]. simpl in *.
    subst remaining.
    now destruct (same_chat chatId (currentChatId w1)).
Qed.

(** A call made while the guard is held; and, with the guard free, a
    call without a selected chat. *)
Lemma synchronizeChat_blocked_witness :
  synchronizeChat (Sample.collab Sample.empty_server) 5
    (Sample.world "transformers" true false Sample.four_messages)
  = (-1, Sample.world "transformers" true false Sample.four_messages) /\
  fst (synchronizeChat (Sample.collab Sample.empty_server) 5
         (mkWorld (Sample.config "transformers") false false None
            Sample.four_messages (fun _ => false) (fun _ => "")
            [] [] [] []))
  = -1.
Proof.
  split.
  - apply (proj1 (synchronizeChat_blocked (Sample.collab Sample.empty_server)
                    5
                    (Sample.world "transformers" true false
                       Sample.four_messages))).
    left. reflexivity.
  - apply (proj1 (proj2 (proj2 (synchronizeChat_blocked
                                  (Sample.collab Sample.empty_server) 5
                                  (mkWorld (Sample.config "transformers")
                                     false false None Sample.four_messages
                                     (fun _ => false) (fun _ => "")
                                     [] [] [] []))))); reflexivity.
Defined.

(** C4, as stated, fails: the value [-1] of a blocked call is also the
    value of a call that went through and found four new items for a batch
    of five (it sent a list and an insert request and reported no
    error). *)
Lemma blocked_value_not_distinct :
  let E := Sample.collab Sample.empty_server in
  let blocked := Sample.world "transformers" true false Sample.four_messages in
  let free := Sample.world "transformers" false false Sample.four_messages in
  fst (synchronizeChat E 5 blocked) = fst (synchronizeChat E 5 free) /\
  requests (snd (synchronizeChat E 5 blocked)) = [] /\
  requests (snd (synchronizeChat E 5 free))
  = [ReqList "chat-1" "transformers";
     ReqInsert "chat-1" (hashedMessagesOf E Sample.four_messages)
               "transformers"] /\
  toasts (snd (synchronizeChat E 5 free)) = [].
Proof. repeat split; reflexivity. Qed.

(** C8, as the code has it.  A call that takes the guard releases it on
    every way out of its [try] block (a value returned, no chat selected,
    an exception); a call that does not take it, because chat vectors are
    disabled or the wait was rejected, leaves the world, and so the flag,
    as it found them.  Hence a call that starts with the guard free ends
    with the guard free. *)
Theorem guard_released (E : Collab) (batchSize : Z) (w : World) :
  (settings.enabled_chats (cfg w) = true ->
   syncBlocked w = false ->
   is_send_press w = false ->
   syncBlocked (snd (synchronizeChat E batchSize w)) = false) /\
  (settings.enabled_chats (cfg w) = false \/ syncBlocked w = true
   \/ is_send_press w = true ->
   snd (synchronizeChat E batchSize w) = w) /\
  (syncBlocked w = false ->
   syncBlocked (snd (synchronizeChat E batchSize w)) = false).
Proof.
  assert (Hrel : settings.enabled_chats (cfg w) = true ->
                 syncBlocked w = false -> is_send_press w = false ->
                 syncBlocked (snd (synchronizeChat E batchSize w)) = false).
  { intros He Hb Hs. unfold synchronizeChat, waitUntilCondition.
    rewrite He, Hb, Hs. simpl.
    destruct (synchronizeChat_try E batchSize w) as [[r|cause] w2];
      reflexivity. }
  assert (Hkeep : settings.enabled_chats (cfg w) = false
                  \/ syncBlocked w = true \/ is_send_press w = true ->
                  snd (synchronizeChat E batchSize w) = w).
  { intros [He|Hb].
    - unfold synchronizeChat. now rewrite He.
    - now rewrite turned_away. }
  split; [exact Hrel|]. split; [exact Hkeep|].
  intros Hb.
  destruct (settings.enabled_chats (cfg w)) eqn:He;
    [|rewrite Hkeep; auto].
  destruct (is_send_press w) eqn:Hs; [rewrite Hkeep; auto|].
  now apply Hrel.
Qed.

(** A call that fails in the middle (the server does not answer the list
    request) still ends with the guard free. *)
Lemma guard_released_witness :
  syncBlocked
    (snd (synchronizeChat (Sample.collab (fun _ _ => None)) 5
            (Sample.world "transformers" false false Sample.four_messages)))
  = false /\
  toasts
    (snd (synchronizeChat (Sample.collab (fun _ _ => None)) 5
            (Sample.world "transformers" false false Sample.four_messages)))
  = [("Vectorization failed", "Check server console for more details")].
Proof.
  split.
  - apply (proj1 (guard_released (Sample.collab (fun _ _ => None)) 5
                    (Sample.world "transformers" false false
                       Sample.four_messages))); reflexivity.
  - reflexivity.
Defined.

(** C8, as stated, fails: a call that is turned away because another call
    holds the guard completes with the flag still set. *)
Lemma guard_held_after_blocked_call :
  syncBlocked
    (snd (synchronizeChat (Sample.collab Sample.empty_server) 5
            (Sample.world "transformers" true false Sample.four_messages)))
  = true.
Proof. reflexivity. Qed.

(** ** Chunker *)







Lemma append_empty (s : string) : (s ++ "")%string = s.
Proof. induction s as [|c s IH]; simpl; [reflexivity|now rewrite IH]. Qed.

Lemma concat_cons (piece : string) (pieces : list string) :
  String.concat "" (piece :: pieces)
  = (piece ++ String.concat "" pieces)%string.
Proof.
  destruct pieces as [|p ps]; simpl; [now rewrite append_empty|reflexivity].
Qed.







Lemma In_firstn (A : Type) (n : nat) (l : list A) (x : A) :
  In x (firstn n l) -> In x l.
Proof.
  revert l. induction n as [|n IH]; intros [|y l]; simpl; try tauto.
  intros [H|H]; auto.
Qed.

Lemma In_skipn (A : Type) (n : nat) (l : list A) (x : A) :
  In x (skipn n l) -> In x l.
Proof.
  revert l. induction n as [|n IH]; intros [|y l]; simpl; try tauto.
  intros H. right. now apply IH.
Qed.

Lemma In_slice (A : Type) (start stop : Z) (l : list A) (x : A) :
  In x (JS.slice start stop l) -> In x l.
Proof.
  unfold JS.slice. intros H. apply In_firstn in H. now apply In_skipn in H.
Qed.

Lemma map_const_repeat (A B : Type) (b : B) (l : list A) :
  map (fun _ => b) l = repeat b (List.length l).
Proof. induction l as [|x l IH]; simpl; [reflexivity|now rewrite IH]. Qed.

Lemma splitByChunks_keys (E : Collab) (s : settings.t) (items : list Item) :
  map (fun c => (hash c, index c)) (splitByChunks E s items)
  = flat_map (fun item => repeat (hash item, index item) (chunk_count E s item))
             items.
Proof.
  unfold splitByChunks, chunk_count.
  destruct (settings.message_chunk_size s <=? 0).
  - induction items as [|item items IH]; simpl; [reflexivity|].
    now rewrite IH.
  - induction items as [|item items IH]; simpl; [reflexivity|].
    rewrite map_app, IH, map_map. simpl. now rewrite map_const_repeat.
Qed.

Lemma splitByChunks_source (E : Collab) (s : settings.t) (items : list Item)
    (c : Item) :
  In c (splitByChunks E s items) ->
  exists item, In item items /\ hash c = hash item /\ index c = index item.
Proof.
  unfold splitByChunks.
  destruct (settings.message_chunk_size s <=? 0).
  - intros H. now exists c.
  - intros H. apply in_flat_map in H. destruct H as [item [Hitem Hc]].
    apply in_map_iff in Hc. destruct Hc as [piece [<- _]].
    now exists item.
Qed.

(** C10.  [splitByChunks] goes through the items in their order, and each
    chunk has the hash and the index of the item it was cut from: the
    hash-index pairs of the result are those of the items, each repeated
    once per chunk.  The batch that [synchronizeChat] inserts is made this
    way from new items, so its chunks carry the hashes of their
    messages. *)
Theorem splitByChunks_keeps_hash (E : Collab) (s : settings.t)
    (items : list Item) :
  map (fun c => (hash c, index c)) (splitByChunks E s items)
  = flat_map (fun item => repeat (hash item, index item) (chunk_count E s item))
             items /\
  (forall c, In c (splitByChunks E s items) ->
     exists item, In item items /\ hash c = hash item /\ index c = index item) /\
  (forall (batchSize : Z) (chatId : string) (deleted : list Z) (w : World),
     cfg w = s -> items <> [] -> missing_requirement w = None ->
     exists rest,
       requests (snd (applyDelta E batchSize chatId items deleted w))
       = requests w
         ++ ReqInsert chatId (splitByChunks E s (JS.slice 0 batchSize items))
              (settings.source s) :: rest /\
       forall c, In c (splitByChunks E s (JS.slice 0 batchSize items)) ->
         exists item,
           In item items /\ hash c = hash item /\ index c = index item).
Proof.
  split; [apply splitByChunks_keys|].
  split; [apply splitByChunks_source|].
  intros batchSize chatId deleted w <- Hne Hvalid.
  assert (Hbatch : forall c,
            In c (splitByChunks E (cfg w) (JS.slice 0 batchSize items)) ->
            exists item,
              In item items /\ hash c = hash item /\ index c = index item).
  { intros c Hc. apply splitByChunks_source in Hc.
    destruct Hc as [item [Hitem Hk]]. exists item. split; [|exact Hk].
    now apply In_slice in Hitem. }
  unfold applyDelta, bind, get.
  destruct items as [|item items]; [congruence|].
  change (Z.of_nat (List.length (item :: items)) >? 0)
    with (Z.pos (Pos.of_succ_nat (List.length items)) >? 0).
  cbn [Z.gtb Z.compare].
  unfold insertVectorItems, bind, get, fetch.
  rewrite throwIfSourceInvalid_missing, Hvalid.
  set (batch := splitByChunks E (cfg w) (JS.slice 0 batchSize (item :: items))).
  fold batch in Hbatch.
  destruct (server E (requests w) _) as [response|];
    [|exists []; split; [reflexivity|exact Hbatch]].
  destruct (ok response); cbn [negb];
    [|exists []; split; [reflexivity|exact Hbatch]].
  unfold ret.
  destruct (Z.of_nat (List.length deleted) >? 0).
  - unfold deleteVectorItems, bind, get, fetch. cbn [log_request requests cfg].
    destruct (server E _ (ReqDelete _ _ _)) as [response2|].
    + exists [ReqDelete chatId deleted (settings.source (cfg w))].
      split; [|exact Hbatch].
      destruct (ok response2); cbn; now rewrite <- app_assoc.
    + exists [ReqDelete chatId deleted (settings.source (cfg w))].
      split; [|exact Hbatch]. cbn. now rewrite <- app_assoc.
  - exists []. split; [reflexivity|exact Hbatch].
Qed.

(** Two messages, the second cut in two: both chunks of the second carry
    its hash and its index. *)
Lemma splitByChunks_keeps_hash_witness :
  let E := Sample.collab Sample.empty_server in
  let s := settings.mk "transformers" false "" false false "main" "" true ""
                       2 0 2 3 2 6 (1 # 4) false 5 "" 0 4 0 false in
  let w := mkWorld s false false (Some "chat-1") [] (fun _ => false)
                   (fun _ => "") [] [] [] [] in
  let items := [mkItem "hi" 2 0; mkItem "hello world" 11 1] in
  exists rest,
    requests (snd (applyDelta E 5 "chat-1" items [] w))
    = ReqInsert "chat-1"
        [mkItem "hi" 2 0; mkItem "hello " 11 1; mkItem "world" 11 1]
        "transformers" :: rest.
Proof.
  intros E s w items.
  destruct (proj2 (proj2 (splitByChunks_keeps_hash E s items))
              5 "chat-1" [] w eq_refl) as [rest [Hreq _]].
  - discriminate.
  - reflexivity.
  - exists rest. exact Hreq.
Defined.

(** ** Sorting and deduplication *)

Section SortByKey.
Variable A : Type.
Variable key : A -> Z.
Variable cmp : A -> A -> Z.
Hypothesis cmp_key : forall a b, cmp a b = key a - key b.

Lemma sort_insert_perm (x : A) (l : list A) :
  Permutation (JS.sort_insert cmp x l) (x :: l).
Proof.
  induction l as [|y l IH]; simpl; [reflexivity|].
  destruct (cmp y x <=? 0); [|reflexivity].
  rewrite IH. apply perm_swap.
Qed.

Lemma sort_perm (l : list A) : Permutation (JS.sort cmp l) l.
Proof.
  unfold JS.sort.
  assert (H : forall acc, Permutation
                  (fold_left (fun acc x => JS.sort_insert cmp x acc) l acc)
                  (acc ++ l)).
  { induction l as [|x l IH]; intros acc; simpl.
    - now rewrite app_nil_r.
    - rewrite IH, sort_insert_perm. apply Permutation_middle. }
  apply (H []).
Qed.

Lemma sort_insert_sorted (x : A) (l : list A) :
  StronglySorted (fun a b => key a <= key b) l ->
  StronglySorted (fun a b => key a <= key b) (JS.sort_insert cmp x l).
Proof.
  induction l as [|y l IH]; intros Hs; simpl.
  - repeat constructor.
  - inversion Hs as [|? ? Hl Hy]; subst. rewrite cmp_key.
    destruct (Z.leb_spec (key y - key x) 0) as [Hle|Hgt].
    + constructor; [now apply IH|].
      eapply Permutation_Forall;
        [symmetry; apply sort_insert_perm|].
      constructor; [lia|exact Hy].
    + constructor; [exact Hs|].
      constructor; [lia|].
      eapply Forall_impl; [|exact Hy]. simpl. intros a Ha. lia.
Qed.

Lemma sort_sorted (l : list A) :
  StronglySorted (fun a b => key a <= key b) (JS.sort cmp l).
Proof.
  unfold JS.sort.
  assert (H : forall acc,
            StronglySorted (fun a b => key a <= key b) acc ->
            StronglySorted (fun a b => key a <= key b)
              (fold_left (fun acc x => JS.sort_insert cmp x acc) l acc)).
  { induction l as [|x l IH]; intros acc Hacc; simpl; [exact Hacc|].
    apply IH. now apply sort_insert_sorted. }
  apply H. constructor.
Qed.
End SortByKey.

Section OnlyUnique.
Variable A : Type.
Variable eqb : A -> A -> bool.
Hypothesis eqb_eq : forall a b, eqb a b = true <-> a = b.

Lemma indexOf_first (pre rest : list A) (x : A) :
  JS.indexOf eqb (pre ++ x :: rest) x = Z.of_nat (List.length pre)
  <-> ~ In x pre.
Proof.
  induction pre as [|y pre IH]; simpl.
  - assert (H : eqb x x = true) by now apply eqb_eq.
    rewrite H. tauto.
  - destruct (eqb y x) eqn:Hyx.
    + apply eqb_eq in Hyx. subst. split; [lia|tauto].
    + assert (Hne : y <> x).
      { intro Heq. apply eqb_eq in Heq. congruence. }
      destruct (Z.ltb_spec (JS.indexOf eqb (pre ++ x :: rest) x) 0).
      * split; [lia|]. intros Hn. exfalso.
        assert (~ In x pre) by tauto. apply IH in H0. lia.
      * split.
        -- intros Hi.
           assert (Hi' : JS.indexOf eqb (pre ++ x :: rest) x
                         = Z.of_nat (List.length pre)) by lia.
           apply IH in Hi'. tauto.
        -- intros Hn. assert (Hp : ~ In x pre) by tauto.
           apply IH in Hp. lia.
Qed.

Lemma onlyUnique_from_spec (rest pre : list A) :
  let kept := onlyUnique_from eqb (pre ++ rest)
                (Z.of_nat (List.length pre)) rest in
  NoDup kept /\
  (forall x, In x kept <-> In x rest /\ ~ In x pre).
Proof.
  revert pre. induction rest as [|x rest IH]; intros pre; simpl.
  - split; [constructor|]. tauto.
  - specialize (IH (pre ++ [x])).
    rewrite <- app_assoc, length_app in IH. simpl in IH.
    replace (Z.of_nat (List.length pre + 1)) with (Z.of_nat (List.length pre) + 1)
      in IH by lia.
    destruct IH as [Hnd Hin].
    destruct (Z.eqb_spec (JS.indexOf eqb (pre ++ x :: rest) x)
                (Z.of_nat (List.length pre))) as [Hfirst|Hlater].
    + apply indexOf_first in Hfirst. split.
      * constructor; [|exact Hnd]. intros Hx. apply Hin in Hx.
        destruct Hx as [_ Hx]. apply Hx. apply in_or_app. right. now left.
      * intros y. simpl. rewrite Hin, in_app_iff. simpl.
        split.
        -- intros [<-|[Hy Hn]]; [tauto|]. tauto.
        -- intros [[<-|Hy] Hn]; [tauto|].
           destruct (eqb x y) eqn:Hxy.
           ++ apply eqb_eq in Hxy. tauto.
           ++ right. split; [exact Hy|]. intros [Hp|[Heq|[]]]; [tauto|].
              apply eqb_eq in Heq. congruence.
    + rewrite indexOf_first in Hlater. split; [exact Hnd|].
      intros y. rewrite Hin, in_app_iff. simpl. split.
      * intros [Hy Hn]. tauto.
      * intros [[<-|Hy] Hn].
        -- exfalso. apply Hlater. exact Hn.
        -- split; [exact Hy|]. intros [Hp|[Heq|[]]]; [tauto|].
           subst. apply Hlater. exact Hn.
Qed.

Lemma filter_onlyUnique_NoDup (arr : list A) :
  NoDup (filter_onlyUnique eqb arr).
Proof. apply (onlyUnique_from_spec arr []). Qed.

Lemma filter_onlyUnique_In (arr : list A) (x : A) :
  In x (filter_onlyUnique eqb arr) <-> In x arr.
Proof.
  unfold filter_onlyUnique.
  rewrite (proj2 (onlyUnique_from_spec arr []) x). simpl. tauto.
Qed.
End OnlyUnique.

(** ** Data bank injection *)

Lemma append_assoc (a b c : string) :
  ((a ++ b) ++ c)%string = (a ++ (b ++ c))%string.
Proof. induction a as [|x a IH]; simpl; [reflexivity|now rewrite IH]. Qed.

Lemma append_eq_empty (a b : string) :
  (a ++ b)%string = "" -> a = "" /\ b = "".
Proof. destruct a; simpl; [auto|discriminate]. Qed.

Lemma truthy_nonempty (s : string) : s <> "" -> JS.truthy s = true.
Proof.
  intros H. unfold JS.truthy. destruct (String.eqb_spec s ""); [tauto|reflexivity].
Qed.

Lemma dataBankText_blocks (queryResults : list (string * QueryResult)) :
  dataBankText queryResults
  = String.concat "" (map (fun entry => collectionBlock (snd entry))
                          queryResults).
Proof.
  unfold dataBankText.
  assert (H : forall init,
            fold_left
              (fun textResult entry =>
                 (textResult ++ JS.join JS.LF (collectionTexts (snd entry))
                    ++ JS.LF ++ JS.LF)%string) queryResults init
            = (init ++ String.concat ""
                        (map (fun entry => collectionBlock (snd entry))
                             queryResults))%string).
  { induction queryResults as [|entry rest IH]; intros init.
    - simpl. now rewrite append_empty.
    - cbn [fold_left map]. rewrite IH, concat_cons, append_assoc.
      reflexivity. }
  apply (H "").
Qed.

Lemma dataBankText_nonempty (queryResults : list (string * QueryResult)) :
  queryResults <> [] -> dataBankText queryResults <> "".
Proof.
  destruct queryResults as [|entry rest]; [congruence|]. intros _ H.
  rewrite dataBankText_blocks in H. cbn [map] in H.
  rewrite concat_cons in H. apply append_eq_empty in H. destruct H as [H _].
  unfold collectionBlock in H. apply append_eq_empty in H.
  destruct H as [_ H]. discriminate.
Qed.

(** C7, as the code has it.  The text injected for the data bank is the
    template with, in place of its placeholder, the blocks of the
    collections in the order of the result; the block of a collection is
    its non-empty texts in ascending order of index, each text once,
    one per line, followed by a blank line.  Texts are deduplicated inside
    a collection, not across collections. *)
Theorem dataBank_injected_text (E : Collab) (queryText : string)
    (collectionIds : list string) (w w1 : World)
    (queryResults : list (string * QueryResult)) :
  queryMultipleCollections E collectionIds queryText
    (settings.chunk_count_db (cfg w)) (settings.score_threshold (cfg w)) w
  = (Normal queryResults, w1) ->
  queryResults <> [] ->
  injectDataBankChunks E queryText collectionIds w
  = log_prompt
      (mkPrompt EXTENSION_PROMPT_TAG_DB
         (substituteParams E
            (JS.replace_ci "{{text}}" (settings.file_template_db (cfg w))
               (dataBankText queryResults)))
         (settings.file_position_db (cfg w)) (settings.file_depth_db (cfg w))
         (settings.include_wi (cfg w))
         (Some (settings.file_depth_role_db (cfg w)))) w1 /\
  dataBankText queryResults
  = String.concat "" (map (fun entry => collectionBlock (snd entry))
                          queryResults) /\
  forall id result, In (id, result) queryResults ->
    NoDup (collectionTexts result) /\
    match metadata result with
    | None => collectionTexts result = []
    | Some entries =>
        exists sorted,
          Permutation sorted (filter (fun x => JS.truthy (text x)) entries) /\
          StronglySorted (fun a b => index a <= index b) sorted /\
          collectionTexts result
          = filter_onlyUnique String.eqb (map text sorted) /\
          forall t, In t (collectionTexts result) <->
                    exists x, In x entries /\ text x = t /\ t <> ""
    end.
Proof.
  intros Hq Hne. split; [|split].
  - unfold injectDataBankChunks, bind. rewrite Hq.
    rewrite (truthy_nonempty (dataBankText_nonempty Hne)). reflexivity.
  - apply dataBankText_blocks.
  - intros id result _. split.
    + unfold collectionTexts. destruct (metadata result).
      * apply filter_onlyUnique_NoDup. apply String.eqb_eq.
      * constructor.
    + unfold collectionTexts. destruct (metadata result) as [entries|];
        [|reflexivity].
      set (cmp := fun a b : Item => index a - index b).
      exists (JS.sort cmp (filter (fun x => JS.truthy (text x)) entries)).
      split; [apply sort_perm|].
      split; [apply (sort_sorted index cmp); reflexivity|].
      split; [reflexivity|].
      intros t. rewrite (filter_onlyUnique_In _ String.eqb_eq), in_map_iff.
      split.
      * intros [x [Ht Hx]].
        apply (Permutation_in _ (sort_perm cmp _)) in Hx.
        apply filter_In in Hx. destruct Hx as [Hx Htruthy].
        exists x. repeat split; auto. subst t. intros Hempty.
        rewrite Hempty in Htruthy. discriminate.
      * intros [x [Hx [Ht Hnonempty]]]. exists x. split; [exact Ht|].
        apply (Permutation_in _ (Permutation_sym (sort_perm cmp _))).
        apply filter_In. split; [exact Hx|].
        rewrite Ht. now apply truthy_nonempty.
Qed.

(** Two files, the second holding two texts: three lines are injected,
    in two blocks. *)
Lemma dataBank_injected_text_witness :
  prompts
    (injectDataBankChunks (Sample.collab Sample.two_files_server) "query"
       ["file_1"; "file_2"] (Sample.world "transformers" false false []))
  = [mkPrompt EXTENSION_PROMPT_TAG_DB
       ("Related information: " ++ "A" ++ JS.LF ++ JS.LF
          ++ "A" ++ JS.LF ++ "B" ++ JS.LF ++ JS.LF)%string 0 4 false (Some 0)].
Proof.
  rewrite (proj1 (@dataBank_injected_text
                    (Sample.collab Sample.two_files_server) "query"
                    ["file_1"; "file_2"]
                    (Sample.world "transformers" false false [])
                    (log_request
                       (ReqQueryMulti ["file_1"; "file_2"] "query" 5
                          "transformers" (1 # 4))
                       (Sample.world "transformers" false false []))
                    Sample.two_files eq_refl
                    ltac:(discriminate))).
  reflexivity.
Defined.

(** C7, as stated, fails: the text [A] is held by two collections and is
    injected twice, once in the block of each. *)
Lemma same_text_in_two_collections :
  flat_map (fun entry => collectionTexts (snd entry)) Sample.two_files
  = ["A"; "A"; "B"] /\
  dataBankText Sample.two_files
  = ("A" ++ JS.LF ++ JS.LF ++ "A" ++ JS.LF ++ "B" ++ JS.LF ++ JS.LF)%string /\
  ~ NoDup (flat_map (fun entry => collectionTexts (snd entry))
             Sample.two_files).
Proof.
  split; [reflexivity|]. split; [reflexivity|].
  intros H. inversion H as [|x l Hx _]; subst. apply Hx. now left.
Qed.

(** ** Retrieval: the protected messages *)

Lemma Subseq_refl (A : Type) (l : list A) : Subseq l l.
Proof. induction l; now constructor. Qed.

Lemma Subseq_trans (A : Type) (a b c : list A) :
  Subseq a b -> Subseq b c -> Subseq a c.
Proof.
  intros Hab Hbc. revert a Hab.
  induction Hbc as [|x s l Hsl IH|x s l Hsl IH]; intros a Hab.
  - exact Hab.
  - constructor. now apply IH.
  - inversion Hab; subst.
    + apply Subseq_skip. now apply IH.
    + apply Subseq_keep. now apply IH.
Qed.

Lemma Subseq_app_tail (A : Type) (s l t : list A) :
  Subseq s l -> Subseq (s ++ t) (l ++ t).
Proof.
  induction 1; simpl.
  - apply Subseq_refl.
  - now apply Subseq_skip.
  - now apply Subseq_keep.
Qed.

Lemma Subseq_remove (A : Type) (k : nat) (l : list A) :
  Subseq (firstn k l ++ skipn (S k) l) l.
Proof.
  revert l. induction k as [|k IH]; intros [|x l].
  - apply Subseq_nil.
  - apply Subseq_skip. apply Subseq_refl.
  - apply Subseq_nil.
  - change (Subseq (x :: (firstn k l ++ skipn (S k) l)) (x :: l)).
    apply Subseq_keep. apply IH.
Qed.

Lemma same_message_true (a b : message) :
  same_message a b = true <-> msg_ref a = msg_ref b.
Proof. unfold same_message. apply Nat.eqb_eq. Qed.

Lemma indexOf_found (pre tail : list message) (m : message) :
  (exists y, In y pre /\ same_message y m = true) ->
  0 <= JS.indexOf same_message (pre ++ tail) m < Z.of_nat (List.length pre).
Proof.
  induction pre as [|y pre IH]; intros [z [Hz Hm]]; [destruct Hz|].
  cbn [app JS.indexOf List.length].
  destruct (same_message y m) eqn:Hy; [lia|].
  destruct Hz as [->|Hz]; [congruence|].
  assert (H : exists y, In y pre /\ same_message y m = true) by eauto.
  apply IH in H.
  destruct (Z.ltb_spec (JS.indexOf same_message (pre ++ tail) m) 0); lia.
Qed.

Lemma splice1_in_pre (A : Type) (pre tail : list A) (k : Z) :
  0 <= k < Z.of_nat (List.length pre) ->
  JS.splice1 k (pre ++ tail)
  = (firstn (Z.to_nat k) pre ++ skipn (S (Z.to_nat k)) pre) ++ tail.
Proof.
  intros Hk. unfold JS.splice1, JS.clamp.
  destruct (Z.ltb_spec k 0); [lia|].
  rewrite length_app.
  replace (Z.to_nat (Z.min k (Z.of_nat (List.length pre + List.length tail))))
    with (Z.to_nat k) by lia.
  rewrite firstn_app, skipn_app.
  replace (Z.to_nat k - List.length pre)%nat with O by lia.
  replace (S (Z.to_nat k) - List.length pre)%nat with O by lia.
  simpl. now rewrite app_nil_r, app_assoc.
Qed.

Lemma removeQueried_keeps_tail (queried tail : list message) :
  (forall q t, In q queried -> In t tail -> same_message q t = false) ->
  forall (steps i : nat) (pre : list message),
  exists pre',
    removeQueried steps queried i (pre ++ tail) = pre' ++ tail /\
    Subseq pre' pre.
Proof.
  intros Hfree. induction steps as [|steps IH]; intros i pre.
  - exists pre. split; [reflexivity|apply Subseq_refl].
  - cbn [removeQueried].
    destruct (nth_error (pre ++ tail) i) as [message|] eqn:Hnth;
      [|exists pre; split; [reflexivity|apply Subseq_refl]].
    destruct (JS.includes same_message queried message) eqn:Hinc;
      [|apply IH].
    unfold JS.includes in Hinc. apply existsb_exists in Hinc.
    destruct Hinc as [q [Hq Hsame]]. apply same_message_true in Hsame.
    assert (Hpre : In message pre).
    { apply nth_error_In in Hnth. apply in_app_or in Hnth.
      destruct Hnth as [Hin|Hin]; [exact Hin|].
      specialize (Hfree q message Hq Hin).
      unfold same_message in Hfree. rewrite <- Hsame, Nat.eqb_refl in Hfree.
      discriminate. }
    assert (Hidx : 0 <= JS.indexOf same_message (pre ++ tail) message
                   < Z.of_nat (List.length pre)).
    { apply indexOf_found. exists message. split; [exact Hpre|].
      now apply same_message_true. }
    rewrite (splice1_in_pre _ _ Hidx).
    destruct (IH (S i)
                (firstn (Z.to_nat (JS.indexOf same_message (pre ++ tail) message))
                        pre
                 ++ skipn (S (Z.to_nat
                                (JS.indexOf same_message (pre ++ tail) message)))
                          pre))
      as [pre' [Heq Hsub]].
    exists pre'. split; [exact Heq|].
    eapply Subseq_trans; [exact Hsub|apply Subseq_remove].
Qed.

Lemma length_splice1 (A : Type) (k : Z) (l : list A) :
  (List.length (JS.splice1 k l) <= List.length l)%nat.
Proof.
  unfold JS.splice1. rewrite length_app, length_firstn, length_skipn. lia.
Qed.

(** The bound on the steps of the removal loop is never what ends it. *)
Lemma removeQueried_enough (queried : list message) (steps : nat) :
  forall (i : nat) (chat : list message) (extra : nat),
    (List.length chat <= i + steps)%nat ->
    removeQueried (steps + extra) queried i chat
    = removeQueried steps queried i chat.
Proof.
  induction steps as [|steps IH]; intros i chat extra Hlen.
  - assert (Hnone : nth_error chat i = None)
      by (apply nth_error_None; lia).
    destruct extra; cbn [Nat.add removeQueried]; [reflexivity|].
    now rewrite Hnone.
  - cbn [Nat.add removeQueried].
    destruct (nth_error chat i) as [message|]; [|reflexivity].
    apply IH.
    destruct (JS.includes same_message queried message); [|lia].
    pose proof (length_splice1 (JS.indexOf same_message chat message) chat).
    lia.
Qed.

Lemma lastn_app_tail (A : Type) (a t : list A) :
  lastn (List.length t) (a ++ t) = t.
Proof.
  unfold lastn. rewrite length_app.
  replace (List.length a + List.length t - List.length t)%nat
    with (List.length a + 0)%nat by lia.
  rewrite skipn_app. rewrite Nat.add_0_r, skipn_all, Nat.sub_diag. reflexivity.
Qed.

Lemma lastn_0 (A : Type) (l : list A) : lastn 0 l = [].
Proof. unfold lastn. rewrite Nat.sub_0_r. apply skipn_all. Qed.

Lemma collectQueried_spec (E : Collab) (queryHashes : list Z)
    (retain : list message) :
  forall (messages acc : list message) (inserted : list Z),
  exists added,
    collectQueried E queryHashes retain messages acc inserted = acc ++ added /\
    Subseq added messages /\
    (forall m, In m added ->
       eligible E queryHashes retain m = true /\
       ~ In (messageHash E m) inserted) /\
    NoDup (map (messageHash E) added) /\
    (forall m, In m messages -> eligible E queryHashes retain m = true ->
       In (messageHash E m) inserted \/
       In (messageHash E m) (map (messageHash E) added)).
Proof.
  induction messages as [|message rest IH]; intros acc inserted.
  - exists []. rewrite app_nil_r.
    split; [reflexivity|]. split; [apply Subseq_nil|].
    split; [intros m []|]. split; [apply NoDup_nil|intros m []].
  - cbn [collectQueried]. fold (messageHash E message).
    unfold eligible in *.
    destruct (JS.includes same_message retain message) eqn:Hret;
      [|destruct (JS.truthy (mes message)) eqn:Htruthy]; cbn [orb negb].
    + destruct (IH acc inserted) as [added [Heq [Hsub [Hel [Hnd Hall]]]]].
      exists added. repeat split; auto; try apply Hel; auto.
      * now apply Subseq_skip.
      * intros m [<-|Hm] Hm'; [|now apply Hall].
        rewrite Hret in Hm'. discriminate.
    + destruct (JS.includes Z.eqb queryHashes (messageHash E message)) eqn:Hqh;
        [destruct (JS.includes Z.eqb inserted (messageHash E message)) eqn:Hins|];
        cbn [andb negb].
      * destruct (IH acc inserted) as [added [Heq [Hsub [Hel [Hnd Hall]]]]].
        exists added. repeat split; auto; try apply Hel; auto.
        -- now apply Subseq_skip.
        -- intros m [<-|Hm] Hm'; [|now apply Hall].
           left. now apply includes_In.
      * destruct (IH (acc ++ [message]) (messageHash E message :: inserted))
          as [added [Heq [Hsub [Hel [Hnd Hall]]]]].
        exists (message :: added). rewrite Heq, <- app_assoc.
        split; [reflexivity|]. split; [now apply Subseq_keep|].
        split; [|split].
        -- intros m [<-|Hm].
           ++ rewrite Hret, Htruthy, Hqh. split; [reflexivity|].
              intros Hi. apply includes_In in Hi. congruence.
           ++ destruct (Hel m Hm) as [He Hn]. split; [exact He|].
              intros Hi. apply Hn. now right.
        -- cbn [map]. constructor; [|exact Hnd].
           intros Hi. apply in_map_iff in Hi. destruct Hi as [m [Hm Hin]].
           destruct (Hel m Hin) as [_ Hn]. apply Hn. now left.
        -- intros m [<-|Hm] Hm'; [right; now left|].
           destruct (Hall m Hm Hm') as [[Heq'|Hi]|Hi].
           ++ right. left. exact Heq'.
           ++ now left.
           ++ right. now right.
      * destruct (IH acc inserted) as [added [Heq [Hsub [Hel [Hnd Hall]]]]].
        exists added. repeat split; auto; try apply Hel; auto.
        -- now apply Subseq_skip.
        -- intros m [<-|Hm] Hm'; [|now apply Hall].
           rewrite Hqh, andb_false_r in Hm'. discriminate.
    + destruct (IH acc inserted) as [added [Heq [Hsub [Hel [Hnd Hall]]]]].
      exists added. repeat split; auto; try apply Hel; auto.
      * now apply Subseq_skip.
      * intros m [<-|Hm] Hm'; [|now apply Hall].
        rewrite Htruthy, andb_false_r in Hm'. discriminate.
Qed.

Lemma collectQueried_eligible (E : Collab) (queryHashes : list Z)
    (retain messages : list message) (m : message) :
  In m (collectQueried E queryHashes retain messages [] []) ->
  eligible E queryHashes retain m = true.
Proof.
  destruct (collectQueried_spec E queryHashes retain messages [] [])
    as [added [Heq [_ [Hel _]]]].
  rewrite Heq. simpl. intros Hm. now apply Hel.
Qed.

Lemma eligible_not_retained (E : Collab) (queryHashes : list Z)
    (retain : list message) (m t : message) :
  eligible E queryHashes retain m = true -> In t retain ->
  same_message m t = false.
Proof.
  unfold eligible, JS.includes. intros He Ht.
  destruct (existsb (same_message m) retain) eqn:Hex; [discriminate|].
  destruct (same_message m t) eqn:Hs; [|reflexivity].
  assert (existsb (same_message m) retain = true)
    by (apply existsb_exists; eauto).
  congruence.
Qed.

(** What chat retrieval leaves of the array: the array itself, or the
    array once the removal loop has run for the messages found. *)
Lemma retrieve_cases (E : Collab) (chat : list message) (w : World) :
  fst (rearrangeChat_retrieve E chat w) = chat \/
  (Z.of_nat (List.length chat) >= settings.protect (cfg w) /\
   exists queryHashes,
     fst (rearrangeChat_retrieve E chat w)
     = removeQueried (List.length chat)
         (JS.sort (byQueryOrder E queryHashes)
            (collectQueried E queryHashes
               (JS.slice_from (- settings.protect (cfg w)) chat) chat [] []))
         0 chat).
Proof.
  unfold rearrangeChat_retrieve, rearrangeChat_chats, bind, get, ret.
  destruct (settings.enabled_chats (cfg w)); cbn [negb]; [|now left].
  destruct (chat_selected (currentChatId w)) as [chatId|]; [|now left].
  destruct (Z.ltb_spec (Z.of_nat (List.length chat)) (settings.protect (cfg w)));
    [now left|].
  destruct (getQueryText E chat w) as [[queryText|cause] w1]; [|now left].
  destruct (String.length queryText =? 0)%nat; [now left|].
  destruct (queryCollection E chatId queryText (settings.insert (cfg w)) w1)
    as [[queryResults|cause] w2]; [|now left].
  right. split; [lia|].
  exists (filter_onlyUnique Z.eqb (hashes queryResults)).
  destruct (List.length _ =? 0)%nat; reflexivity.
Qed.

Lemma retrieve_floor (E : Collab) (chat : list message) (w : World) :
  let p := settings.protect (cfg w) in
  let chat' := fst (rearrangeChat_retrieve E chat w) in
  (p <= Z.of_nat (List.length chat) ->
   lastn (Z.to_nat p) chat' = lastn (Z.to_nat p) chat /\ Subseq chat' chat) /\
  (Z.of_nat (List.length chat) < p -> chat' = chat).
Proof.
  intros p chat'. subst chat'.
  destruct (retrieve_cases E chat w) as [->|[Hge [queryHashes ->]]].
  - split; [|reflexivity]. intros _. split; [reflexivity|apply Subseq_refl].
  - fold p in Hge |- *. split; [|lia]. intros _.
    set (retain := JS.slice_from (- p) chat).
    set (k := JS.clamp (Z.of_nat (List.length chat)) (- p)).
    assert (Hsplit : chat = firstn k chat ++ retain)
      by (symmetry; apply firstn_skipn).
    set (queried := JS.sort (byQueryOrder E queryHashes)
                      (collectQueried E queryHashes retain chat [] [])).
    assert (Hfree : forall q t, In q queried -> In t retain ->
                                same_message q t = false).
    { intros q t Hq Ht. eapply eligible_not_retained; [|exact Ht].
      eapply collectQueried_eligible.
      apply (Permutation_in _ (sort_perm _ _) Hq). }
    destruct (removeQueried_keeps_tail queried retain Hfree
                (List.length chat) 0
                (firstn k chat)) as [pre' [Heq Hsub]].
    rewrite <- Hsplit in Heq. rewrite Heq. split.
    + destruct (Z.leb_spec p 0) as [Hneg|Hpos].
      * replace (Z.to_nat p) with O by lia. now rewrite !lastn_0.
      * assert (Hlen : List.length retain = Z.to_nat p).
        { unfold retain, JS.slice_from, JS.clamp. rewrite length_skipn.
          destruct (Z.ltb_spec (- p) 0); lia. }
        rewrite <- Hlen, lastn_app_tail.
        rewrite Hsplit at 1. now rewrite lastn_app_tail.
    + rewrite Hsplit at 1. now apply Subseq_app_tail.
Qed.

(** C5.  With [chat1] the array when chat retrieval starts (after files
    and world info) and [p] the protect setting: when [p] is at most the
    length of [chat1], the array that [rearrangeChat] leaves ends with the
    same last [p] messages as [chat1], and is [chat1] with some messages
    left out, the others in their order, whatever the query returns; when
    [chat1] has fewer than [p] messages, the array is left as it is, and
    no error is raised. *)
Theorem rearrangeChat_protect_floor (E : Collab) (chat : list message)
    (w : World) :
  let chat1 := fst (rearrangeChat_files E chat w) in
  let w2 := snd (rearrangeChat_worldInfo E chat1
                   (snd (rearrangeChat_files E chat w))) in
  let p := settings.protect (cfg w2) in
  let chat' := fst (rearrangeChat E chat w) in
  (p <= Z.of_nat (List.length chat1) ->
   lastn (Z.to_nat p) chat' = lastn (Z.to_nat p) chat1 /\
   Subseq chat' chat1) /\
  (Z.of_nat (List.length chat1) < p ->
   chat' = chat1 /\
   (fst (rearrangeChat_worldInfo E chat1 (snd (rearrangeChat_files E chat w)))
    = Normal tt ->
    snd (rearrangeChat E chat w) = w2)).
Proof.
  intros chat1 w2 p chat'. subst chat1 w2 p chat'.
  unfold rearrangeChat.
  destruct (rearrangeChat_files E chat w) as [chat1 w1]. cbn [fst snd].
  destruct (rearrangeChat_worldInfo E chat1 w1) as [[[]|cause] w2];
    cbn [fst snd].
  - destruct (retrieve_floor E chat1 w2) as [Hle Hlt].
    split; [exact Hle|]. intros H. split; [now apply Hlt|]. intros _.
    unfold rearrangeChat_retrieve, rearrangeChat_chats, bind, get, ret.
    destruct (settings.enabled_chats (cfg w2)); cbn [negb]; [|reflexivity].
    destruct (chat_selected (currentChatId w2)); [|reflexivity].
    destruct (Z.ltb_spec (Z.of_nat (List.length chat1))
                (settings.protect (cfg w2))); [reflexivity|lia].
  - split.
    + intros _. split; [reflexivity|apply Subseq_refl].
    + intros _. split; [reflexivity|discriminate].
Qed.

(** Four messages, the last two protected, and a query that finds the
    first two: the array keeps its last two messages. *)
Lemma rearrangeChat_protect_floor_witness :
  let E := Sample.collab Sample.memory_server in
  let w := Sample.world "transformers" false false Sample.four_messages in
  fst (rearrangeChat E Sample.four_messages w)
  = [Sample.msg 1 "B" "bb"; Sample.msg 2 "A" "ccc"; Sample.msg 3 "B" "dddd"] /\
  lastn 2 (fst (rearrangeChat E Sample.four_messages w))
  = [Sample.msg 2 "A" "ccc"; Sample.msg 3 "B" "dddd"].
Proof.
  intros E w. split; [reflexivity|].
  apply (proj1 (proj1 (rearrangeChat_protect_floor E Sample.four_messages w)
                  ltac:(cbv; discriminate))).
Defined.

(** ** Retrieval: the injected block *)

Lemma StronglySorted_weaken (A : Type) (R R' : A -> A -> Prop) (l : list A) :
  (forall a b, R a b -> R' a b) ->
  StronglySorted R l -> StronglySorted R' l.
Proof.
  intros HR. induction 1 as [|a l Hs IH Hall]; constructor; [exact IH|].
  eapply Forall_impl; [|exact Hall]. apply HR.
Qed.

Lemma byQueryOrder_sorted (E : Collab) (queryHashes : list Z)
    (found : list message) :
  StronglySorted (fun a b => rank E queryHashes b <= rank E queryHashes a)
                 (JS.sort (byQueryOrder E queryHashes) found).
Proof.
  apply StronglySorted_weaken
    with (R := fun a b => - rank E queryHashes a <= - rank E queryHashes b);
    [intros a b; lia|].
  apply sort_sorted. intros a b. unfold byQueryOrder, rank, messageHash. lia.
Qed.

(** C6, as the code has it.  When chat retrieval runs its query, the
    messages found are those of the transcript outside the protected tail,
    with a text, whose hash is in the deduplicated query result, one per
    hash; the block puts them in descending order of the index of their
    hash in the query result, so that the most relevant message comes
    last; each message of the block is written as its name, a colon, a
    space and its text (new lines collapsed, white space trimmed), the
    messages are joined by blank lines, the whole replaces the marker of
    the template, and the text is set as one extension prompt at the
    configured position and depth. *)
Theorem rearrangeChat_block (E : Collab) (chat : list message)
    (w w1 w2 : World) (chatId queryText : string)
    (queryResults : QueryResult) :
  settings.enabled_chats (cfg w) = true ->
  chat_selected (currentChatId w) = Some chatId ->
  settings.protect (cfg w) <= Z.of_nat (List.length chat) ->
  getQueryText E chat w = (Normal queryText, w1) ->
  queryText <> "" ->
  queryCollection E chatId queryText (settings.insert (cfg w)) w1
  = (Normal queryResults, w2) ->
  let queryHashes := filter_onlyUnique Z.eqb (hashes queryResults) in
  let retain := JS.slice_from (- settings.protect (cfg w)) chat in
  let found := collectQueried E queryHashes retain chat [] [] in
  let block := JS.sort (byQueryOrder E queryHashes) found in
  Subseq found chat /\
  (forall m, In m found -> eligible E queryHashes retain m = true) /\
  NoDup (map (messageHash E) found) /\
  (forall m, In m chat -> eligible E queryHashes retain m = true ->
     In (messageHash E m) (map (messageHash E) found)) /\
  Permutation block found /\
  StronglySorted (fun a b => rank E queryHashes b <= rank E queryHashes a)
                 block /\
  snd (rearrangeChat_retrieve E chat w)
  = match block with
    | [] => w2
    | _ :: _ =>
        log_prompt
          (mkPrompt EXTENSION_PROMPT_TAG
             (substituteParams E
                (JS.replace_ci "{{text}}" (settings.template (cfg w))
                   (JS.join (JS.LF ++ JS.LF)%string
                      (map (fun m =>
                              JS.trim (collapseNewlines E
                                         (name m ++ ": " ++ mes m)%string))
                           block))))
             (settings.position (cfg w)) (settings.depth (cfg w))
             (settings.include_wi (cfg w)) None) w2
    end.
Proof.
  intros He Hc Hp Hq Hne Hr queryHashes retain found block.
  destruct (collectQueried_spec E queryHashes retain chat [] [])
    as [added [Heq [Hsub [Hel [Hnd Hall]]]]].
  cbn [app] in Heq. fold found in Heq. subst added.
  split; [exact Hsub|]. split; [intros m Hm; now apply Hel|].
  split; [exact Hnd|]. split.
  { intros m Hm Hm'. destruct (Hall m Hm Hm') as [[]|H]. exact H. }
  split; [apply sort_perm|]. split; [apply byQueryOrder_sorted|].
  unfold rearrangeChat_retrieve, rearrangeChat_chats, bind, get, ret.
  rewrite He, Hc. cbn [negb].
  destruct (Z.ltb_spec (Z.of_nat (List.length chat)) (settings.protect (cfg w)));
    [lia|].
  rewrite Hq.
  destruct queryText as [|c queryText]; [congruence|]. cbn [String.length Nat.eqb].
  rewrite Hr. fold queryHashes retain found block.
  destruct block; reflexivity.
Qed.

(** The four messages again: the query ranks the message [a] first and
    [bb] second, and the block holds [bb] before [a]. *)
Lemma rearrangeChat_block_witness :
  let E := Sample.collab Sample.memory_server in
  let w := Sample.world "transformers" false false Sample.four_messages in
  prompts (snd (rearrangeChat_retrieve E Sample.four_messages w))
  = [mkPrompt EXTENSION_PROMPT_TAG
       ("Past events: B: bb" ++ JS.LF ++ JS.LF ++ "A: a")%string 0 2 false None].
Proof.
  intros E w.
  rewrite (proj2 (proj2 (proj2 (proj2 (proj2 (proj2
             (@rearrangeChat_block E Sample.four_messages w w
                (log_request
                   (ReqQuery "chat-1" ("dddd" ++ JS.LF ++ "ccc")%string 3
                      "transformers" (1 # 4)) w)
                "chat-1" ("dddd" ++ JS.LF ++ "ccc")%string
                (mkQueryResult [1; 2] None)
                eq_refl eq_refl ltac:(cbv; discriminate) eq_refl
                ltac:(discriminate) eq_refl))))))).
  reflexivity.
Defined.

(** C6, as stated, fails: the query ranks the message [a] (hash 1) first,
    and the injected block has it last, after [bb] (hash 2).  In the same
    run [bb], which follows [a] in the transcript, stays in the
    transcript: the removal loop steps over the message that comes right
    after one it has just removed. *)
Lemma most_relevant_message_last :
  let E := Sample.collab Sample.memory_server in
  let w := Sample.world "transformers" false false Sample.four_messages in
  requests (snd (rearrangeChat E Sample.four_messages w))
  = [ReqQuery "chat-1" ("dddd" ++ JS.LF ++ "ccc")%string 3 "transformers"
       (1 # 4)] /\
  server E [] (ReqQuery "chat-1" ("dddd" ++ JS.LF ++ "ccc")%string 3
                 "transformers" (1 # 4))
  = Some (mkResponse true (BodyQuery (mkQueryResult [1; 2] None))) /\
  map (messageHash E) Sample.four_messages = [1; 2; 3; 4] /\
  map prompt_text (prompts (snd (rearrangeChat E Sample.four_messages w)))
  = [""; ""; ("Past events: B: bb" ++ JS.LF ++ JS.LF ++ "A: a")%string] /\
  fst (rearrangeChat E Sample.four_messages w)
  = [Sample.msg 1 "B" "bb"; Sample.msg 2 "A" "ccc"; Sample.msg 3 "B" "dddd"].
Proof. repeat split; reflexivity. Qed.

(** * Further properties of the module *)

(** ** Hash cache *)

(** X1.  [getStringHash] with its cache: when the cache holds computed
    hashes only, a call returns the computed hash of its string, the
    cache still holds computed hashes only, and a second call with the
    same string returns the same hash and leaves the cache as it is. *)
Theorem getStringHash_cache_round_trip (E : Collab)
    (cache : list (string * Z)) (str : string) :
  cache_sound E cache ->
  let first := getStringHash_cached E cache str in
  fst first = calculateHash E str /\
  cache_sound E (snd first) /\
  cache_get (snd first) str = Some (calculateHash E str) /\
  getStringHash_cached E (snd first) str = first.
Proof.
  intros Hsound first. subst first. unfold getStringHash_cached.
  destruct (cache_get cache str) as [h|] eqn:Hget; cbn [fst snd].
  - assert (Hh : h = calculateHash E str) by now apply Hsound.
    subst h. rewrite Hget. repeat split; auto.
  - cbn [cache_get]. rewrite String.eqb_refl. repeat split.
    intros k v. cbn [cache_get].
    destruct (String.eqb_spec str k) as [->|_]; [now intros [= <-]|].
    apply Hsound.
Qed.

Lemma getStringHash_cache_round_trip_witness :
  getStringHash_cached (Sample.collab Sample.empty_server)
    (snd (getStringHash_cached (Sample.collab Sample.empty_server) [] "abc"))
    "abc"
  = (3, [("abc", 3)]).
Proof.
  rewrite (proj2 (proj2 (proj2
             (getStringHash_cache_round_trip
                (E := Sample.collab Sample.empty_server) (cache := []) "abc"
                ltac:(intros k v; discriminate))))).
  reflexivity.
Defined.

(** ** Query text *)

Lemma lines_of_cons (t : string) (ts : list string) :
  lines_of (t :: ts) = (t ++ JS.LF ++ lines_of ts)%string.
Proof.
  unfold lines_of. cbn [map]. rewrite concat_cons. apply append_assoc.
Qed.

Lemma queryLoop_counting (query : Z) (messages : list Item) :
  forall (queryText : string) (i : Z),
    i < query ->
    queryLoop query messages queryText i
    = (queryText
       ++ lines_of (firstn (Z.to_nat (query - i))
                      (filter JS.truthy (map text messages))))%string.
Proof.
  induction messages as [|message rest IH]; intros queryText i Hi.
  - cbn. rewrite firstn_nil. unfold lines_of. cbn. now rewrite append_empty.
  - cbn [queryLoop map filter].
    destruct (JS.truthy (text message)) eqn:Htruthy.
    + destruct (Z.eqb_spec (i + 1) query) as [Heq|Hne].
      * replace (Z.to_nat (query - i)) with 1%nat by lia.
        reflexivity.
      * rewrite IH by lia.
        replace (Z.to_nat (query - i)) with (S (Z.to_nat (query - (i + 1))))
          by lia.
        cbn [firstn]. rewrite lines_of_cons.
        now rewrite !append_assoc.
    + destruct (Z.eqb_spec i query) as [Heq|Hne]; [lia|].
      now apply IH.
Qed.

Lemma queryLoop_unbounded (query : Z) (messages : list Item) :
  forall (queryText : string) (i : Z),
    query < i ->
    queryLoop query messages queryText i
    = (queryText ++ lines_of (filter JS.truthy (map text messages)))%string.
Proof.
  induction messages as [|message rest IH]; intros queryText i Hi.
  - cbn. unfold lines_of. cbn. now rewrite append_empty.
  - cbn [queryLoop map filter].
    destruct (JS.truthy (text message)) eqn:Htruthy.
    + destruct (Z.eqb_spec (i + 1) query) as [Heq|Hne]; [lia|].
      rewrite IH by lia. rewrite lines_of_cons. now rewrite !append_assoc.
    + destruct (Z.eqb_spec i query) as [Heq|Hne]; [lia|].
      now apply IH.
Qed.

Lemma getQueryText_plain (E : Collab) (chat : list message) (w : World) :
  settings.summarize (cfg w) && settings.summarize_sent (cfg w) = false ->
  getQueryText E chat w
  = (Normal (JS.trim (collapseNewlines E
               (queryLoop (settings.query (cfg w))
                  (rev (map (fun x => mkItem (substituteParams E (mes x)) 0 0)
                            chat)) "" 0))), w).
Proof.
  intros Hs. unfold getQueryText, bind, get, ret. now rewrite Hs.
Qed.

Lemma recent_texts_items (E : Collab) (chat : list message) :
  filter JS.truthy
    (map text (rev (map (fun x => mkItem (substituteParams E (mes x)) 0 0)
                        chat)))
  = recent_texts E chat.
Proof.
  unfold recent_texts. rewrite <- map_rev, map_map. reflexivity.
Qed.

(** X2.  With a query setting of at least 1 and no summary of the sent
    messages, [getQueryText] sends nothing and returns, collapsed and
    trimmed, the texts of the newest [query] messages that have a text,
    the newest first, each followed by a line feed; messages without a
    text do not count towards [query]. *)
Theorem getQueryText_recent (E : Collab) (chat : list message) (w : World) :
  settings.summarize (cfg w) && settings.summarize_sent (cfg w) = false ->
  1 <= settings.query (cfg w) ->
  getQueryText E chat w
  = (Normal (JS.trim (collapseNewlines E
               (lines_of (firstn (Z.to_nat (settings.query (cfg w)))
                            (recent_texts E chat))))), w).
Proof.
  intros Hs Hq. rewrite (getQueryText_plain E chat w Hs).
  rewrite queryLoop_counting by lia. cbn [append].
  now rewrite Z.sub_0_r, recent_texts_items.
Qed.

Lemma getQueryText_recent_witness :
  getQueryText (Sample.collab Sample.empty_server)
    [Sample.msg 0 "A" "one"; Sample.msg 1 "B" ""; Sample.msg 2 "A" "two";
     Sample.msg 3 "B" ""]
    (Sample.world "transformers" false false [])
  = (Normal ("two" ++ JS.LF ++ "one")%string,
     Sample.world "transformers" false false []).
Proof.
  rewrite (@getQueryText_recent (Sample.collab Sample.empty_server) _
             (Sample.world "transformers" false false [])
             eq_refl ltac:(cbv; discriminate)).
  reflexivity.
Defined.

(** X3.  With no summary of the sent messages and a query setting below
    1, the count never stops the loop of [getQueryText], which sends
    nothing: a negative setting takes the texts of all the messages that
    have one, newest first; the setting 0 takes them all when the newest
    message has a text, and gives the empty text when it has none.  The
    text is returned with its new lines collapsed and trimmed. *)
Theorem getQueryText_unbounded (E : Collab) (chat : list message) (w : World) :
  settings.summarize (cfg w) && settings.summarize_sent (cfg w) = false ->
  settings.query (cfg w) <= 0 ->
  let all := JS.trim (collapseNewlines E (lines_of (recent_texts E chat))) in
  let none := JS.trim (collapseNewlines E "") in
  (settings.query (cfg w) < 0 -> getQueryText E chat w = (Normal all, w)) /\
  (settings.query (cfg w) = 0 ->
   forall newest older, chat = older ++ [newest] ->
     getQueryText E chat w
     = (Normal (if JS.truthy (substituteParams E (mes newest))
                then all else none), w)).
Proof.
  intros Hs Hq all none. subst all none.
  rewrite (getQueryText_plain E chat w Hs). split.
  - intros Hneg. rewrite queryLoop_unbounded by lia. cbn [append].
    now rewrite recent_texts_items.
  - intros Hzero newest older ->. rewrite Hzero.
    rewrite <- recent_texts_items.
    rewrite map_app, rev_app_distr. cbn [map rev app queryLoop text filter].
    destruct (JS.truthy (substituteParams E (mes newest))) eqn:Ht.
    + cbn [Z.eqb Z.add]. rewrite queryLoop_unbounded by lia.
      rewrite lines_of_cons. cbn [append]. now rewrite append_assoc.
    + reflexivity.
Qed.

Lemma getQueryText_unbounded_witness :
  getQueryText (Sample.collab Sample.empty_server)
    [Sample.msg 0 "A" "one"; Sample.msg 1 "B" "two"; Sample.msg 2 "A" "three"]
    (Cases.world_with
       (settings.mk "transformers" false "" false false "main" "" true "" 2 0
                    2 3 (-1) 400 (1 # 4) false 5 "" 0 4 0 false) [])
  = (Normal ("three" ++ JS.LF ++ "two" ++ JS.LF ++ "one")%string,
     Cases.world_with
       (settings.mk "transformers" false "" false false "main" "" true "" 2 0
                    2 3 (-1) 400 (1 # 4) false 5 "" 0 4 0 false) []).
Proof.
  rewrite (proj1 (@getQueryText_unbounded (Sample.collab Sample.empty_server) _
                    (Cases.world_with
                       (settings.mk "transformers" false "" false false "main"
                                    "" true "" 2 0 2 3 (-1) 400 (1 # 4) false
                                    5 "" 0 4 0 false) [])
                    eq_refl ltac:(cbv; discriminate))
                 ltac:(reflexivity)).
  reflexivity.
Defined.

(** A text of white space only is trimmed to nothing, and the white
    space is not only that of the ASCII range: when the newest message of
    a chat is a no-break space (U+00A0) and one message is asked for, the
    query text is empty, and retrieval stops there, before any request
    and any prompt. *)
Example query_of_no_break_space :
  let E := Sample.collab Sample.memory_server in
  let chat :=
    [Sample.msg 0 "A" "a"; Sample.msg 1 "B" (JS.bytes [194; 160]%nat)] in
  let w :=
    Cases.world_with
      (settings.mk "transformers" false "" false false "main" "" true
                   "Past events: {{text}}" 2 0 1 3 1 400 (1 # 4) false 5 ""
                   0 4 0 false) chat in
  JS.trim ("x" ++ JS.bytes [194; 160]%nat)%string = "x" /\
  getQueryText E chat w = (Normal "", w) /\
  rearrangeChat_retrieve E chat w = (chat, w).
Proof. repeat split; reflexivity. Qed.

(** ** Retrieval: the removal loop *)

Lemma indexOf_here (pre rest : list message) (x : message) :
  (forall y, In y pre -> same_message y x = false) ->
  JS.indexOf same_message (pre ++ x :: rest) x = Z.of_nat (List.length pre).
Proof.
  induction pre as [|y pre IH]; intros Hpre.
  - cbn. unfold same_message. now rewrite Nat.eqb_refl.
  - cbn [app JS.indexOf List.length].
    rewrite (Hpre y (or_introl eq_refl)).
    rewrite IH by (intros z Hz; apply Hpre; now right).
    destruct (Z.ltb_spec (Z.of_nat (List.length pre)) 0); lia.
Qed.

Lemma splice1_here (A : Type) (pre rest : list A) (x : A) :
  JS.splice1 (Z.of_nat (List.length pre)) (pre ++ x :: rest) = pre ++ rest.
Proof.
  unfold JS.splice1, JS.clamp.
  destruct (Z.ltb_spec (Z.of_nat (List.length pre)) 0); [lia|].
  rewrite length_app. cbn [List.length].
  replace (Z.to_nat (Z.min (Z.of_nat (List.length pre))
                       (Z.of_nat (List.length pre + S (List.length rest)))))
    with (List.length pre + 0)%nat by lia.
  rewrite firstn_app_2. cbn [firstn]. rewrite app_nil_r.
  replace (S (List.length pre + 0)) with (List.length pre + 1)%nat by lia.
  now rewrite skipn_app, skipn_all2, Nat.add_comm, Nat.add_sub by lia.
Qed.

Lemma distinct_before (pre rest : list message) (x : message) :
  NoDup (map msg_ref (pre ++ x :: rest)) ->
  forall y, In y pre -> same_message y x = false.
Proof.
  intros Hnd y Hy. rewrite map_app in Hnd. cbn [map] in Hnd.
  apply NoDup_remove_2 in Hnd.
  destruct (same_message y x) eqn:Hs; [|reflexivity].
  apply same_message_true in Hs. exfalso. apply Hnd.
  apply in_or_app. left. rewrite <- Hs. now apply in_map.
Qed.

Lemma distinct_without (pre rest : list message) (x : message) :
  NoDup (map msg_ref (pre ++ x :: rest)) ->
  NoDup (map msg_ref (pre ++ rest)).
Proof.
  rewrite !map_app. cbn [map]. apply NoDup_remove_1.
Qed.

Lemma removeQueried_skipping (queried : list message) :
  forall (steps : nat) (rest pre : list message),
    NoDup (map msg_ref (pre ++ rest)) ->
    (List.length rest <= steps)%nat ->
    removeQueried steps queried (List.length pre) (pre ++ rest)
    = pre ++ removeSkipping queried rest.
Proof.
  induction steps as [|steps IH]; intros rest pre Hnd Hlen.
  - destruct rest; [reflexivity|cbn in Hlen; lia].
  - cbn [removeQueried]. destruct rest as [|x rest].
    + rewrite (proj2 (nth_error_None (pre ++ []) (List.length pre)));
        [reflexivity|rewrite app_nil_r; lia].
    + rewrite nth_error_app2, Nat.sub_diag by lia. cbn [nth_error].
      cbn [removeSkipping].
      destruct (JS.includes same_message queried x).
      * rewrite (@indexOf_here pre rest x (@distinct_before pre rest x Hnd)),
          splice1_here.
        apply distinct_without in Hnd.
        destruct rest as [|y rest'].
        -- destruct steps; cbn [removeQueried]; [reflexivity|].
           now rewrite (proj2 (nth_error_None (pre ++ [])
                                 (S (List.length pre))))
             by (rewrite app_nil_r; lia).
        -- replace (pre ++ y :: rest') with ((pre ++ [y]) ++ rest')
             in * by now rewrite <- app_assoc.
           replace (S (List.length pre)) with (List.length (pre ++ [y]))
             by (rewrite length_app; cbn; lia).
           rewrite IH; [now rewrite <- app_assoc|exact Hnd|cbn in Hlen; lia].
      * replace (pre ++ x :: rest) with ((pre ++ [x]) ++ rest)
          in * by now rewrite <- app_assoc.
        replace (S (List.length pre)) with (List.length (pre ++ [x]))
          by (rewrite length_app; cbn; lia).
        rewrite IH; [now rewrite <- app_assoc|exact Hnd|cbn in Hlen; lia].
Qed.

Lemma removeQueried_from_start (queried chat : list message) :
  NoDup (map msg_ref chat) ->
  removeQueried (List.length chat) queried 0 chat
  = removeSkipping queried chat.
Proof.
  intros Hnd.
  apply (@removeQueried_skipping queried (List.length chat) chat []
           Hnd (le_n _)).
Qed.

(** X4.  On an array of distinct messages the removal loop of
    [rearrangeChat] takes out a message found and then steps over the
    message that follows it: a message found that comes right after one
    just removed stays in the array. *)
Theorem removeQueried_steps_over (queriedMessages chat : list message) :
  NoDup (map msg_ref chat) ->
  removeQueried (List.length chat) queriedMessages 0 chat
  = removeSkipping queriedMessages chat.
Proof.
  apply removeQueried_from_start.
Qed.

Lemma removeQueried_steps_over_witness :
  removeQueried (List.length Sample.four_messages)
    [Sample.msg 0 "A" "a"; Sample.msg 1 "B" "bb"; Sample.msg 3 "B" "dddd"]
    0 Sample.four_messages
  = [Sample.msg 1 "B" "bb"; Sample.msg 2 "A" "ccc"].
Proof.
  rewrite (@removeQueried_steps_over
             [Sample.msg 0 "A" "a"; Sample.msg 1 "B" "bb";
              Sample.msg 3 "B" "dddd"]
             Sample.four_messages).
  - reflexivity.
  - repeat constructor; cbn; intuition discriminate.
Defined.

Lemma removeSkipping_filter (queried : list message) :
  forall (n : nat) (chat : list message),
    (List.length chat <= n)%nat ->
    no_adjacent queried chat ->
    removeSkipping queried chat
    = filter (fun m => negb (JS.includes same_message queried m)) chat.
Proof.
  induction n as [|n IH]; intros chat Hlen Hadj.
  - destruct chat; [reflexivity|cbn in Hlen; lia].
  - destruct chat as [|x rest]; [reflexivity|].
    cbn [removeSkipping filter].
    destruct Hadj as [Hx Hrest].
    destruct (JS.includes same_message queried x) eqn:Hqx; cbn [negb].
    + destruct rest as [|y rest']; [reflexivity|].
      cbn [filter].
      destruct (JS.includes same_message queried y) eqn:Hqy;
        [exfalso; apply Hx; auto|].
      cbn [negb]. f_equal. apply IH; [cbn in Hlen; lia|].
      now destruct Hrest.
    + f_equal. apply IH; [cbn in Hlen; lia|exact Hrest].
Qed.

(** X5.  When the messages are distinct and no message found directly
    follows another message found, the removal loop of [rearrangeChat]
    takes out every message found and nothing else. *)
Theorem removeQueried_all_found (queriedMessages chat : list message) :
  NoDup (map msg_ref chat) ->
  no_adjacent queriedMessages chat ->
  removeQueried (List.length chat) queriedMessages 0 chat
  = filter (fun m => negb (JS.includes same_message queriedMessages m)) chat.
Proof.
  intros Hnd Hadj.
  rewrite (@removeQueried_from_start queriedMessages chat Hnd).
  now apply (@removeSkipping_filter queriedMessages (List.length chat)).
Qed.

Lemma removeQueried_all_found_witness :
  removeQueried (List.length Sample.four_messages)
    [Sample.msg 0 "A" "a"; Sample.msg 2 "A" "ccc"] 0 Sample.four_messages
  = [Sample.msg 1 "B" "bb"; Sample.msg 3 "B" "dddd"].
Proof.
  rewrite (@removeQueried_all_found
             [Sample.msg 0 "A" "a"; Sample.msg 2 "A" "ccc"]
             Sample.four_messages).
  - reflexivity.
  - repeat constructor; cbn; intuition discriminate.
  - cbn. intuition discriminate.
Defined.






(** ** Summaries *)

Lemma summarizeExtra_without_url (E : Collab) (hashedMessages : list Item) :
  apiUrl E = None ->
  forall w, summarizeExtra E hashedMessages w = (Normal hashedMessages, w).
Proof.
  intros Hurl. induction hashedMessages as [|element rest IH]; intros w.
  - reflexivity.
  - cbn [summarizeExtra]. rewrite Hurl. unfold bind, ret. now rewrite IH.
Qed.

Lemma summarizeExtra_with_url (E : Collab) (url : string)
    (hashedMessages : list Item) :
  apiUrl E = Some url ->
  forall w, exists r w',
    summarizeExtra E hashedMessages w = (Normal r, w') /\
    map item_key r = map item_key hashedMessages /\
    requests w'
    = requests w ++ map (fun x => ReqSummarize (text x)) hashedMessages /\
    forall i element,
      nth_error hashedMessages i = Some element ->
      nth_error r i
      = Some (set_text element
                (summary_text E
                   (requests w
                    ++ map (fun x => ReqSummarize (text x))
                         (firstn i hashedMessages))
                   element)).
Proof.
  intros Hurl. induction hashedMessages as [|element rest IH]; intros w.
  - exists [], w. cbn. rewrite app_nil_r. repeat split.
    intros [|i] element; discriminate.
  - cbn [summarizeExtra]. rewrite Hurl.
    destruct (IH (log_request (ReqSummarize (text element)) w))
      as [r [w' [Hrun [Hkeys [Hreq Htexts]]]]].
    assert (Hfetch : exists apiResult,
               fetch E (ReqSummarize (text element)) w
               = (apiResult, log_request (ReqSummarize (text element)) w) /\
               match apiResult with
               | Normal response =>
                   match ok response, body response with
                   | true, BodySummary summary => set_text element summary
                   | _, _ => element
                   end
               | Throw _ => element
               end
               = set_text element (summary_text E (requests w) element)).
    { unfold fetch, summary_text.
      destruct (server E (requests w) (ReqSummarize (text element)))
        as [response|].
      - exists (Normal response). split; [reflexivity|].
        destruct element as [t h i].
        now destruct (ok response), (body response).
      - exists (Throw None). split; [reflexivity|]. now destruct element. }
    destruct Hfetch as [apiResult [-> ->]].
    unfold bind, ret. rewrite Hrun. eexists _, w'. split; [reflexivity|].
    split; [cbn [map]; now rewrite Hkeys|].
    split.
    + rewrite Hreq. cbn [log_request requests map]. now rewrite <- app_assoc.
    + intros [|i] x; cbn [nth_error firstn map].
      * intros [= <-]. now rewrite app_nil_r.
      * intros Hx. rewrite (Htexts i x Hx). cbn [log_request requests].
        now rewrite <- app_assoc.
Qed.

Lemma summarizeExtra_total (E : Collab) (hashedMessages : list Item) :
  forall w, exists r w',
    summarizeExtra E hashedMessages w = (Normal r, w') /\
    map item_key r = map item_key hashedMessages /\
    requests w'
    = requests w
      ++ match apiUrl E with
         | Some _ => map (fun x => ReqSummarize (text x)) hashedMessages
         | None => []
         end.
Proof.
  intros w. destruct (apiUrl E) as [url|] eqn:Hurl.
  - destruct (summarizeExtra_with_url E hashedMessages Hurl w)
      as [r [w' [Hrun [Hkeys [Hreq _]]]]].
    now exists r, w'.
  - exists hashedMessages, w.
    rewrite (summarizeExtra_without_url E hashedMessages Hurl).
    rewrite app_nil_r. now repeat split.
Qed.

Lemma summarizeMain_keys (E : Collab) (hashedMessages : list Item) :
  forall w r w',
    summarizeMain E hashedMessages w = (Normal r, w') ->
    map item_key r = map item_key hashedMessages /\ w' = w.
Proof.
  induction hashedMessages as [|element rest IH]; intros w r w'.
  - cbn. now intros [= <- <-].
  - cbn [summarizeMain]. unfold bind, get, ret.
    destruct (generateRaw E (text element) (settings.summary_prompt (cfg w)))
      as [summary|cause]; [|discriminate].
    destruct (summarizeMain E rest w) as [[rest'|cause] w1] eqn:Hrest;
      [|discriminate].
    intros [= <- <-]. destruct (IH w rest' w1 Hrest) as [Hkeys ->].
    split; [|reflexivity]. cbn [map]. now rewrite Hkeys.
Qed.

Lemma summarize_keys (E : Collab) (hashedMessages : list Item)
    (endpoint : string) (w w' : World) (r : list Item) :
  summarize E hashedMessages endpoint w = (Normal (Some r), w') ->
  map item_key r = map item_key hashedMessages.
Proof.
  unfold summarize, bind, ret.
  destruct (String.eqb endpoint "main").
  - destruct (summarizeMain E hashedMessages w) as [[r'|cause] w1] eqn:Hmain;
      [|discriminate].
    intros [= <- <-]. now apply (summarizeMain_keys E hashedMessages w Hmain).
  - destruct (String.eqb endpoint "extras"); [|discriminate].
    destruct (summarizeExtra_total E hashedMessages w)
      as [r' [w1 [Hrun [Hkeys _]]]].
    rewrite Hrun. now intros [= <- <-].
Qed.

Lemma existsb_hash (g : Z -> bool) (l : list Item) :
  existsb (fun y => g (hash y)) l = existsb g (map hash l).
Proof. induction l as [|x l IH]; cbn; [reflexivity|now rewrite IH]. Qed.

Lemma keys_hashes (l1 l2 : list Item) :
  map item_key l1 = map item_key l2 -> map hash l1 = map hash l2.
Proof.
  intros H. apply (f_equal (map fst)) in H.
  rewrite !map_map in H. exact H.
Qed.

Lemma delta_by_keys (l1 l2 : list Item) (hs : list Z) :
  map item_key l1 = map item_key l2 ->
  map item_key (newVectorItems l1 hs) = map item_key (newVectorItems l2 hs) /\
  deletedHashes l1 hs = deletedHashes l2 hs.
Proof.
  intros Hkeys. split.
  - revert l2 Hkeys. unfold newVectorItems.
    induction l1 as [|x l1 IH]; intros [|y l2]; cbn [map filter];
      try discriminate; [reflexivity|].
    intros [= Hh Hi Hrest]. rewrite Hh.
    destruct (JS.includes Z.eqb hs (hash y)); cbn [negb map].
    + now apply IH.
    + unfold item_key at 1 3. rewrite Hh, Hi. f_equal. now apply IH.
  - unfold deletedHashes. apply filter_ext. intros h.
    rewrite (existsb_hash (fun k => Z.eqb k h) l1).
    rewrite (existsb_hash (fun k => Z.eqb k h) l2).
    now rewrite (keys_hashes _ _ Hkeys).
Qed.

(** X7.  Summaries do not change what [synchronizeChat] inserts and
    deletes: the hashes are taken from the messages before they are
    summarised (line 247) and [summarize] rewrites texts only, so the
    hashes to delete, and the hashes and indexes of the items to insert,
    are those of the unsummarised chat. *)
Theorem delta_ignores_summaries (E : Collab) (chatId : string) (w w1 : World)
    (toInsert : list Item) (toDelete : list Z) :
  computeDelta E chatId w = (Normal (toInsert, toDelete), w1) ->
  exists hashesInCollection w0,
    getSavedHashes E chatId w = (Normal hashesInCollection, w0) /\
    toDelete
    = deletedHashes (hashedMessagesOf E (chat w)) hashesInCollection /\
    map item_key toInsert
    = map item_key
        (newVectorItems (hashedMessagesOf E (chat w)) hashesInCollection).
Proof.
  unfold computeDelta, bind, get, ret.
  destruct (getSavedHashes E chatId w) as [[hs|cause] w0]; [|discriminate].
  destruct (settings.summarize (cfg w)).
  - destruct (summarize E (hashedMessagesOf E (chat w))
                (settings.summary_source (cfg w)) w0) as [[r|cause] w0'] eqn:Hs;
      [|discriminate].
    unfold array_of, ret, throw. destruct r as [hm|]; [|discriminate].
    intros [= <- <- <-]. exists hs, w0. split; [reflexivity|].
    apply summarize_keys in Hs.
    destruct (delta_by_keys _ _ hs Hs) as [Hnew Hdel]. now split.
  - intros [= <- <- <-]. exists hs, w0. repeat split.
Qed.

(** Summaries made by the main API of two messages, one of them already
    stored: the item to insert carries the summary as text and the hash
    of the original text. *)
Lemma delta_ignores_summaries_witness :
  exists hashesInCollection w0,
    getSavedHashes (Sample.collab Cases.stale_server) "chat-1"
      (Cases.world_with (Cases.summarizing "main")
         [Sample.msg 0 "A" "a"; Sample.msg 1 "B" "bb"])
    = (Normal hashesInCollection, w0) /\
    [9] = deletedHashes
            (hashedMessagesOf (Sample.collab Cases.stale_server)
               [Sample.msg 0 "A" "a"; Sample.msg 1 "B" "bb"])
            hashesInCollection /\
    map item_key [mkItem "bb" 2 1]
    = map item_key
        (newVectorItems
           (hashedMessagesOf (Sample.collab Cases.stale_server)
              [Sample.msg 0 "A" "a"; Sample.msg 1 "B" "bb"])
           hashesInCollection).
Proof.
  apply (@delta_ignores_summaries (Sample.collab Cases.stale_server) "chat-1"
           (Cases.world_with (Cases.summarizing "main")
              [Sample.msg 0 "A" "a"; Sample.msg 1 "B" "bb"])
           (log_request (ReqList "chat-1" "transformers")
              (Cases.world_with (Cases.summarizing "main")
                 [Sample.msg 0 "A" "a"; Sample.msg 1 "B" "bb"]))).
  reflexivity.
Defined.

(** X8.  [summarizeExtra] never throws and keeps the hashes and the
    indexes of its items.  When the address of the Extras API does not
    parse, it sends nothing and returns the items as they were.
    Otherwise it sends one request for each message, in order; and when
    the server answers the requests it accepts with a summary or with a
    body that cannot be read, the item at each position has as text the
    summary that the server gave to its request (made after the requests
    of the items before it), or its own text when the server did not
    answer, refused, or gave a body that cannot be read. *)
Theorem summarizeExtra_never_throws (E : Collab) (hashedMessages : list Item)
    (w : World) :
  exists r w',
    summarizeExtra E hashedMessages w = (Normal r, w') /\
    map item_key r = map item_key hashedMessages /\
    match apiUrl E with
    | None => r = hashedMessages /\ w' = w
    | Some _ =>
        requests w'
        = requests w ++ map (fun x => ReqSummarize (text x)) hashedMessages /\
        (summaries_answered E ->
         forall i element,
           nth_error hashedMessages i = Some element ->
           nth_error r i
           = Some (set_text element
                     (summary_text E
                        (requests w
                         ++ map (fun x => ReqSummarize (text x))
                              (firstn i hashedMessages))
                        element)))
    end.
Proof.
  destruct (apiUrl E) as [url|] eqn:Hurl.
  - destruct (summarizeExtra_with_url E hashedMessages Hurl w)
      as [r [w' [Hrun [Hkeys [Hreq Htexts]]]]].
    exists r, w'. split; [exact Hrun|]. split; [exact Hkeys|].
    split; [exact Hreq|]. intros _. exact Htexts.
  - exists hashedMessages, w.
    now rewrite (summarizeExtra_without_url E hashedMessages Hurl).
Qed.

Lemma summary_server_answers :
  summaries_answered (Sample.collab summary_server).
Proof.
  intros history t response. cbn. unfold summary_server.
  destruct (String.eqb t "bb"); [intros [= <-] _; right; now exists "b"|].
  destruct (String.eqb t "ccc"); [intros [= <-]; discriminate|].
  destruct (String.eqb t "dddd"); [discriminate|].
  intros [= <-] _. right. now exists "SUMMARY".
Qed.

(** The four messages with the server of summaries: the first text is
    replaced, the second shortened, and the last two, refused and
    unanswered, are kept; without an address nothing is sent. *)
Lemma summarizeExtra_never_throws_witness :
  let E := Sample.collab summary_server in
  let w := Sample.world "transformers" false false Sample.four_messages in
  let items := hashedMessagesOf E Sample.four_messages in
  (fst (summarizeExtra E items w)
   = Normal [mkItem "SUMMARY" 1 0; mkItem "b" 2 1; mkItem "ccc" 3 2;
             mkItem "dddd" 4 3] /\
   nth_error [mkItem "SUMMARY" 1 0; mkItem "b" 2 1; mkItem "ccc" 3 2;
              mkItem "dddd" 4 3] 1
   = Some (mkItem "b" 2 1)) /\
  summarizeExtra (without_url E) items w = (Normal items, w).
Proof.
  intros E w items. split.
  - destruct (summarizeExtra_never_throws E items w)
      as [r [w' [Hrun [_ [_ Htexts]]]]].
    assert (H : fst (summarizeExtra E items w)
                = Normal [mkItem "SUMMARY" 1 0; mkItem "b" 2 1;
                          mkItem "ccc" 3 2; mkItem "dddd" 4 3])
      by reflexivity.
    split; [exact H|]. rewrite Hrun in H. injection H as <-.
    exact (Htexts summary_server_answers 1%nat (mkItem "bb" 2 1) eq_refl).
  - destruct (summarizeExtra_never_throws (without_url E) items w)
      as [r [w' [Hrun [_ [-> ->]]]]].
    exact Hrun.
Defined.

(** ** Synchroniser: what a call sends *)

Lemma getSavedHashes_ok (E : Collab) (chatId : string) (w : World)
    (hs : list Z) :
  server E (requests w) (ReqList chatId (settings.source (cfg w)))
  = Some (mkResponse true (BodyHashes hs)) ->
  getSavedHashes E chatId w
  = (Normal hs, log_request (ReqList chatId (settings.source (cfg w))) w).
Proof.
  intros Hs. unfold getSavedHashes, bind, get, fetch. now rewrite Hs.
Qed.

Lemma synchronizeChat_run (E : Collab) (batchSize : Z) (w : World)
    (chatId : string) (hs : list Z) :
  settings.enabled_chats (cfg w) = true ->
  syncBlocked w = false ->
  is_send_press w = false ->
  chat_selected (currentChatId w) = Some chatId ->
  settings.summarize (cfg w) = false ->
  server E (requests w) (ReqList chatId (settings.source (cfg w)))
  = Some (mkResponse true (BodyHashes hs)) ->
  synchronizeChat E batchSize w
  = finish_sync
      (applyDelta E batchSize chatId
         (newVectorItems (hashedMessagesOf E (chat w)) hs)
         (deletedHashes (hashedMessagesOf E (chat w)) hs)
         (log_request (ReqList chatId (settings.source (cfg w)))
            (set_syncBlocked true w))).
Proof.
  intros He Hb Hs Hc Hsum Hlist.
  unfold synchronizeChat, waitUntilCondition. rewrite He, Hb, Hs. cbn [negb andb].
  unfold synchronizeChat_try, bind, modify, get. cbn [currentChatId set_syncBlocked].
  rewrite Hc. unfold computeDelta, bind, get, ret.
  rewrite (@getSavedHashes_ok E chatId (set_syncBlocked true w) hs Hlist).
  cbn [cfg set_syncBlocked chat]. rewrite Hsum. cbn [fst snd].
  unfold finish_sync.
  destruct (applyDelta E batchSize chatId _ _ _) as [[r|cause] w2]; reflexivity.
Qed.

Lemma slice_prefix (A : Type) (n : Z) (l : list A) :
  0 <= n -> JS.slice 0 n l = firstn (Z.to_nat n) l.
Proof.
  intros Hn. unfold JS.slice, JS.clamp. cbn [Z.ltb Z.compare].
  destruct (Z.ltb_spec n 0); [lia|].
  replace (Z.to_nat (Z.min 0 (Z.of_nat (List.length l)))) with O by lia.
  cbn [skipn]. rewrite Nat.sub_0_r.
  destruct (Z.le_ge_cases n (Z.of_nat (List.length l))) as [Hle|Hge].
  - now rewrite Z.min_l by lia.
  - rewrite Z.min_r, Nat2Z.id by lia.
    now rewrite !firstn_all2 by lia.
Qed.

(** X9.  What a call of [synchronizeChat] that goes through sends, with
    no summaries, a source that lacks nothing, a server that accepts
    every request and a batch size of at least 0: one list request; then,
    if there are new items, one insert request with the chunks of the
    first [batchSize] of them; then, if there are stale hashes, one delete
    request with all of them.  It returns the number of new items minus
    [batchSize] and reports no error. *)
Theorem synchronizeChat_traffic (E : Collab) (batchSize : Z) (w : World)
    (chatId : string) (hs : list Z) :
  settings.enabled_chats (cfg w) = true ->
  syncBlocked w = false ->
  is_send_press w = false ->
  chat_selected (currentChatId w) = Some chatId ->
  settings.summarize (cfg w) = false ->
  missing_requirement w = None ->
  healthy E ->
  server E (requests w) (ReqList chatId (settings.source (cfg w)))
  = Some (mkResponse true (BodyHashes hs)) ->
  0 <= batchSize ->
  let new := newVectorItems (hashedMessagesOf E (chat w)) hs in
  let stale := deletedHashes (hashedMessagesOf E (chat w)) hs in
  fst (synchronizeChat E batchSize w)
  = Z.of_nat (List.length new) - batchSize /\
  requests (snd (synchronizeChat E batchSize w))
  = requests w
    ++ [ReqList chatId (settings.source (cfg w))]
    ++ match new with
       | [] => []
       | _ :: _ =>
           [ReqInsert chatId
              (splitByChunks E (cfg w) (firstn (Z.to_nat batchSize) new))
              (settings.source (cfg w))]
       end
    ++ match stale with
       | [] => []
       | _ :: _ => [ReqDelete chatId stale (settings.source (cfg w))]
       end /\
  toasts (snd (synchronizeChat E batchSize w)) = toasts w.
Proof.
  intros He Hb Hs Hc Hsum Hvalid Hhealthy Hlist Hbatch new stale.
  rewrite (synchronizeChat_run E batchSize w He Hb Hs Hc Hsum Hlist).
  fold new stale. set (w0 := log_request _ (set_syncBlocked true w)).
  unfold applyDelta, bind, get, ret.
  assert (Hins : forall items,
            insertVectorItems E chatId items w0
            = (Normal tt,
               log_request (ReqInsert chatId items (settings.source (cfg w)))
                 w0)).
  { intros items. unfold insertVectorItems, bind, get, fetch, ret.
    rewrite throwIfSourceInvalid_missing.
    change (missing_requirement w0) with (missing_requirement w).
    rewrite Hvalid.
    destruct (Hhealthy (requests w0)
                (ReqInsert chatId items (settings.source (cfg w0))))
      as [response [Hr Hok]].
    rewrite Hr, Hok. reflexivity. }
  assert (Hdel : forall w', cfg w' = cfg w ->
            deleteVectorItems E chatId stale w'
            = (Normal tt,
               log_request (ReqDelete chatId stale (settings.source (cfg w)))
                 w')).
  { intros w' Hcfg. unfold deleteVectorItems, bind, get, fetch, ret.
    destruct (Hhealthy (requests w')
                (ReqDelete chatId stale (settings.source (cfg w'))))
      as [response [Hr Hok]].
    rewrite Hr, Hok, Hcfg. reflexivity. }
  rewrite slice_prefix by exact Hbatch.
  destruct new as [|x new']; destruct stale as [|h stale'].
  - cbn. split; [reflexivity|]. split; reflexivity.
  - cbn [List.length Z.of_nat Z.gtb Z.compare].
    rewrite Hdel by reflexivity. cbn. split; [lia|].
    split; [now rewrite <- app_assoc|reflexivity].
  - cbn [List.length Z.of_nat Z.gtb Z.compare].
    rewrite Hins.
    cbn. split; [lia|]. split; [now rewrite <- app_assoc|reflexivity].
  - cbn [List.length Z.of_nat Z.gtb Z.compare].
    rewrite Hins, Hdel by reflexivity.
    cbn. split; [lia|]. split; [now rewrite <- !app_assoc|reflexivity].
Qed.

Lemma stale_server_healthy : healthy (Sample.collab Cases.stale_server).
Proof.
  intros history r. destruct r; eexists; split; reflexivity.
Defined.

(** Four messages against a store that holds the hashes 1 and 9, with a
    batch of 2: the call lists, inserts the first two of the three new
    messages, deletes the hash 9 and returns 1. *)
Lemma synchronizeChat_traffic_witness :
  let E := Sample.collab Cases.stale_server in
  let w := Sample.world "transformers" false false Sample.four_messages in
  fst (synchronizeChat E 2 w) = 3 - 2 /\
  requests (snd (synchronizeChat E 2 w))
  = [ReqList "chat-1" "transformers";
     ReqInsert "chat-1" [mkItem "bb" 2 1; mkItem "ccc" 3 2] "transformers";
     ReqDelete "chat-1" [9] "transformers"] /\
  toasts (snd (synchronizeChat E 2 w)) = [].
Proof.
  intros E w.
  exact (@synchronizeChat_traffic E 2 w "chat-1" [1; 9] eq_refl eq_refl eq_refl
           eq_refl eq_refl eq_refl stale_server_healthy eq_refl
           ltac:(cbv; discriminate)).
Defined.

(** X10.  A call of [synchronizeChat] with chat vectors enabled, the
    guard free, no generation in progress, a chat selected, summaries
    off, and a list request that the server answers with hashes: when
    there are new items and the source lacks its key, URL, model or
    module, the call sends its list request and nothing else (the stale
    hashes are not deleted either), reports the message of the cause
    (for a missing key, the text of line 280 with its quotation marks),
    returns [-1] and frees the guard. *)
Theorem synchronizeChat_insert_refused (E : Collab) (batchSize : Z)
    (w : World) (chatId : string) (hs : list Z) (cause : Cause) :
  settings.enabled_chats (cfg w) = true ->
  syncBlocked w = false ->
  is_send_press w = false ->
  chat_selected (currentChatId w) = Some chatId ->
  settings.summarize (cfg w) = false ->
  server E (requests w) (ReqList chatId (settings.source (cfg w)))
  = Some (mkResponse true (BodyHashes hs)) ->
  newVectorItems (hashedMessagesOf E (chat w)) hs <> [] ->
  missing_requirement w = Some cause ->
  synchronizeChat E batchSize w
  = (-1,
     set_syncBlocked false
       (log_toast "Vectorization failed" (getErrorMessage (Some cause))
          (log_request (ReqList chatId (settings.source (cfg w)))
             (set_syncBlocked true w)))).
Proof.
  intros He Hb Hs Hc Hsum Hlist Hnew Hmissing.
  rewrite (synchronizeChat_run E batchSize w He Hb Hs Hc Hsum Hlist).
  set (w0 := log_request _ (set_syncBlocked true w)).
  unfold applyDelta, bind, get.
  destruct (newVectorItems (hashedMessagesOf E (chat w)) hs) as [|x new'];
    [congruence|].
  cbn [List.length Z.of_nat Z.gtb Z.compare].
  unfold insertVectorItems, bind. rewrite throwIfSourceInvalid_missing.
  change (missing_requirement w0) with (missing_requirement w).
  rewrite Hmissing. reflexivity.
Qed.

Lemma synchronizeChat_insert_refused_witness :
  let E := Sample.collab Cases.stale_server in
  let w := Sample.world "openai" false false Sample.four_messages in
  fst (synchronizeChat E 5 w) = -1 /\
  requests (snd (synchronizeChat E 5 w)) = [ReqList "chat-1" "openai"] /\
  toasts (snd (synchronizeChat E 5 w))
  = [("Vectorization failed",
      ("API key missing. Save it in the " ++ JS.QUOTE ++ "API Connections"
       ++ JS.QUOTE ++ " panel.")%string)] /\
  syncBlocked (snd (synchronizeChat E 5 w)) = false.
Proof.
  intros E w.
  rewrite (@synchronizeChat_insert_refused E 5 w "chat-1" [1; 9]
             api_key_missing eq_refl eq_refl eq_refl eq_refl eq_refl eq_refl
             ltac:(discriminate) eq_refl).
  repeat split.
Defined.

Lemma filter_none (A : Type) (p : A -> bool) (l : list A) :
  (forall x, In x l -> p x = false) -> filter p l = [].
Proof.
  induction l as [|x l IH]; intros H; cbn; [reflexivity|].
  rewrite (H x (or_introl eq_refl)). apply IH. intros y Hy. apply H. now right.
Qed.

(** X11.  A call of [synchronizeChat] with chat vectors enabled, the
    guard free, no generation in progress, a chat selected and summaries
    off: when the list request is answered with exactly the hashes of
    the chat, the call sends that request and nothing else, reports
    nothing, and returns [0 - batchSize]: a collection that is in step
    is not written to. *)
Theorem synchronizeChat_in_step (E : Collab) (batchSize : Z) (w : World)
    (chatId : string) (hs : list Z) :
  settings.enabled_chats (cfg w) = true ->
  syncBlocked w = false ->
  is_send_press w = false ->
  chat_selected (currentChatId w) = Some chatId ->
  settings.summarize (cfg w) = false ->
  server E (requests w) (ReqList chatId (settings.source (cfg w)))
  = Some (mkResponse true (BodyHashes hs)) ->
  (forall h, In h hs <-> In h (map hash (hashedMessagesOf E (chat w)))) ->
  synchronizeChat E batchSize w
  = (0 - batchSize,
     set_syncBlocked false
       (log_request (ReqList chatId (settings.source (cfg w)))
          (set_syncBlocked true w))).
Proof.
  intros He Hb Hs Hc Hsum Hlist Hsame.
  rewrite (synchronizeChat_run E batchSize w He Hb Hs Hc Hsum Hlist).
  assert (Hnew : newVectorItems (hashedMessagesOf E (chat w)) hs = []).
  { apply filter_none. intros x Hx. apply negb_false_iff, includes_In.
    apply Hsame. now apply in_map. }
  assert (Hdel : deletedHashes (hashedMessagesOf E (chat w)) hs = []).
  { apply filter_none. intros h Hh. apply negb_false_iff, some_hash_In.
    apply Hsame in Hh. apply in_map_iff in Hh. destruct Hh as [y [Hy Hin]].
    now exists y. }
  rewrite Hnew, Hdel. reflexivity.
Qed.

Lemma synchronizeChat_in_step_witness :
  let E := Sample.collab Cases.synced_server in
  let w := Sample.world "transformers" false false Sample.four_messages in
  fst (synchronizeChat E 5 w) = -5 /\
  requests (snd (synchronizeChat E 5 w)) = [ReqList "chat-1" "transformers"].
Proof.
  intros E w.
  rewrite (@synchronizeChat_in_step E 5 w "chat-1" [4; 3; 2; 1] eq_refl
             eq_refl eq_refl eq_refl eq_refl eq_refl).
  - split; reflexivity.
  - intros h. cbn. intuition.
Defined.

(** X12.  With summaries on and a summary source that is neither [main]
    nor [extras], a call of [synchronizeChat] that gets the list of the
    store never inserts or deletes: it fails on the missing array, reports
    the general message, returns [-1] and frees the guard. *)
Theorem synchronizeChat_unknown_summary_source (E : Collab) (batchSize : Z)
    (w : World) (chatId : string) (hs : list Z) :
  settings.enabled_chats (cfg w) = true ->
  syncBlocked w = false ->
  is_send_press w = false ->
  chat_selected (currentChatId w) = Some chatId ->
  settings.summarize (cfg w) = true ->
  settings.summary_source (cfg w) <> "main" ->
  settings.summary_source (cfg w) <> "extras" ->
  server E (requests w) (ReqList chatId (settings.source (cfg w)))
  = Some (mkResponse true (BodyHashes hs)) ->
  synchronizeChat E batchSize w
  = (-1,
     set_syncBlocked false
       (log_toast "Vectorization failed" "Check server console for more details"
          (log_request (ReqList chatId (settings.source (cfg w)))
             (set_syncBlocked true w)))).
Proof.
  intros He Hb Hs Hc Hsum Hmain Hextras Hlist.
  unfold synchronizeChat, waitUntilCondition. rewrite He, Hb, Hs.
  cbn [negb andb].
  unfold synchronizeChat_try, bind, modify, get.
  cbn [currentChatId set_syncBlocked]. rewrite Hc.
  unfold computeDelta, bind, get, ret.
  rewrite (@getSavedHashes_ok E chatId (set_syncBlocked true w) hs Hlist).
  cbn [cfg set_syncBlocked chat]. rewrite Hsum.
  unfold summarize, ret.
  destruct (String.eqb_spec (settings.summary_source (cfg w)) "main");
    [contradiction|].
  destruct (String.eqb_spec (settings.summary_source (cfg w)) "extras");
    [contradiction|].
  reflexivity.
Qed.

Lemma synchronizeChat_unknown_summary_source_witness :
  let E := Sample.collab Cases.stale_server in
  let w := Cases.world_with (Cases.summarizing "webllm") Sample.four_messages in
  fst (synchronizeChat E 5 w) = -1 /\
  requests (snd (synchronizeChat E 5 w)) = [ReqList "chat-1" "transformers"].
Proof.
  intros E w.
  rewrite (@synchronizeChat_unknown_summary_source E 5 w "chat-1" [1; 9]
             eq_refl eq_refl eq_refl eq_refl eq_refl ltac:(discriminate)
             ltac:(discriminate) eq_refl).
  split; reflexivity.
Defined.

(** ** Hashed messages *)

(** X13.  In a chat of distinct messages, every item that
    [synchronizeChat] hashes comes from a message that is not a system
    message, has as index the position of that message in the whole chat
    (system messages counted), as text the message with its macros
    substituted, and as hash the hash of that text. *)
Theorem hashedMessages_positions (E : Collab) (chat : list message)
    (item : Item) :
  NoDup (map msg_ref chat) ->
  In item (hashedMessagesOf E chat) ->
  exists m,
    0 <= index item /\
    nth_error chat (Z.to_nat (index item)) = Some m /\
    is_system m = false /\
    text item = substituteParams E (mes m) /\
    hash item = getStringHash E (text item).
Proof.
  intros Hnd Hin. unfold hashedMessagesOf in Hin.
  apply in_map_iff in Hin. destruct Hin as [m [<- Hm]].
  apply filter_In in Hm. destruct Hm as [Hm Hsys].
  apply negb_true_iff in Hsys.
  destruct (in_split m chat Hm) as [pre [rest ->]].
  exists m. cbn [index text hash].
  rewrite (@indexOf_here pre rest m (@distinct_before pre rest m Hnd)).
  rewrite Nat2Z.id, nth_error_app2, Nat.sub_diag by lia.
  repeat split; auto. lia.
Qed.

Lemma hashedMessages_positions_witness :
  exists m,
    0 <= 2 /\
    nth_error [Sample.msg 0 "A" "a"; mkMessage 1 "System" "note" true;
               Sample.msg 2 "B" "bb"] (Z.to_nat 2) = Some m /\
    is_system m = false /\
    "bb" = substituteParams (Sample.collab Sample.empty_server) (mes m) /\
    2 = getStringHash (Sample.collab Sample.empty_server) "bb".
Proof.
  apply (@hashedMessages_positions (Sample.collab Sample.empty_server)
           [Sample.msg 0 "A" "a"; mkMessage 1 "System" "note" true;
            Sample.msg 2 "B" "bb"] (mkItem "bb" 2 2)).
  - repeat constructor; cbn; intuition discriminate.
  - cbn. auto.
Defined.

(** ** Data bank injection: failures *)

(** X14.  [injectDataBankChunks] sends exactly one request and never
    throws; when the query fails, or returns no collection at all, it
    sets no prompt. *)
Theorem injectDataBankChunks_quiet (E : Collab) (queryText : string)
    (collectionIds : list string) (w : World) :
  requests (injectDataBankChunks E queryText collectionIds w)
  = requests w
    ++ [ReqQueryMulti collectionIds queryText
          (settings.chunk_count_db (cfg w)) (settings.source (cfg w))
          (settings.score_threshold (cfg w))] /\
  (forall cause w1,
     queryMultipleCollections E collectionIds queryText
       (settings.chunk_count_db (cfg w)) (settings.score_threshold (cfg w)) w
     = (Throw cause, w1) ->
     injectDataBankChunks E queryText collectionIds w = w1) /\
  (forall w1,
     queryMultipleCollections E collectionIds queryText
       (settings.chunk_count_db (cfg w)) (settings.score_threshold (cfg w)) w
     = (Normal [], w1) ->
     injectDataBankChunks E queryText collectionIds w = w1).
Proof.
  split; [|split].
  - unfold injectDataBankChunks, queryMultipleCollections, bind, get, fetch,
      ret, throw, setExtensionPrompt, modify.
    destruct (server E (requests w) _) as [response|]; [|reflexivity].
    destruct (ok response); cbn [negb]; [|reflexivity].
    destruct (body response); try reflexivity.
    destruct (JS.truthy (dataBankText results)); reflexivity.
  - intros cause w1 H. unfold injectDataBankChunks, bind. now rewrite H.
  - intros w1 H. unfold injectDataBankChunks, bind. now rewrite H.
Qed.

Lemma injectDataBankChunks_quiet_witness :
  injectDataBankChunks (Sample.collab (fun _ _ => None)) "query" ["file_1"]
    (Sample.world "transformers" false false [])
  = log_request (ReqQueryMulti ["file_1"] "query" 5 "transformers" (1 # 4))
      (Sample.world "transformers" false false []).
Proof.
  apply (proj1 (proj2 (injectDataBankChunks_quiet
                         (Sample.collab (fun _ _ => None)) "query" ["file_1"]
                         (Sample.world "transformers" false false [])))
           None).
  reflexivity.
Defined.

(** ** Files and the data bank *)

Lemma number_to_string_inj (a b : Z) :
  number_to_string a = number_to_string b -> a = b.
Proof.
  unfold number_to_string. intros H.
  apply DecimalZ.to_int_inj.
  apply (f_equal NilEmpty.int_of_string) in H.
  rewrite !NilEmpty.isi in H. now injection H.
Qed.

(** X15.  Two files share a collection exactly when their URLs have the
    same hash: the collection id of a file is [file_] followed by the
    hash of its URL in decimal, which determines the hash. *)
Theorem getFileCollectionId_same (E : Collab) (url1 url2 : string) :
  getFileCollectionId E url1 = getFileCollectionId E url2
  <-> getStringHash E url1 = getStringHash E url2.
Proof.
  unfold getFileCollectionId. split.
  - intros H. cbn in H. injection H as H. now apply number_to_string_inj.
  - intros H. now rewrite H.
Qed.





Lemma sorted_unique (A : Type) (key : A -> Z) (a : list A) :
  forall b,
    StronglySorted (fun x y => key x <= key y) a ->
    StronglySorted (fun x y => key x < key y) b ->
    Permutation a b -> a = b.
Proof.
  induction a as [|x a IH]; intros b Ha Hb Hperm.
  - apply Permutation_nil in Hperm. now subst.
  - destruct b as [|y b];
      [apply Permutation_sym, Permutation_nil in Hperm; discriminate|].
    inversion Ha as [|? ? Ha' Hx]; subst.
    inversion Hb as [|? ? Hb' Hy]; subst.
    rewrite Forall_forall in Hx, Hy.
    assert (Hxy : x = y).
    { assert (Hxin : In x (y :: b))
        by (apply (Permutation_in _ Hperm); now left).
      assert (Hyin : In y (x :: a))
        by (apply (Permutation_in _ (Permutation_sym Hperm)); now left).
      destruct Hxin as [->|Hxin]; [reflexivity|].
      destruct Hyin as [->|Hyin]; [reflexivity|].
      specialize (Hy x Hxin). specialize (Hx y Hyin). lia. }
    subst y. f_equal. apply IH; auto.
    now apply Permutation_cons_inv in Hperm.
Qed.

Lemma Subseq_In (A : Type) (s l : list A) (x : A) :
  Subseq s l -> In x s -> In x l.
Proof.
  induction 1 as [|y s l H IH|y s l H IH]; cbn; intuition.
Qed.

Lemma Subseq_sorted (A : Type) (R : A -> A -> Prop) (s l : list A) :
  Subseq s l -> StronglySorted R l -> StronglySorted R s.
Proof.
  induction 1 as [|y s l H IH|y s l H IH]; intros Hl.
  - constructor.
  - inversion Hl; subst. now apply IH.
  - inversion Hl as [|? ? Hl' Hy]; subst. constructor; [now apply IH|].
    rewrite Forall_forall in *. intros z Hz. apply Hy.
    exact (@Subseq_In A s l z H Hz).
Qed.

Lemma items_of_chunks_sorted (E : Collab) (chunks : list string) :
  forall start,
    StronglySorted (fun x y => index x < index y)
                   (items_of_chunks E chunks start) /\
    Forall (fun x => start <= index x) (items_of_chunks E chunks start).
Proof.
  induction chunks as [|c chunks IH]; intros start; cbn [items_of_chunks].
  - split; constructor.
  - destruct (IH (start + 1)) as [Hs Hall]. split.
    + constructor; [exact Hs|].
      eapply Forall_impl; [|exact Hall]. cbn. intros x Hx. lia.
    + constructor; [cbn; lia|].
      eapply Forall_impl; [|exact Hall]. cbn. intros x Hx. lia.
Qed.

Lemma filter_all (A : Type) (p : A -> bool) (l : list A) :
  (forall x, In x l -> p x = true) -> filter p l = l.
Proof.
  induction l as [|x l IH]; intros H; cbn; [reflexivity|].
  rewrite (H x (or_introl eq_refl)). f_equal. apply IH.
  intros y Hy. apply H. now right.
Qed.

Lemma onlyUnique_from_distinct (A : Type) (eqb : A -> A -> bool) :
  (forall a b, eqb a b = true <-> a = b) ->
  forall rest pre,
    NoDup (pre ++ rest) ->
    onlyUnique_from eqb (pre ++ rest) (Z.of_nat (List.length pre)) rest = rest.
Proof.
  intros Heqb. induction rest as [|x rest IH]; intros pre Hnd;
    [reflexivity|].
  cbn [onlyUnique_from].
  assert (Hfirst : JS.indexOf eqb (pre ++ x :: rest) x
                   = Z.of_nat (List.length pre)).
  { apply (indexOf_first eqb Heqb). apply NoDup_remove_2 in Hnd.
    intros Hin. apply Hnd. apply in_or_app. now left. }
  rewrite Hfirst, Z.eqb_refl. f_equal.
  specialize (IH (pre ++ [x])).
  rewrite <- app_assoc, length_app in IH. cbn [app List.length] in IH.
  replace (Z.of_nat (List.length pre + 1)) with (Z.of_nat (List.length pre) + 1)
    in IH by lia.
  now apply IH.
Qed.

Lemma filter_onlyUnique_distinct (l : list string) :
  NoDup l -> filter_onlyUnique String.eqb l = l.
Proof.
  intros Hnd.
  apply (@onlyUnique_from_distinct string String.eqb String.eqb_eq l [] Hnd).
Qed.

(** X17.  Chunks come back in file order.  When a query returns, in any
    order, a selection of the items that [vectorizeFile] stored for a
    file, with texts that are distinct and not empty,
    [retrieveFileChunks] returns the texts of the selection in the order
    of the file, one per line. *)
Theorem retrieveFileChunks_file_order (E : Collab) (F : Files)
    (chunks : list string) (selected entries : list Item) (hs : list Z)
    (queryText collectionId : string) (w w1 : World) :
  Subseq selected (items_of_chunks E chunks 0) ->
  Permutation entries selected ->
  NoDup (map text selected) ->
  (forall x, In x selected -> text x <> "") ->
  queryCollection E collectionId queryText
    (file_settings.chunk_count (fcfg F)) w
  = (Normal (mkQueryResult hs (Some entries)), w1) ->
  retrieveFileChunks E F queryText collectionId w
  = (Normal (JS.join JS.LF (map text selected)), w1).
Proof.
  intros Hsel Hperm Hnd Hne Hq.
  unfold retrieveFileChunks, bind, ret. rewrite Hq. cbn [metadata].
  assert (Hfilter : filter (fun x => JS.truthy (text x)) entries = entries).
  { apply filter_all. intros x Hx. apply truthy_nonempty, Hne.
    now apply (Permutation_in _ Hperm). }
  rewrite Hfilter.
  assert (Hsorted : JS.sort (fun a b => index a - index b) entries = selected).
  { apply (sorted_unique index).
    - apply sort_sorted. reflexivity.
    - apply (@Subseq_sorted Item _ selected _ Hsel), items_of_chunks_sorted.
    - etransitivity; [apply sort_perm|exact Hperm]. }
  rewrite Hsorted, (filter_onlyUnique_distinct Hnd). reflexivity.
Qed.

Lemma retrieveFileChunks_file_order_witness :
  retrieveFileChunks (Sample.collab FileCases.chunk_server)
    (FileCases.files []) "query" "file_1"
    (Sample.world "transformers" false false [])
  = (Normal ("a" ++ JS.LF ++ "cc")%string,
     log_request (ReqQuery "file_1" "query" 2 "transformers" (1 # 4))
       (Sample.world "transformers" false false [])).
Proof.
  apply (@retrieveFileChunks_file_order (Sample.collab FileCases.chunk_server)
           (FileCases.files []) ["a"; "b"; "cc"]
           [mkItem "a" 1 0; mkItem "cc" 2 2]
           [mkItem "cc" 2 2; mkItem "a" 1 0] [1; 1] "query" "file_1").
  - apply Subseq_keep, Subseq_skip, Subseq_keep, Subseq_nil.
  - apply perm_swap.
  - repeat constructor; cbn; intuition discriminate.
  - intros x [<-|[<-|[]]]; discriminate.
  - reflexivity.
Defined.

Lemma ingestLoop_ids (E : Collab) (F : Files) (dataBank : list FileAttachment) :
  forall ids w r w',
    ingestLoop E F dataBank ids w = (Normal r, w') ->
    r = ids ++ map (fun file => getFileCollectionId E (file_url file)) dataBank.
Proof.
  induction dataBank as [|file rest IH]; intros ids w r w'.
  - cbn. intros [= <- _]. now rewrite app_nil_r.
  - cbn [ingestLoop map]. unfold bind at 1.
    destruct (getSavedHashes E _ w) as [[hs|cause] w1]; [|discriminate].
    destruct (negb (List.length hs =? 0)%nat).
    + intros H. apply IH in H. now rewrite <- app_assoc in H.
    + unfold bind.
      destruct (getFileAttachment F (file_url file)) as [fileText|cause];
        [|discriminate].
      intros H. apply IH in H. now rewrite <- app_assoc in H.
Qed.

(** X18.  When [ingestDataBankAttachments] returns, it returns the
    collection id of every attachment of the data bank (of the source
    asked for, or of all sources), in the order of the data bank, whether
    or not each file was already stored and whether or not its
    vectorisation went through. *)
Theorem ingestDataBankAttachments_ids (E : Collab) (F : Files)
    (source : string) (w w' : World) (ids : list string) :
  ingestDataBankAttachments E F source w = (Normal ids, w') ->
  ids = map (fun file => getFileCollectionId E (file_url file))
            (if JS.truthy source then getDataBankAttachmentsForSource F source
             else getDataBankAttachments F).
Proof.
  unfold ingestDataBankAttachments. intros H.
  now apply ingestLoop_ids in H.
Qed.

Lemma ingestDataBankAttachments_ids_witness :
  ["file_6"; "file_10"]
  = map (fun file =>
           getFileCollectionId (Sample.collab Sample.empty_server)
             (file_url file))
        (if JS.truthy ""
         then getDataBankAttachmentsForSource
                (FileCases.files [mkFile "/a.txt" "a" 10;
                                  mkFile "/notes.txt" "notes" 20]) ""
         else getDataBankAttachments
                (FileCases.files [mkFile "/a.txt" "a" 10;
                                  mkFile "/notes.txt" "notes" 20])).
Proof.
  apply (@ingestDataBankAttachments_ids
           (Sample.collab Sample.empty_server)
           (FileCases.files [mkFile "/a.txt" "a" 10;
                             mkFile "/notes.txt" "notes" 20])
           "" (Sample.world "transformers" false false [])
           (snd (ingestDataBankAttachments
                   (Sample.collab Sample.empty_server)
                   (FileCases.files [mkFile "/a.txt" "a" 10;
                                     mkFile "/notes.txt" "notes" 20])
                   "" (Sample.world "transformers" false false [])))).
  reflexivity.
Defined.

Lemma ingestLoop_stocked (E : Collab) (F : Files) :
  stocked E ->
  forall (dataBank : list FileAttachment) ids w,
  exists w',
    ingestLoop E F dataBank ids w
    = (Normal (ids ++ map (fun file => getFileCollectionId E (file_url file))
                          dataBank), w') /\
    requests w'
    = requests w
      ++ map (fun file => ReqList (getFileCollectionId E (file_url file))
                            (settings.source (cfg w))) dataBank /\
    cfg w' = cfg w.
Proof.
  intros Hstocked. induction dataBank as [|file rest IH]; intros ids w.
  - exists w. cbn. now rewrite !app_nil_r.
  - cbn [ingestLoop map]. unfold bind at 1.
    unfold getSavedHashes, bind, get, fetch.
    destruct (Hstocked (requests w) (getFileCollectionId E (file_url file))
                (settings.source (cfg w))) as [h [hs Hs]].
    rewrite Hs. cbn [ok body negb ret List.length Nat.eqb].
    destruct (IH (ids ++ [getFileCollectionId E (file_url file)])
                (log_request (ReqList (getFileCollectionId E (file_url file))
                                (settings.source (cfg w))) w))
      as [w' [Hrun [Hreq Hcfg]]].
    exists w'. rewrite Hrun, Hreq, Hcfg. cbn [log_request requests cfg].
    now rewrite <- !app_assoc.
Qed.

(** X19.  Ingestion leaves stored files alone: when every collection of
    the data bank already holds something, [ingestDataBankAttachments]
    sends one list request for each attachment, in order, and no insert
    request, and returns the collection ids. *)
Theorem ingestDataBankAttachments_stored (E : Collab) (F : Files)
    (source : string) (w : World) :
  stocked E ->
  let dataBank :=
    if JS.truthy source then getDataBankAttachmentsForSource F source
    else getDataBankAttachments F in
  exists w',
    ingestDataBankAttachments E F source w
    = (Normal (map (fun file => getFileCollectionId E (file_url file))
                   dataBank), w') /\
    requests w'
    = requests w
      ++ map (fun file => ReqList (getFileCollectionId E (file_url file))
                            (settings.source (cfg w))) dataBank.
Proof.
  intros Hstocked dataBank. unfold ingestDataBankAttachments. fold dataBank.
  destruct (ingestLoop_stocked F Hstocked dataBank [] w)
    as [w' [Hrun [Hreq _]]].
  exists w'. now split.
Qed.

Lemma full_server_stocked : stocked (Sample.collab FileCases.full_server).
Proof. intros history collectionId source. now exists 7, []. Defined.

Lemma ingestDataBankAttachments_stored_witness :
  requests
    (snd (ingestDataBankAttachments (Sample.collab FileCases.full_server)
            (FileCases.files [mkFile "/a.txt" "a" 10;
                              mkFile "/notes.txt" "notes" 20])
            "" (Sample.world "transformers" false false [])))
  = [ReqList "file_6" "transformers"; ReqList "file_10" "transformers"].
Proof.
  destruct (@ingestDataBankAttachments_stored
              (Sample.collab FileCases.full_server)
              (FileCases.files [mkFile "/a.txt" "a" 10;
                                mkFile "/notes.txt" "notes" 20])
              "" (Sample.world "transformers" false false [])
              full_server_stocked) as [w' [Hrun Hreq]].
  rewrite Hrun. exact Hreq.
Defined.

(** ** Purging *)

Lemma purgeFileVectorIndex_world (E : Collab) (fileUrl : string) (w : World) :
  cfg (purgeFileVectorIndex E fileUrl w) = cfg w /\
  toasts (purgeFileVectorIndex E fileUrl w) = toasts w /\
  requests (purgeFileVectorIndex E fileUrl w)
  = requests w
    ++ (if settings.enabled_files (cfg w)
        then [ReqPurge (getFileCollectionId E fileUrl)] else []).
Proof.
  unfold purgeFileVectorIndex, fetch.
  destruct (settings.enabled_files (cfg w)); cbn [negb].
  - destruct (server E (requests w) _); cbn; auto.
  - now rewrite app_nil_r.
Qed.

(** X20.  The purge of all files never fails in the eyes of the user:
    with files enabled it sends one purge request for each file, in
    order, and with files disabled it sends none; in both cases, and
    whatever the server answers, it ends by announcing that all files
    were purged. *)
Theorem purgeFiles_always_succeeds (E : Collab) (allFiles : list FileAttachment)
    (w : World) :
  requests (purgeFiles E allFiles w)
  = requests w
    ++ (if settings.enabled_files (cfg w)
        then map (fun file => ReqPurge (getFileCollectionId E (file_url file)))
                 allFiles
        else []) /\
  toasts (purgeFiles E allFiles w)
  = toasts w ++ [("Purge successful", "All files purged")].
Proof.
  unfold purgeFiles. cbn [log_toast requests toasts].
  revert w. induction allFiles as [|file rest IH]; intros w.
  - cbn. destruct (settings.enabled_files (cfg w)); now rewrite app_nil_r.
  - cbn [fold_left map].
    destruct (purgeFileVectorIndex_world E (file_url file) w)
      as [Hcfg [Htoasts Hreq]].
    destruct (IH (purgeFileVectorIndex E (file_url file) w)) as [IHr IHt].
    rewrite IHr, IHt, Hcfg, Htoasts, Hreq.
    split; [|reflexivity].
    destruct (settings.enabled_files (cfg w)); cbn [app].
    + now rewrite <- app_assoc.
    + now rewrite !app_nil_r.
Qed.

(** X21.  [onPurgeClick] sends at most one request.  With no chat
    selected it sends nothing and says so; with chat vectors disabled it
    sends nothing and still announces a purge; with chat vectors enabled
    it sends one purge request for the chat and announces a purge exactly
    when the server accepted it. *)
Theorem onPurgeClick_reports (E : Collab) (w : World) :
  (chat_selected (currentChatId w) = None ->
   onPurgeClick E w = log_toast "Purge aborted" "No chat selected" w) /\
  (forall chatId,
     chat_selected (currentChatId w) = Some chatId ->
     settings.enabled_chats (cfg w) = false ->
     onPurgeClick E w
     = log_toast "Purge successful" "Vector index purged" w) /\
  (forall chatId,
     chat_selected (currentChatId w) = Some chatId ->
     settings.enabled_chats (cfg w) = true ->
     onPurgeClick E w
     = (if match server E (requests w) (ReqPurge chatId) with
           | Some response => ok response
           | None => false
           end
        then log_toast "Purge successful" "Vector index purged"
        else log_toast "Purge failed" "Failed to purge vector index")
         (log_request (ReqPurge chatId) w)).
Proof.
  split; [|split].
  - intros H. unfold onPurgeClick. now rewrite H.
  - intros chatId H He. unfold onPurgeClick, purgeVectorIndex.
    now rewrite H, He.
  - intros chatId H He. unfold onPurgeClick, purgeVectorIndex, fetch.
    rewrite H, He. cbn [negb].
    destruct (server E (requests w) (ReqPurge chatId)) as [response|];
      [|reflexivity].
    now destruct (ok response).
Qed.

Lemma onPurgeClick_reports_witness :
  onPurgeClick (Sample.collab (fun _ _ => None))
    (Sample.world "transformers" false false [])
  = log_toast "Purge failed" "Failed to purge vector index"
      (log_request (ReqPurge "chat-1")
         (Sample.world "transformers" false false [])).
Proof.
  exact (proj2 (proj2 (onPurgeClick_reports (Sample.collab (fun _ _ => None))
                         (Sample.world "transformers" false false [])))
           "chat-1" eq_refl eq_refl).
Defined.

(** ** Model lists *)

Lemma find_is_string (data : list Model) (setting : string) (m : Model) :
  find (fun x => is_string (model_id x) setting) data = Some m ->
  In m data /\ model_id m = Some setting.
Proof.
  intros H. apply find_some in H. destruct H as [Hin Hid]. split; [exact Hin|].
  unfold is_string in Hid. destruct (model_id m) as [id|]; [|discriminate].
  apply String.eqb_eq in Hid. now subst.
Qed.

Lemma first_id_in (data : list Model) :
  first_id data = "" \/ exists m, In m data /\ model_id m = Some (first_id data).
Proof.
  unfold first_id. destruct data as [|m data]; [now left|].
  destruct (model_id m) as [id|] eqn:Hid; [|now left].
  destruct (JS.truthy id); [|now left].
  right. exists m. split; [now left|exact Hid].
Qed.

Lemma keep_or_first_again (data : list Model) (setting : string) :
  keep_or_first data (keep_or_first data setting) = keep_or_first data setting.
Proof.
  unfold keep_or_first at 2.
  destruct (find (fun x => is_string (model_id x) setting) data) eqn:Hf.
  - unfold keep_or_first. now rewrite Hf.
  - unfold keep_or_first. rewrite Hf.
    destruct (find (fun x => is_string (model_id x) (first_id data)) data);
      reflexivity.
Qed.

Lemma keep_or_first_spec (data : list Model) (setting : string) :
  ((exists m, In m data /\ model_id m = Some setting) ->
   keep_or_first data setting = setting) /\
  (keep_or_first data setting = "" \/
   exists m, In m data /\ model_id m = Some (keep_or_first data setting)).
Proof.
  unfold keep_or_first.
  destruct (find (fun x => is_string (model_id x) setting) data) as [m|] eqn:Hf.
  - split; [reflexivity|]. right. exists m. now apply find_is_string.
  - split; [|apply first_id_in].
    intros [m [Hin Hid]]. exfalso.
    apply (find_none _ _ Hf) in Hin. unfold is_string in Hin.
    rewrite Hid, String.eqb_refl in Hin. discriminate.
Qed.

(** X22.  After [loadOllamaModels] has taken a list, the selected Ollama
    model is the one that was selected if the list has it, and in any
    case is a model of the list or the empty string; there is one option
    for each model, in order, selected exactly when its id is the selected
    model; and loading the same list again changes nothing.  A value that
    is not a list changes nothing at all. *)
Theorem loadOllamaModels_selection (data : list Model) (s : textgen.t) :
  let s' := loadOllamaModels (Some data) s in
  ((exists m, In m data /\ model_id m = Some (textgen.ollama_model s)) ->
   textgen.ollama_model s' = textgen.ollama_model s) /\
  (textgen.ollama_model s' = "" \/
   exists m, In m data /\ model_id m = Some (textgen.ollama_model s')) /\
  map option_value (textgen.ollama_options s')
  = map (fun m => dom_string (model_id m)) data /\
  map option_selected (textgen.ollama_options s')
  = map (fun m => is_string (model_id m) (textgen.ollama_model s')) data /\
  loadOllamaModels (Some data) s' = s' /\
  loadOllamaModels None s = s.
Proof.
  intros s'. subst s'. unfold loadOllamaModels.
  cbn [textgen.ollama_model textgen.ollama_options textgen.dreamgen_model
       textgen.dreamGenModels textgen.dreamgen_options].
  destruct (keep_or_first_spec data (textgen.ollama_model s)) as [Hkeep Hin].
  split; [exact Hkeep|]. split; [exact Hin|].
  rewrite !map_map. cbn [option_value option_selected].
  split; [reflexivity|]. split; [reflexivity|].
  split; [now rewrite keep_or_first_again|reflexivity].
Qed.

Lemma loadOllamaModels_selection_witness :
  textgen.ollama_model
    (loadOllamaModels
       (Some [mkModel (Some "llama3") (Some "Llama 3") None;
              mkModel (Some "phi3") (Some "Phi 3") None])
       (textgen.mk "phi3" "" [] [] []))
  = "phi3".
Proof.
  apply (proj1 (loadOllamaModels_selection
                  [mkModel (Some "llama3") (Some "Llama 3") None;
                   mkModel (Some "phi3") (Some "Phi 3") None]
                  (textgen.mk "phi3" "" [] [] []))).
  exists (mkModel (Some "phi3") (Some "Phi 3") None). split; [|reflexivity].
  right. now left.
Defined.

Lemma tokenizer_of_found (s : textgen.t) (m : Model) :
  find (fun x => is_string (model_id x) (textgen.dreamgen_model s))
       (textgen.dreamGenModels s) = Some m ->
  exists t, getCurrentDreamGenModelTokenizer s = Normal t /\
            t <> OPENAI_TOKENIZER /\ t <> LLAMA3.
Proof.
  intros Hf. unfold getCurrentDreamGenModelTokenizer. rewrite Hf.
  destruct (find_is_string _ _ Hf) as [_ Hid]. rewrite Hid.
  destruct (String.prefix "opus-v1-sm" (textgen.dreamgen_model s));
    [eexists; split; [reflexivity|split; discriminate]|].
  destruct (String.prefix "opus-v1-lg" (textgen.dreamgen_model s));
    [eexists; split; [reflexivity|split; discriminate]|].
  destruct (String.prefix "opus-v1-xl" (textgen.dreamgen_model s));
    eexists; (split; [reflexivity|split; discriminate]).
Qed.

(** X23.  [getCurrentDreamGenModelTokenizer] after [loadDreamGenModels]:
    once a list whose first model has a non-empty id has been loaded, the
    function returns a tokenizer, never the OpenAI or the Llama 3 one;
    once an empty list has been loaded, it throws, whatever model was
    selected before. *)
Theorem dreamGen_tokenizer_after_load (data : list Model) (s : textgen.t) :
  let s' := loadDreamGenModels (Some data) s in
  (data = [] -> getCurrentDreamGenModelTokenizer s' = Throw None) /\
  (forall m rest id,
     data = m :: rest -> model_id m = Some id -> id <> "" ->
     exists t, getCurrentDreamGenModelTokenizer s' = Normal t /\
               t <> OPENAI_TOKENIZER /\ t <> LLAMA3).
Proof.
  intros s'. subst s'. split.
  - intros ->. reflexivity.
  - intros m rest id -> Hid Hne.
    unfold loadDreamGenModels.
    set (selected := keep_or_first (m :: rest) (textgen.dreamgen_model s)).
    assert (Hfound : exists m', find (fun x => is_string (model_id x) selected)
                                     (m :: rest) = Some m').
    { subst selected. unfold keep_or_first.
      destruct (find (fun x => is_string (model_id x) (textgen.dreamgen_model s))
                     (m :: rest)) as [m'|] eqn:Hf; [eauto|].
      exists m. unfold first_id. rewrite Hid, (truthy_nonempty Hne).
      cbn [find]. unfold is_string at 1. now rewrite Hid, String.eqb_refl. }
    destruct Hfound as [m' Hf].
    now apply (@tokenizer_of_found
                 (textgen.mk (textgen.ollama_model s) selected (m :: rest)
                    (textgen.ollama_options s) _) m').
Qed.

Lemma dreamGen_tokenizer_after_load_witness :
  getCurrentDreamGenModelTokenizer
    (loadDreamGenModels
       (Some [mkModel (Some "opus-v1-lg") None None;
              mkModel (Some "opus-v1-xl") None None])
       (textgen.mk "" "gone" [] [] []))
  = Normal YI.
Proof.
  destruct (proj2 (dreamGen_tokenizer_after_load
                     [mkModel (Some "opus-v1-lg") None None;
                      mkModel (Some "opus-v1-xl") None None]
                     (textgen.mk "" "gone" [] [] []))
              (mkModel (Some "opus-v1-lg") None None)
              [mkModel (Some "opus-v1-xl") None None] "opus-v1-lg"
              eq_refl eq_refl ltac:(discriminate)) as [t [Ht _]].
  reflexivity.
Defined.

(** ** Which requests a step sends *)

Section Sends.
Variable P : Request -> Prop.

Lemma sends_ret (A : Type) (a : A) : sends P (ret a).
Proof.
  intros w c w' [= <- <-]. exists []. now rewrite app_nil_r.
Qed.

Lemma sends_throw (A : Type) (cause : option Cause) :
  sends P (@throw A cause).
Proof.
  intros w c w' [= <- <-]. exists []. now rewrite app_nil_r.
Qed.

Lemma sends_get : sends P get.
Proof.
  intros w c w' [= <- <-]. exists []. now rewrite app_nil_r.
Qed.

Lemma sends_pure (A : Type) (f : World -> Completion A) :
  sends P (fun w => (f w, w)).
Proof.
  intros w c w' [= <- <-]. exists []. now rewrite app_nil_r.
Qed.

Lemma sends_bind (A B : Type) (m : M A) (k : A -> M B) :
  sends P m -> (forall a, sends P (k a)) -> sends P (bind m k).
Proof.
  intros Hm Hk w c w'. unfold bind.
  destruct (m w) as [[a|cause] w1] eqn:Hrun.
  - intros Hrest. destruct (Hm _ _ _ Hrun) as [new1 [Hr1 Hp1]].
    destruct (Hk a _ _ _ Hrest) as [new2 [Hr2 Hp2]].
    exists (new1 ++ new2). rewrite Hr2, Hr1, app_assoc. split; [reflexivity|].
    apply Forall_app. now split.
  - intros [= <- <-]. now apply (Hm _ _ _ Hrun).
Qed.

Lemma sends_fetch (E : Collab) (r : Request) : P r -> sends P (fetch E r).
Proof.
  intros Hr w c w'. unfold fetch.
  destruct (server E (requests w) r); intros [= <- <-];
    exists [r]; (split; [reflexivity|now constructor]).
Qed.

Lemma sends_throwIfSourceInvalid : sends P throwIfSourceInvalid.
Proof.
  intros w c w'. rewrite throwIfSourceInvalid_missing. intros [= <- <-].
  exists []. now rewrite app_nil_r.
Qed.

Lemma sends_getSavedHashes (E : Collab) (collectionId : string) :
  (forall source, P (ReqList collectionId source)) ->
  sends P (getSavedHashes E collectionId).
Proof.
  intros Hp. unfold getSavedHashes.
  apply sends_bind; [apply sends_get|]. intros w.
  apply sends_bind; [now apply sends_fetch|]. intros response.
  destruct (negb (ok response)); [apply sends_throw|].
  destruct (body response); try apply sends_throw. apply sends_ret.
Qed.

Lemma sends_insertVectorItems (E : Collab) (collectionId : string)
    (items : list Item) :
  (forall source, P (ReqInsert collectionId items source)) ->
  sends P (insertVectorItems E collectionId items).
Proof.
  intros Hp. unfold insertVectorItems.
  apply sends_bind; [apply sends_throwIfSourceInvalid|]. intros _.
  apply sends_bind; [apply sends_get|]. intros w.
  apply sends_bind; [now apply sends_fetch|]. intros response.
  destruct (negb (ok response)); [apply sends_throw|apply sends_ret].
Qed.

Lemma sends_deleteVectorItems (E : Collab) (collectionId : string)
    (hs : list Z) :
  (forall source, P (ReqDelete collectionId hs source)) ->
  sends P (deleteVectorItems E collectionId hs).
Proof.
  intros Hp. unfold deleteVectorItems.
  apply sends_bind; [apply sends_get|]. intros w.
  apply sends_bind; [now apply sends_fetch|]. intros response.
  destruct (negb (ok response)); [apply sends_throw|apply sends_ret].
Qed.

Lemma sends_queryCollection (E : Collab) (collectionId searchText : string)
    (topK : Z) :
  (forall source threshold,
     P (ReqQuery collectionId searchText topK source threshold)) ->
  sends P (queryCollection E collectionId searchText topK).
Proof.
  intros Hp. unfold queryCollection.
  apply sends_bind; [apply sends_get|]. intros w.
  apply sends_bind; [now apply sends_fetch|]. intros response.
  destruct (negb (ok response)); [apply sends_throw|].
  destruct (body response); try apply sends_throw. apply sends_ret.
Qed.

Lemma sends_queryMultipleCollections (E : Collab) (collectionIds : list string)
    (searchText : string) (topK : Z) (threshold : Q) :
  (forall source,
     P (ReqQueryMulti collectionIds searchText topK source threshold)) ->
  sends P (queryMultipleCollections E collectionIds searchText topK threshold).
Proof.
  intros Hp. unfold queryMultipleCollections.
  apply sends_bind; [apply sends_get|]. intros w.
  apply sends_bind; [now apply sends_fetch|]. intros response.
  destruct (negb (ok response)); [apply sends_throw|].
  destruct (body response); try apply sends_throw. apply sends_ret.
Qed.

Hypothesis summaries : forall t, P (ReqSummarize t).

Lemma sends_summarizeExtra (E : Collab) (hashedMessages : list Item) :
  sends P (summarizeExtra E hashedMessages).
Proof.
  intros w c w' Hrun.
  destruct (summarizeExtra_total E hashedMessages w)
    as [r [w1 [Hr [_ Hreq]]]].
  rewrite Hr in Hrun. injection Hrun as <- <-.
  eexists. split; [exact Hreq|].
  destruct (apiUrl E); [|constructor].
  apply Forall_forall. intros x Hx. apply in_map_iff in Hx.
  destruct Hx as [item [<- _]]. apply summaries.
Qed.

Lemma sends_summarizeMain (E : Collab) (hashedMessages : list Item) :
  sends P (summarizeMain E hashedMessages).
Proof.
  induction hashedMessages as [|element rest IH]; cbn [summarizeMain].
  - apply sends_ret.
  - apply sends_bind; [apply sends_get|]. intros w.
    apply sends_bind; [apply (sends_pure (fun _ => _))|]. intros summary.
    apply sends_bind; [exact IH|]. intros rest'. apply sends_ret.
Qed.

Lemma sends_summarize (E : Collab) (hashedMessages : list Item)
    (endpoint : string) :
  sends P (summarize E hashedMessages endpoint).
Proof.
  unfold summarize. destruct (String.eqb endpoint "main").
  - apply sends_bind; [apply sends_summarizeMain|]. intros r. apply sends_ret.
  - destruct (String.eqb endpoint "extras"); [|apply sends_ret].
    apply sends_bind; [apply sends_summarizeExtra|]. intros r. apply sends_ret.
Qed.

Lemma sends_getQueryText (E : Collab) (chat : list message) :
  sends P (getQueryText E chat).
Proof.
  unfold getQueryText.
  apply sends_bind; [apply sends_get|]. intros w.
  apply sends_bind; [|intros hm; apply sends_ret].
  destruct (settings.summarize (cfg w) && settings.summarize_sent (cfg w));
    [|apply sends_ret].
  apply sends_bind; [apply sends_summarize|]. intros r.
  destruct r; [apply sends_ret|apply sends_throw].
Qed.
End Sends.

(** X24.  Retrieval only reads.  Whatever the chat, the settings and the
    answers of the server, the requests that [getQueryText], chat
    retrieval in [rearrangeChat], [injectDataBankChunks] and
    [retrieveFileChunks] add to the log are queries and requests for a
    summary: they never insert into, delete from or purge a collection,
    and never take a request back. *)
Theorem retrieval_only_reads (E : Collab) (F : Files) (chat : list message)
    (queryText collectionId : string) (collectionIds : list string)
    (w : World) :
  (exists new,
     requests (snd (getQueryText E chat w)) = requests w ++ new /\
     Forall reads_only new) /\
  (exists new,
     requests (snd (rearrangeChat_retrieve E chat w)) = requests w ++ new /\
     Forall reads_only new) /\
  (exists new,
     requests (injectDataBankChunks E queryText collectionIds w)
     = requests w ++ new /\
     Forall reads_only new) /\
  (exists new,
     requests (snd (retrieveFileChunks E F queryText collectionId w))
     = requests w ++ new /\
     Forall reads_only new).
Proof.
  assert (Hsum : forall t, reads_only (ReqSummarize t)) by (intros; exact I).
  split; [|split; [|split]].
  - destruct (getQueryText E chat w) as [c w'] eqn:Hrun.
    exact (@sends_getQueryText reads_only Hsum E chat _ _ _ Hrun).
  - assert (Hchats : sends reads_only (rearrangeChat_chats E chat)).
    { unfold rearrangeChat_chats.
      apply sends_bind; [apply sends_get|]. intros w0.
      destruct (negb (settings.enabled_chats (cfg w0))); [apply sends_ret|].
      destruct (chat_selected (currentChatId w0)); [|apply sends_ret].
      destruct (Z.of_nat (List.length chat) <? settings.protect (cfg w0));
        [apply sends_ret|].
      apply sends_bind; [now apply sends_getQueryText|]. intros q.
      destruct (String.length q =? 0)%nat; [apply sends_ret|].
      apply sends_bind; [apply sends_queryCollection; intros; exact I|].
      intros r.
      destruct (List.length _ =? 0)%nat; [apply sends_ret|].
      apply sends_bind; [|intros; apply sends_ret].
      unfold setExtensionPrompt, modify. intros w1 c w2 [= <- <-].
      exists []. cbn. now rewrite app_nil_r. }
    unfold rearrangeChat_retrieve.
    destruct (rearrangeChat_chats E chat w) as [[chat'|cause] w'] eqn:Hrun;
      apply Hchats in Hrun; exact Hrun.
  - assert (H : sends reads_only
                  (queryResults <- queryMultipleCollections E collectionIds
                                     queryText
                                     (settings.chunk_count_db (cfg w))
                                     (settings.score_threshold (cfg w)) ;;
                   if negb (JS.truthy (dataBankText queryResults)) then ret tt
                   else
                     setExtensionPrompt EXTENSION_PROMPT_TAG_DB
                       (substituteParams E
                          (JS.replace_ci "{{text}}"
                             (settings.file_template_db (cfg w))
                             (dataBankText queryResults)))
                       (settings.file_position_db (cfg w))
                       (settings.file_depth_db (cfg w))
                       (settings.include_wi (cfg w))
                       (Some (settings.file_depth_role_db (cfg w))))).
    { apply sends_bind;
        [apply sends_queryMultipleCollections; intros; exact I|].
      intros r. destruct (negb (JS.truthy (dataBankText r)));
        [apply sends_ret|].
      unfold setExtensionPrompt, modify. intros w1 c w2 [= <- <-].
      exists []. cbn. now rewrite app_nil_r. }
    unfold injectDataBankChunks.
    match goal with
    | |- context [snd (?m w)] => destruct (m w) as [c w'] eqn:Hrun
    end.
    exact (H _ _ _ Hrun).
  - assert (H : sends reads_only (retrieveFileChunks E F queryText collectionId)).
    { unfold retrieveFileChunks.
      apply sends_bind; [apply sends_queryCollection; intros; exact I|].
      intros r. destruct (metadata r); [apply sends_ret|apply sends_throw]. }
    destruct (retrieveFileChunks E F queryText collectionId w) as [c w'] eqn:Hrun.
    exact (H _ _ _ Hrun).
Qed.

(** ** World info activation *)

Lemma get_own_In (A : Type) (properties : list (string * A)) (key : string)
    (v : A) :
  get_own properties key = Some v -> In (key, v) properties.
Proof.
  induction properties as [|[k v0] rest IH]; cbn; [discriminate|].
  destruct (String.eqb k key) eqn:Hk.
  - apply String.eqb_eq in Hk. intros [= ->]. left. now subst.
  - intros H. right. now apply IH.
Qed.

Lemma get_own_None (A : Type) (properties : list (string * A)) (key : string) :
  ~ In key (map fst properties) -> get_own properties key = None.
Proof.
  induction properties as [|[k v0] rest IH]; cbn; [reflexivity|].
  intros Hn. destruct (String.eqb k key) eqn:Hk.
  - apply String.eqb_eq in Hk. exfalso. apply Hn. now left.
  - apply IH. intros Hin. apply Hn. now right.
Qed.

Lemma push_own_In (properties : list (string * list WIEntry)) (key : string)
    (entry : WIEntry) (k : string) (l : list WIEntry) :
  In (k, l) (push_own properties key entry) ->
  In (k, l) properties \/
  (k = key /\
   (l = [entry] \/ exists l0, In (key, l0) properties /\ l = l0 ++ [entry])).
Proof.
  induction properties as [|[k0 v0] rest IH]; cbn.
  - intros [[= <- <-]|[]]. right. split; [reflexivity|now left].
  - destruct (String.eqb k0 key) eqn:Hk.
    + apply String.eqb_eq in Hk. subst k0. intros [[= <- <-]|Hin].
      * right. split; [reflexivity|]. right. exists v0. split; [now left|reflexivity].
      * left. now right.
    + intros [[= <- <-]|Hin].
      * left. now left.
      * destruct (IH Hin) as [H|[-> [->|[l0 [H ->]]]]].
        -- left. now right.
        -- right. split; [reflexivity|now left].
        -- right. split; [reflexivity|]. right. exists l0. split; [now right|reflexivity].
Qed.

Lemma push_own_keys (properties : list (string * list WIEntry)) (key : string)
    (entry : WIEntry) (k : string) :
  In k (map fst (push_own properties key entry)) <->
  k = key \/ In k (map fst properties).
Proof.
  induction properties as [|[k0 v0] rest IH]; cbn.
  - intuition.
  - destruct (String.eqb k0 key) eqn:Hk; cbn.
    + apply String.eqb_eq in Hk. subst k0. intuition.
    + rewrite IH. intuition.
Qed.

Lemma group_entry_groups (W : WorldInfo) (all : list WIEntry) (g : Grouped)
    (entry : WIEntry) :
  groups_of W all g -> In entry all -> groups_of W all (group_entry W g entry).
Proof.
  intros Hg Hin. unfold group_entry.
  destruct (kept W entry) eqn:Hk; cbn [negb]; [|exact Hg].
  destruct (String.eqb (entry_world entry) "__proto__"); [exact Hg|].
  intros k l Hkl e He. cbn [own] in Hkl.
  destruct (push_own_In _ _ _ _ _ Hkl) as [H|[-> [->|[l0 [H ->]]]]].
  - exact (Hg _ _ H _ He).
  - destruct He as [<-|[]]. now repeat split.
  - apply in_app_or in He. destruct He as [He|[<-|[]]].
    + exact (Hg _ _ H _ He).
    + now repeat split.
Qed.

Lemma groupEntries_groups (W : WorldInfo) (all : list WIEntry) :
  groups_of W all (groupEntries W all).
Proof.
  unfold groupEntries.
  assert (H : forall entries g,
             (forall e, In e entries -> In e all) ->
             groups_of W all g ->
             groups_of W all (fold_left (group_entry W) entries g)).
  { induction entries as [|e entries IH]; intros g Hall Hg; cbn; [exact Hg|].
    apply IH; [intros x Hx; apply Hall; now right|].
    apply group_entry_groups; [exact Hg|]. apply Hall. now left. }
  apply H; [now intros|]. intros k l [].
Qed.

(** The names of the groups are the worlds of the kept entries, the
    world [__proto__] apart. *)
Lemma groupEntries_keys (W : WorldInfo) (entries : list WIEntry) (k : string) :
  In k (map fst (own (groupEntries W entries))) <->
  exists e, In e entries /\ kept W e = true /\ entry_world e = k /\
            k <> "__proto__".
Proof.
  unfold groupEntries.
  assert (H : forall entries g,
             In k (map fst (own (fold_left (group_entry W) entries g))) <->
             In k (map fst (own g)) \/
             exists e, In e entries /\ kept W e = true /\ entry_world e = k /\
                       k <> "__proto__").
  { clear entries. induction entries as [|e entries IH]; intros g; cbn [fold_left].
    - split; [now left|]. intros [H|[e [[] _]]]. exact H.
    - rewrite IH. unfold group_entry at 1.
      destruct (kept W e) eqn:Hk; cbn [negb].
      + destruct (String.eqb (entry_world e) "__proto__") eqn:Hp; cbn [own].
        * apply String.eqb_eq in Hp. split.
          -- intros [H|[x [Hx Hrest]]]; [now left|]. right. exists x.
             split; [now right|exact Hrest].
          -- intros [H|[x [[<-|Hx] Hrest]]]; [now left| |].
             ++ destruct Hrest as [_ [Hw Hn]]. congruence.
             ++ right. now exists x.
        * apply String.eqb_neq in Hp. rewrite push_own_keys. split.
          -- intros [[->|H]|[x [Hx Hrest]]].
             ++ right. exists e. repeat split; [now left|exact Hk|exact Hp].
             ++ now left.
             ++ right. exists x. split; [now right|exact Hrest].
          -- intros [H|[x [[<-|Hx] Hrest]]].
             ++ left. now right.
             ++ left. left. symmetry. apply Hrest.
             ++ right. now exists x.
      + split.
        * intros [H|[x [Hx Hrest]]]; [now left|]. right. exists x.
          split; [now right|exact Hrest].
        * intros [H|[x [[<-|Hx] Hrest]]]; [now left| |].
          -- destruct Hrest as [Hk' _]. congruence.
          -- right. now exists x. }
  rewrite H. cbn. intuition.
Qed.

Lemma own_keys_In (A : Type) (properties : list (string * A)) (k : string) :
  In k (own_keys properties) <-> In k (map fst properties).
Proof.
  unfold own_keys. rewrite in_app_iff.
  split.
  - intros [H|H].
    + apply (Permutation_in _ (sort_perm _ _)) in H.
      apply filter_In in H. apply H.
    + apply filter_In in H. apply H.
  - intros H. destruct (is_index k) eqn:Hi.
    + left. apply (Permutation_in _ (Permutation_sym (sort_perm _ _))).
      apply filter_In. now split.
    + right. apply filter_In. split; [exact H|]. now rewrite Hi.
Qed.

Lemma sends_syncWorlds (E : Collab) (W : WorldInfo) (all : list WIEntry)
    (g : Grouped) :
  groups_of W all g ->
  forall worlds ids,
    sends (world_info_request E W all) (syncWorlds E g worlds ids).
Proof.
  intros Hg. induction worlds as [|world rest IH]; intros ids; cbn [syncWorlds].
  - apply sends_ret.
  - apply sends_bind; [apply sends_getSavedHashes; intros; exact I|].
    intros saved.
    destruct (get_own (own g) world) as [entries|] eqn:Hget; [|apply sends_throw].
    apply get_own_In in Hget.
    apply sends_bind.
    { destruct (_ >? 0); [|apply sends_ret].
      apply sends_insertVectorItems. intros source item Hitem.
      apply in_map_iff in Hitem. destruct Hitem as [e [<- He]].
      apply filter_In in He. destruct He as [He _].
      destruct (Hg _ _ Hget _ He) as [Hall [Hk Hw]].
      exists e. repeat split; [exact Hall|exact Hk|]. now rewrite Hw. }
    intros _. apply sends_bind.
    { destruct (_ >? 0); [|apply sends_ret].
      apply sends_deleteVectorItems. intros; exact I. }
    intros _. apply IH.
Qed.

Lemma sends_bind_val (P : Request -> Prop) (A B : Type) (m : M A)
    (k : A -> M B) :
  sends P m ->
  (forall a, (exists w w', m w = (Normal a, w')) -> sends P (k a)) ->
  sends P (bind m k).
Proof.
  intros Hm Hk w c w'. unfold bind.
  destruct (m w) as [[a|cause] w1] eqn:Hrun.
  - intros Hrest. destruct (Hm _ _ _ Hrun) as [new1 [Hr1 Hp1]].
    assert (Ha : exists w w', m w = (Normal a, w')) by now exists w, w1.
    destruct (Hk a Ha _ _ _ Hrest) as [new2 [Hr2 Hp2]].
    exists (new1 ++ new2). rewrite Hr2, Hr1, app_assoc. split; [reflexivity|].
    apply Forall_app. now split.
  - intros [= <- <-]. now apply (Hm _ _ _ Hrun).
Qed.

Lemma sends_activateWorldInfo (E : Collab) (W : WorldInfo)
    (chat : list message) (entries : list WIEntry) :
  getSortedEntries W = Normal (Some entries) ->
  sends (world_info_request E W entries) (activateWorldInfo_run E W chat).
Proof.
  intros Hsorted. unfold activateWorldInfo_run.
  apply sends_bind; [apply sends_get|]. intros w.
  destruct (negb (settings.enabled_world_info (cfg w))); [apply sends_ret|].
  apply sends_bind_val;
    [apply (@sends_pure _ _ (fun _ => getSortedEntries W))|].
  intros sorted [w0 [w1 Hrun]]. rewrite Hsorted in Hrun.
  injection Hrun as <- _.
  destruct entries as [|e l]; [apply sends_ret|].
  destruct (_ =? 0)%nat; [apply sends_ret|].
  apply sends_bind; [apply sends_syncWorlds, groupEntries_groups|].
  intros ids.
  apply sends_bind; [apply sends_getQueryText; intros; exact I|].
  intros queryText.
  destruct (_ =? 0)%nat; [apply sends_ret|].
  apply sends_bind;
    [apply sends_queryMultipleCollections; intros; exact I|].
  intros queryResults. apply sends_ret.
Qed.

Lemma returns_ret (A : Type) (Q : A -> Prop) (a : A) : Q a -> returns Q (ret a).
Proof. intros Ha w a' w' [= <- _]. exact Ha. Qed.

Lemma returns_bind (A B : Type) (Q : B -> Prop) (m : M A) (k : A -> M B) :
  (forall a, (exists w w', m w = (Normal a, w')) -> returns Q (k a)) ->
  returns Q (bind m k).
Proof.
  intros Hk w b w'. unfold bind.
  destruct (m w) as [[a|cause] w1] eqn:Hrun; [|discriminate].
  apply Hk. now exists w, w1.
Qed.

Lemma Subseq_nil_l (A : Type) (l : list A) : Subseq [] l.
Proof. induction l; now constructor. Qed.

Lemma bind_throws (A B : Type) (m : M A) (k : A -> M B) (w : World) :
  (forall a w1, exists cause, fst (k a w1) = Throw cause) ->
  exists cause, fst (bind m k w) = Throw cause.
Proof.
  intros Hk. unfold bind. destruct (m w) as [[a|cause] w1]; [apply Hk|].
  now exists cause.
Qed.

Lemma throws_bind (A B : Type) (m : M A) (k : A -> M B) (w : World) :
  (exists cause, fst (m w) = Throw cause) ->
  exists cause, fst (bind m k w) = Throw cause.
Proof.
  intros [cause Hm]. unfold bind. destruct (m w) as [[a|cause'] w1];
    [discriminate|]. now exists cause'.
Qed.

Lemma syncWorlds_missing (E : Collab) (g : Grouped) (missing : string) :
  get_own (own g) missing = None ->
  forall worlds, In missing worlds ->
    forall ids w, exists cause, fst (syncWorlds E g worlds ids w) = Throw cause.
Proof.
  intros Hnone. induction worlds as [|world rest IH]; intros Hin ids w;
    [destruct Hin|]. cbn [syncWorlds].
  apply bind_throws. intros saved w1.
  destruct (get_own (own g) world) as [entries|] eqn:Hget;
    [|now exists None].
  assert (Hrest : In missing rest).
  { destruct Hin as [->|H]; [congruence|exact H]. }
  apply bind_throws. intros _ w2. apply bind_throws. intros _ w3.
  now apply IH.
Qed.

Lemma groupEntries_proto (W : WorldInfo) (entries : list WIEntry) :
  (exists e, In e entries /\ kept W e = true /\ entry_world e = "__proto__") ->
  exists e', proto (groupEntries W entries) = Some [e'].
Proof.
  unfold groupEntries.
  assert (H : forall entries g,
             (exists e', proto g = Some [e']) \/
             (exists e, In e entries /\ kept W e = true /\
                        entry_world e = "__proto__") ->
             exists e', proto (fold_left (group_entry W) entries g) = Some [e']).
  { clear entries. induction entries as [|e entries IH]; intros g Hg;
      cbn [fold_left].
    - destruct Hg as [Hg|[x [[] _]]]. exact Hg.
    - apply IH. unfold group_entry.
      destruct Hg as [Hg|[x [[<-|Hx] [Hk Hw]]]].
      + destruct (negb (kept W e)); [now left|].
        destruct (String.eqb (entry_world e) "__proto__"); cbn [proto];
          left; [now exists e|exact Hg].
      + rewrite Hk, Hw. cbn. left. now exists e.
      + right. now exists x. }
  intros Hex. apply H. now right.
Qed.

Lemma own_empty (A : Type) (properties : list (string * A)) :
  (forall k, ~ In k (map fst properties)) -> properties = [].
Proof.
  destruct properties as [|[k v] rest]; [reflexivity|].
  intros H. exfalso. apply (H k). now left.
Qed.

(** X25.  What world info activation sends.  With [entries] the sorted
    entries, every request of [activateWorldInfo] is added to the log,
    none is a purge or a query of a single collection, and every item of
    every insertion is the item of an entry that passed the four tests of
    the grouping loop (it has a world and a text, is not disabled, and is
    vectorized unless all entries are enabled), sent to the collection of
    the world of that entry. *)
Theorem activateWorldInfo_inserts_kept (E : Collab) (W : WorldInfo)
    (chat : list message) (entries : list WIEntry) (w : World) :
  getSortedEntries W = Normal (Some entries) ->
  exists new,
    requests (snd (activateWorldInfo_run E W chat w)) = requests w ++ new /\
    Forall (world_info_request E W entries) new.
Proof.
  intros Hsorted.
  destruct (activateWorldInfo_run E W chat w) as [c w'] eqn:Hrun.
  exact (@sends_activateWorldInfo E W chat entries Hsorted _ _ _ Hrun).
Qed.

Lemma activateWorldInfo_inserts_kept_witness :
  exists new,
    requests (snd (activateWorldInfo_run
                     (Sample.collab WorldCases.lore_server)
                     WorldCases.world_info Sample.four_messages
                     (WorldCases.world Sample.four_messages)))
    = requests (WorldCases.world Sample.four_messages) ++ new /\
    Forall (world_info_request (Sample.collab WorldCases.lore_server)
              WorldCases.world_info WorldCases.entries) new.
Proof.
  apply (@activateWorldInfo_inserts_kept
           (Sample.collab WorldCases.lore_server) WorldCases.world_info
           Sample.four_messages WorldCases.entries
           (WorldCases.world Sample.four_messages) eq_refl).
Defined.

(** X26.  Activation goes by the hash of the text.  When
    [activateWorldInfo] returns, the entries it activates are entries of
    the sorted list in the order of that list, and an entry of the list
    whose text has the hash of the text of an activated entry is
    activated too, whether it passed the tests of the grouping loop or
    not. *)
Theorem activateWorldInfo_by_content (E : Collab) (W : WorldInfo)
    (chat : list message) (entries activated : list WIEntry) (w w' : World) :
  getSortedEntries W = Normal (Some entries) ->
  activateWorldInfo_run E W chat w = (Normal activated, w') ->
  Subseq activated entries /\
  forall e1 e2,
    In e1 activated -> In e2 entries ->
    getStringHash E (entry_content e2) = getStringHash E (entry_content e1) ->
    In e2 activated.
Proof.
  intros Hsorted.
  set (Q := fun activated : list WIEntry =>
              Subseq activated entries /\
              forall e1 e2,
                In e1 activated -> In e2 entries ->
                getStringHash E (entry_content e2)
                = getStringHash E (entry_content e1) ->
                In e2 activated).
  assert (Hnil : Q []).
  { split; [apply Subseq_nil_l|]. intros e1 e2 []. }
  assert (H : returns Q (activateWorldInfo_run E W chat)).
  { unfold activateWorldInfo_run.
    apply returns_bind. intros w0 _.
    destruct (negb (settings.enabled_world_info (cfg w0)));
      [now apply returns_ret|].
    apply returns_bind. intros sorted [w1 [w2 Hrun]].
    rewrite Hsorted in Hrun. injection Hrun as <- _.
    destruct entries as [|e l] eqn:He; [now apply returns_ret|].
    destruct (_ =? 0)%nat; [now apply returns_ret|].
    apply returns_bind. intros ids _.
    apply returns_bind. intros queryText _.
    destruct (_ =? 0)%nat; [now apply returns_ret|].
    apply returns_bind. intros queryResults _.
    apply returns_ret. split; [apply filter_Subseq|].
    intros e1 e2 H1 H2 Hh. apply filter_In in H1. apply filter_In.
    split; [exact H2|]. rewrite Hh. apply H1. }
  intros Hrun. exact (H _ _ _ Hrun).
Qed.

Lemma activateWorldInfo_by_content_witness :
  In (mkEntry "old" true "dragon" true 3)
     (match fst (activateWorldInfo_run
                   (Sample.collab WorldCases.lore_server)
                   WorldCases.world_info Sample.four_messages
                   (WorldCases.world Sample.four_messages)) with
      | Normal activated => activated
      | Throw _ => []
      end).
Proof.
  destruct (activateWorldInfo_run (Sample.collab WorldCases.lore_server)
              WorldCases.world_info Sample.four_messages
              (WorldCases.world Sample.four_messages))
    as [[activated|cause] w'] eqn:Hrun; [|vm_compute in Hrun; discriminate].
  cbn [fst].
  apply (proj2 (@activateWorldInfo_by_content
                  (Sample.collab WorldCases.lore_server)
                  WorldCases.world_info Sample.four_messages
                  WorldCases.entries activated
                  (WorldCases.world Sample.four_messages) w'
                  eq_refl Hrun)
               (mkEntry "lore" false "dragon" true 1)).
  - vm_compute in Hrun. injection Hrun as <- _. now left.
  - vm_compute. intuition.
  - reflexivity.
Defined.

(** X27.  Nothing to synchronise.  When no entry of the sorted list
    passes the tests of the grouping loop with a world other than
    [__proto__], [activateWorldInfo] returns without activating an entry
    and leaves the world as it was: it sends no request, whatever the
    settings, the chat and the server. *)
Theorem activateWorldInfo_nothing_kept (E : Collab) (W : WorldInfo)
    (chat : list message) (entries : list WIEntry) (w : World) :
  getSortedEntries W = Normal (Some entries) ->
  (forall e, In e entries -> kept W e = true ->
             entry_world e = "__proto__") ->
  activateWorldInfo_run E W chat w = (Normal [], w).
Proof.
  intros Hsorted Hnone. unfold activateWorldInfo_run.
  unfold bind at 1. unfold get.
  destruct (negb (settings.enabled_world_info (cfg w))); [reflexivity|].
  unfold bind at 1. rewrite Hsorted.
  destruct entries as [|e l] eqn:He; [reflexivity|]. rewrite <- He in *.
  assert (Hown : own (groupEntries W entries) = []).
  { apply own_empty. intros k Hk. apply groupEntries_keys in Hk.
    destruct Hk as [x [Hx [Hkept [Hw Hn]]]]. apply Hn. rewrite <- Hw.
    now apply Hnone. }
  rewrite Hown. reflexivity.
Qed.

Lemma activateWorldInfo_nothing_kept_witness :
  activateWorldInfo_run (Sample.collab WorldCases.lore_server)
    (mkWorldInfo (Normal (Some WorldCases.idle_entries)) false 5)
    Sample.four_messages (WorldCases.world Sample.four_messages)
  = (Normal [], WorldCases.world Sample.four_messages).
Proof.
  apply (@activateWorldInfo_nothing_kept
           (Sample.collab WorldCases.lore_server)
           (mkWorldInfo (Normal (Some WorldCases.idle_entries)) false 5)
           Sample.four_messages WorldCases.idle_entries
           (WorldCases.world Sample.four_messages) eq_refl).
  intros e [<-|[<-|[]]]; cbv; discriminate.
Defined.

(** X28.  A world named [__proto__].  Assigning to the key [__proto__]
    replaces the prototype of the grouping object by an array that holds
    the entry, and the loop over the groups then also visits the index
    [0] of that array, where it finds an entry and not a list of entries.
    So when world info is enabled and the sorted list holds an entry of
    the world [__proto__] and an entry of another world that both pass
    the tests, and no passing entry has the world [0],
    [activateWorldInfo] throws, whatever the server answers. *)
Theorem activateWorldInfo_proto_world (E : Collab) (W : WorldInfo)
    (chat : list message) (entries : list WIEntry) (e x : WIEntry)
    (w : World) :
  settings.enabled_world_info (cfg w) = true ->
  getSortedEntries W = Normal (Some entries) ->
  In e entries -> kept W e = true -> entry_world e = "__proto__" ->
  In x entries -> kept W x = true -> entry_world x <> "__proto__" ->
  (forall y, In y entries -> kept W y = true -> entry_world y <> "0") ->
  exists cause, fst (activateWorldInfo_run E W chat w) = Throw cause.
Proof.
  intros Hon Hsorted He Hke Hwe Hx Hkx Hwx Hzero.
  unfold activateWorldInfo_run. unfold bind at 1. unfold get.
  rewrite Hon. cbn [negb]. unfold bind at 1. rewrite Hsorted.
  destruct entries as [|e0 l] eqn:Hl; [destruct He|]. rewrite <- Hl in *.
  assert (Hkey : In (entry_world x) (own_keys (own (groupEntries W entries)))).
  { apply own_keys_In, groupEntries_keys. exists x. now repeat split. }
  destruct (own_keys (own (groupEntries W entries))) as [|k ks] eqn:Hkeys;
    [destruct Hkey|]. cbn [List.length Nat.eqb].
  apply throws_bind.
  assert (Hnone : get_own (own (groupEntries W entries)) "0" = None).
  { apply get_own_None. intros Hin. apply groupEntries_keys in Hin.
    destruct Hin as [y [Hy [Hky [Hwy _]]]]. exact (Hzero y Hy Hky Hwy). }
  apply (@syncWorlds_missing E _ "0" Hnone).
  unfold enumerated. rewrite Hnone.
  destruct (groupEntries_proto W entries) as [e' ->];
    [exists e; now repeat split|].
  apply in_or_app. right. now left.
Qed.

Lemma activateWorldInfo_proto_world_witness :
  exists cause,
    fst (activateWorldInfo_run (Sample.collab WorldCases.lore_server)
           (mkWorldInfo (Normal (Some WorldCases.proto_entries)) false 5)
           Sample.four_messages (WorldCases.world Sample.four_messages))
    = Throw cause.
Proof.
  apply (@activateWorldInfo_proto_world
           (Sample.collab WorldCases.lore_server)
           (mkWorldInfo (Normal (Some WorldCases.proto_entries)) false 5)
           Sample.four_messages WorldCases.proto_entries
           (mkEntry "__proto__" false "sea" true 2)
           (mkEntry "lore" false "dragon" true 1)
           (WorldCases.world Sample.four_messages)
           eq_refl eq_refl).
  - right. now left.
  - reflexivity.
  - reflexivity.
  - now left.
  - reflexivity.
  - cbv. discriminate.
  - intros y [<-|[<-|[]]] _; cbv; discriminate.
Defined.

(** ** The collection that synchronisation touches *)

Lemma sends_computeDelta (E : Collab) (chatId : string) :
  sends (sync_request chatId) (computeDelta E chatId).
Proof.
  unfold computeDelta.
  apply sends_bind; [apply sends_get|]. intros context.
  apply sends_bind; [apply sends_getSavedHashes; intros; reflexivity|].
  intros saved. apply sends_bind; [|intros; apply sends_ret].
  destruct (settings.summarize (cfg context)); [|apply sends_ret].
  apply sends_bind; [apply sends_summarize; intros; exact I|].
  intros r. unfold array_of. destruct r; [apply sends_ret|apply sends_throw].
Qed.

Lemma sends_applyDelta (E : Collab) (batchSize : Z) (chatId : string)
    (newItems : list Item) (deleted : list Z) :
  sends (sync_request chatId) (applyDelta E batchSize chatId newItems deleted).
Proof.
  unfold applyDelta.
  apply sends_bind; [apply sends_get|]. intros w.
  apply sends_bind.
  { destruct (_ >? 0); [|apply sends_ret].
    apply sends_insertVectorItems. intros; reflexivity. }
  intros _. apply sends_bind.
  { destruct (_ >? 0); [|apply sends_ret].
    apply sends_deleteVectorItems. intros; reflexivity. }
  intros _. apply sends_ret.
Qed.

(** X29.  Synchronisation stays in its collection.  Every request of
    [synchronizeChat] is added to the log; when no chat is selected there
    is none, and otherwise each one is a listing, an insertion or a
    deletion in the collection named by the identifier of the selected
    chat, or a request for a summary: no other collection is touched,
    nothing is purged and nothing is queried. *)
Theorem synchronizeChat_own_collection (E : Collab) (batchSize : Z)
    (w : World) :
  exists new,
    requests (snd (synchronizeChat E batchSize w)) = requests w ++ new /\
    match chat_selected (currentChatId w) with
    | Some chatId => Forall (sync_request chatId) new
    | None => new = []
    end.
Proof.
  assert (Hnil : exists new : list Request,
             requests w = requests w ++ new /\
             match chat_selected (currentChatId w) with
             | Some chatId => Forall (sync_request chatId) new
             | None => new = []
             end).
  { exists []. rewrite app_nil_r. split; [reflexivity|].
    destruct (chat_selected (currentChatId w)); [constructor|reflexivity]. }
  unfold synchronizeChat.
  destruct (negb (settings.enabled_chats (cfg w))); [exact Hnil|].
  unfold waitUntilCondition.
  destruct (negb (syncBlocked w) && negb (is_send_press w)); [|exact Hnil].
  destruct (synchronizeChat_try E batchSize w) as [completion w2] eqn:Htry.
  assert (Hreq : forall c t m,
             requests (snd (let (result, w3) :=
                              match completion with
                              | Normal remaining => (remaining, w2)
                              | Throw cause => (c, log_toast t (m cause) w2)
                              end in
                            (result, set_syncBlocked false w3)))
             = requests w2).
  { intros c t m. now destruct completion. }
  rewrite Hreq. clear Hreq.
  unfold synchronizeChat_try in Htry. unfold bind at 1 in Htry.
  unfold modify at 1 in Htry. unfold bind at 1 in Htry. unfold get at 1 in Htry.
  cbn [currentChatId set_syncBlocked] in Htry.
  destruct (chat_selected (currentChatId w)) as [chatId|].
  - assert (H : sends (sync_request chatId)
                  (delta <- computeDelta E chatId ;;
                   applyDelta E batchSize chatId (fst delta) (snd delta))).
    { apply sends_bind; [apply sends_computeDelta|]. intros delta.
      apply sends_applyDelta. }
    destruct (H _ _ _ Htry) as [new [Hr Hp]]. exists new.
    split; [exact Hr|exact Hp].
  - injection Htry as _ <-. exists []. cbn. now rewrite app_nil_r.
Qed.
